(** * IR extraction and lowering: a shallow embedding of
      [tools/decompile_analysis.py] and [tools/ir_to_c.py]

    Python [str] values are sequences of Unicode code points; they are
    embedded as [list N].  The interpreter's [re] module is embedded as a
    backtracking matcher over a small pattern syntax that covers every
    pattern the two tools use.  The parts of the interpreter's Unicode
    database that lie outside ASCII are not part of the repository and are
    taken as a parameter ([UnicodeDB]). *)

From Stdlib Require Import String Ascii List NArith ZArith Arith Bool Lia.
From Stdlib Require Import Numbers.DecimalString.
Import ListNotations.

Set Implicit Arguments.

(* ================================================================== *)
(** ** Characters and strings *)

Definition char := N.
Definition str := list char.

(** A source-code literal, read as its sequence of code points. *)
Definition s2l (s : string) : str := map N_of_ascii (list_ascii_of_string s).

Definition ch (a : ascii) : char := N_of_ascii a.

Fixpoint str_eqb (a b : str) : bool :=
  match a, b with
  | [], [] => true
  | x :: a', y :: b' => N.eqb x y && str_eqb a' b'
  | _, _ => false
  end.

(** [s.startswith(p)] *)
Fixpoint startswith (p s : str) : bool :=
  match p, s with
  | [], _ => true
  | x :: p', y :: s' => N.eqb x y && startswith p' s'
  | _ :: _, [] => false
  end.

(** [p in s] for strings. *)
Fixpoint contains (p s : str) : bool :=
  startswith p s || match s with [] => false | _ :: s' => contains p s' end.

(** [s[a:b]] for non-negative [a] and [b]. *)
Definition slice (s : str) (a b : nat) : str := firstn (b - a) (skipn a s).

(** [sep.join(parts)] *)
Fixpoint join (sep : str) (parts : list str) : str :=
  match parts with
  | [] => []
  | [p] => p
  | p :: rest => p ++ sep ++ join sep rest
  end.

(** Decimal rendering of a non-negative integer, as [str(n)] does. *)
Definition str_of_nat (n : nat) : str :=
  s2l (NilZero.string_of_uint (Nat.to_uint n)).

(** The interpreter's Unicode tables beyond ASCII. Each field is consulted
    only for code points of 128 and above. *)
Class UnicodeDB := {
  uni_decimal : char -> bool;   (* decimal digits, the class behind \d *)
  uni_isdigit : char -> bool;   (* str.isdigit *)
  uni_alnum : char -> bool;     (* alphanumerics, the class behind \w *)
  uni_ci : char -> char -> bool;
    (* [uni_ci p c]: under IGNORECASE the pattern letter [p] matches [c] *)
  ucd_name : str -> option char (* lookup behind the \N{...} escape *)
}.

(** Whitespace as [str.isspace], [str.strip] and the class \s see it. *)
Definition is_space (c : char) : bool :=
  ((9 <=? c) && (c <=? 13) || (28 <=? c) && (c <=? 32)
   || (c =? 133) || (c =? 160) || (c =? 5760)
   || (8192 <=? c) && (c <=? 8202)
   || (c =? 8232) || (c =? 8233) || (c =? 8239) || (c =? 8287)
   || (c =? 12288))%N.

Definition ascii_digit (c : char) : bool := ((48 <=? c) && (c <=? 57))%N.
Definition ascii_upper (c : char) : bool := ((65 <=? c) && (c <=? 90))%N.
Definition ascii_lower (c : char) : bool := ((97 <=? c) && (c <=? 122))%N.

Definition to_lower (c : char) : char :=
  if ascii_upper c then (c + 32)%N else c.

Section Classes.
Context {U : UnicodeDB}.

(** \d *)
Definition is_digit (c : char) : bool :=
  if (c <? 128)%N then ascii_digit c else uni_decimal c.

(** \w *)
Definition is_word (c : char) : bool :=
  if (c <? 128)%N
  then ascii_digit c || ascii_upper c || ascii_lower c || (c =? 95)%N
  else uni_alnum c.

(** One character of [str.isdigit]. *)
Definition char_isdigit (c : char) : bool :=
  if (c <? 128)%N then ascii_digit c else uni_isdigit c.

(** [s.isdigit()]: non-empty and every character a digit. *)
Definition isdigit (s : str) : bool :=
  match s with [] => false | _ => forallb char_isdigit s end.

(** A pattern character under IGNORECASE. *)
Definition ci_char (p c : char) : bool :=
  if (c <? 128)%N then (to_lower c =? to_lower p)%N
  else if ascii_lower p || ascii_upper p then uni_ci (to_lower p) c
  else false.
End Classes.

(** . (without DOTALL) *)
Definition is_dot (c : char) : bool := negb (c =? 10)%N.

Definition is_not (x : ascii) (c : char) : bool := negb (c =? ch x)%N.

(** [s.lstrip()], [s.rstrip()], [s.strip()] *)
Fixpoint lstrip (s : str) : str :=
  match s with
  | c :: s' => if is_space c then lstrip s' else s
  | [] => []
  end.

Definition rstrip (s : str) : str := rev (lstrip (rev s)).
Definition strip (s : str) : str := rstrip (lstrip s).

(** [s.split(sep)] for a one-character separator. *)
Fixpoint split_on (sep : char) (s : str) : list str :=
  match s with
  | [] => [[]]
  | c :: s' =>
      if (c =? sep)%N then [] :: split_on sep s'
      else match split_on sep s' with
           | p :: ps => (c :: p) :: ps
           | [] => [[c]]
           end
  end.

(** [s.replace(old, new)] for a one-character [old]. *)
Definition replace_char (old : char) (new : str) (s : str) : str :=
  flat_map (fun c => if (c =? old)%N then new else [c]) s.

(** [s.split()]: the maximal runs of characters that are not
    whitespace.  [cur] holds the run being read, last character first. *)
Fixpoint split_ws_from (cur : str) (s : str) : list str :=
  match s with
  | [] => match cur with [] => [] | _ => [rev cur] end
  | c :: s' =>
      if is_space c
      then match cur with
           | [] => split_ws_from [] s'
           | _ => rev cur :: split_ws_from [] s'
           end
      else split_ws_from (c :: cur) s'
  end.

Definition split_ws (s : str) : list str := split_ws_from [] s.

(* ================================================================== *)
(** ** Patterns and the backtracking matcher

    The pattern syntax covers what the two tools write: literals and
    character classes, sequencing, alternation, optional groups, greedy
    and lazy repetition of a character class, capture groups and the
    line-start anchor of MULTILINE mode. *)

Inductive re : Type :=
| Eps
| Chr (p : char -> bool)
| Seq (a b : re)
| Alt (a b : re)
| Star (p : char -> bool)        (* p*  greedy *)
| StarLazy (p : char -> bool)    (* p*? *)
| Group (n : nat) (a : re)       (* (a), the n-th group *)
| Bol                            (* ^ under MULTILINE *)
| Eos.                           (* $ without MULTILINE *)

Definition Plus (p : char -> bool) : re := Seq (Chr p) (Star p).
Definition PlusLazy (p : char -> bool) : re := Seq (Chr p) (StarLazy p).
Definition Opt (a : re) : re := Alt a Eps.

Fixpoint Lit (s : str) : re :=
  match s with
  | [] => Eps
  | c :: s' => Seq (Chr (N.eqb c)) (Lit s')
  end.

Fixpoint seqs (rs : list re) : re :=
  match rs with
  | [] => Eps
  | [r] => r
  | r :: rs' => Seq r (seqs rs')
  end.

(** Matcher state: the offset reached, whether it is a line start, the
    text still ahead and the groups captured on the current path. *)
Record mstate := MState {
  m_pos : nat;
  m_bol : bool;
  m_rest : str;
  m_caps : list (nat * str)
}.

Definition advance (c : char) (rest : str) (st : mstate) : mstate :=
  MState (S (m_pos st)) (c =? 10)%N rest (m_caps st).

Definition orelse {R} (a b : option R) : option R :=
  match a with Some x => Some x | None => b end.

Fixpoint star_greedy {R} (p : char -> bool) (rest : str) (st : mstate)
    (k : mstate -> option R) : option R :=
  match rest with
  | c :: rest' =>
      if p c
      then orelse (star_greedy p rest' (advance c rest' st) k) (k st)
      else k st
  | [] => k st
  end.

Fixpoint star_lazy {R} (p : char -> bool) (rest : str) (st : mstate)
    (k : mstate -> option R) : option R :=
  match rest with
  | c :: rest' =>
      orelse (k st)
             (if p c then star_lazy p rest' (advance c rest' st) k else None)
  | [] => k st
  end.

Fixpoint rmatch {R} (r : re) (st : mstate) (k : mstate -> option R)
    : option R :=
  match r with
  | Eps => k st
  | Chr p =>
      match m_rest st with
      | c :: rest' => if p c then k (advance c rest' st) else None
      | [] => None
      end
  | Seq a b => rmatch a st (fun st' => rmatch b st' k)
  | Alt a b => orelse (rmatch a st k) (rmatch b st k)
  | Star p => star_greedy p (m_rest st) st k
  | StarLazy p => star_lazy p (m_rest st) st k
  | Group n a =>
      rmatch a st (fun st' =>
        k (MState (m_pos st') (m_bol st') (m_rest st')
             ((n, firstn (m_pos st' - m_pos st) (m_rest st)) :: m_caps st')))
  | Bol => if m_bol st then k st else None
  | Eos =>
      match m_rest st with
      | [] => k st
      | [c] => if (c =? 10)%N then k st else None
      | _ => None
      end
  end.

(** A successful match: where it starts, where it ends, its groups. *)
Record rmatched := RMatched {
  r_start : nat;
  r_end : nat;
  r_caps : list (nat * str)
}.

Fixpoint cap_lookup (n : nat) (caps : list (nat * str)) : option str :=
  match caps with
  | [] => None
  | (m, s) :: caps' => if Nat.eqb n m then Some s else cap_lookup n caps'
  end.

(** [match.group(n)] for a group that took part in the match. *)
Definition group (n : nat) (m : rmatched) : str :=
  match cap_lookup n (r_caps m) with Some s => s | None => [] end.

Definition match_here (r : re) (pos : nat) (bol : bool) (rest : str)
    : option rmatched :=
  rmatch r (MState pos bol rest [])
    (fun st => Some (RMatched pos (m_pos st) (m_caps st))).

(** [re.search]: the leftmost position at which the pattern matches. *)
Fixpoint search_from (r : re) (pos : nat) (bol : bool) (rest : str)
    : option rmatched :=
  match match_here r pos bol rest with
  | Some m => Some m
  | None =>
      match rest with
      | c :: rest' => search_from r (S pos) (c =? 10)%N rest'
      | [] => None
      end
  end.

Definition re_search (r : re) (s : str) : option rmatched :=
  search_from r 0 true s.

(** [re.finditer]: successive non-overlapping matches, left to right.
    [skip] counts the characters still covered by the previous match.
    None of the tools' patterns can match the empty string. *)
Fixpoint finditer_from (r : re) (skip pos : nat) (bol : bool) (rest : str)
    : list rmatched :=
  match rest with
  | [] =>
      match skip with
      | 0 => match match_here r pos bol rest with
             | Some m => [m]
             | None => []
             end
      | S _ => []
      end
  | c :: rest' =>
      match skip with
      | S n => finditer_from r n (S pos) (c =? 10)%N rest'
      | 0 =>
          match match_here r pos bol rest with
          | Some m =>
              m :: finditer_from r (r_end m - pos - 1) (S pos)
                     (c =? 10)%N rest'
          | None => finditer_from r 0 (S pos) (c =? 10)%N rest'
          end
      end
  end.

Definition finditer (r : re) (s : str) : list rmatched :=
  finditer_from r 0 0 true s.

(** The text a match covers, [match.group(0)]. *)
Definition matched_text (s : str) (m : rmatched) : str :=
  slice s (r_start m) (r_end m).

(** [re.findall] for a pattern without groups (whole matches) and for a
    pattern with exactly one group (that group). *)
Definition findall0 (r : re) (s : str) : list str :=
  map (matched_text s) (finditer r s).

Definition findall1 (r : re) (s : str) : list str :=
  map (group 1) (finditer r s).

(** [re.sub(r, '', s)]: the text with every match removed. *)
Fixpoint sub_empty_from (r : re) (skip pos : nat) (bol : bool) (rest : str)
    : str :=
  match rest with
  | [] => []
  | c :: rest' =>
      match skip with
      | S n => sub_empty_from r n (S pos) (c =? 10)%N rest'
      | 0 =>
          match match_here r pos bol rest with
          | Some m =>
              match r_end m - pos with
              | 0 => c :: sub_empty_from r 0 (S pos) (c =? 10)%N rest'
              | S n => sub_empty_from r n (S pos) (c =? 10)%N rest'
              end
          | None => c :: sub_empty_from r 0 (S pos) (c =? 10)%N rest'
          end
      end
  end.

Definition re_sub_empty (r : re) (s : str) : str :=
  sub_empty_from r 0 0 true s.

(** [re.split] for a pattern with one group: the pieces between the
    matches, interleaved with the group of each match. *)
Fixpoint split_from (r : re) (skip pos : nat) (bol : bool) (rest : str)
    (piece : str) : list str :=
  match rest with
  | [] => [rev piece]
  | c :: rest' =>
      match skip with
      | S n => split_from r n (S pos) (c =? 10)%N rest' piece
      | 0 =>
          match match_here r pos bol rest with
          | Some m =>
              match r_end m - pos with
              | 0 => split_from r 0 (S pos) (c =? 10)%N rest' (c :: piece)
              | S n =>
                  rev piece :: group 1 m ::
                    split_from r n (S pos) (c =? 10)%N rest' []
              end
          | None => split_from r 0 (S pos) (c =? 10)%N rest' (c :: piece)
          end
      end
  end.

Definition re_split1 (r : re) (s : str) : list str :=
  split_from r 0 0 true s [].

(* ================================================================== *)
(** ** Dictionaries and loops

    A [dict] keeps its keys in insertion order; assigning to a key that
    is present replaces the value where it stands. *)

Definition dict (V : Type) := list (str * V).

Fixpoint dict_set {V} (k : str) (v : V) (d : dict V) : dict V :=
  match d with
  | [] => [(k, v)]
  | (k', v') :: d' =>
      if str_eqb k k' then (k, v) :: d' else (k', v') :: dict_set k v d'
  end.

Fixpoint dict_get {V} (k : str) (d : dict V) : option V :=
  match d with
  | [] => None
  | (k', v') :: d' => if str_eqb k k' then Some v' else dict_get k d'
  end.

(** [d.get(k, default)] *)
Definition dict_get_default {V} (k : str) (dflt : V) (d : dict V) : V :=
  match dict_get k d with Some v => v | None => dflt end.

Definition dict_keys {V} (d : dict V) : list str := map fst d.
Definition dict_values {V} (d : dict V) : list V := map snd d.

(** A [while] loop run with a bound on the number of iterations; [None]
    means the bound was reached with the guard still true. *)
Fixpoint while_loop {St} (fuel : nat) (cond : St -> bool) (body : St -> St)
    (st : St) : option St :=
  match fuel with
  | 0 => None
  | S fuel' =>
      if cond st then while_loop fuel' cond body (body st) else Some st
  end.

(** Outcome of a call that may raise. *)
Inductive result (A : Type) : Type :=
| Ok (a : A)
| Raise (msg : string).
Arguments Ok {A} a.
Arguments Raise {A} msg.

(** [try: return body  except: return handler] *)
Definition try_except {A} (body : result A) (handler : A) : A :=
  match body with Ok a => a | Raise _ => handler end.

(* ================================================================== *)
(** ** The brace-depth scan shared by both tools

    [while end_pos < len(content) and brace_count > 0: ...] *)

Definition brace_cond (content : str) (st : nat * Z) : bool :=
  (fst st <? length content) && (0 <? snd st)%Z.

Definition brace_body (content : str) (st : nat * Z) : nat * Z :=
  let c := nth (fst st) content 0%N in
  let brace_count :=
    if (c =? ch "{")%N then (snd st + 1)%Z
    else if (c =? ch "}")%N then (snd st - 1)%Z
    else snd st in
  (fst st + 1, brace_count).

Definition brace_scan (content : str) (start_pos : nat) : option (nat * Z) :=
  while_loop (S (length content - start_pos)) (brace_cond content)
    (brace_body content) (start_pos, 1%Z).

(** The value of [end_pos] when the loop is left.  The bound given to
    the loop is never reached, so the second branch is never taken. *)
Definition body_end (content : str) (start_pos : nat) : nat :=
  match brace_scan content start_pos with
  | Some st => fst st
  | None => length content
  end.

(** [content[start_pos:end_pos-1]] *)
Definition function_body (content : str) (start_pos : nat) : str :=
  slice content start_pos (body_end content start_pos - 1).

(* ================================================================== *)
(** ** [codecs.decode(s, 'unicode_escape')]

    The codec receives the UTF-8 encoding of the text and reads it byte
    by byte: a byte outside an escape yields the character with that
    code, a backslash starts an escape. *)

Definition utf8_encode_char (c : char) : result (list N) :=
  (if c <? 128 then Ok [c]
   else if c <? 2048 then Ok [192 + c / 64; 128 + c mod 64]
   else if c <? 65536 then
     if (55296 <=? c) && (c <=? 57343)
     then Raise "surrogates not allowed"
     else Ok [224 + c / 4096; 128 + (c / 64) mod 64; 128 + c mod 64]
   else if c <? 1114112 then
     Ok [240 + c / 262144; 128 + (c / 4096) mod 64;
         128 + (c / 64) mod 64; 128 + c mod 64]
   else Raise "not a code point")%N.

Fixpoint utf8_encode (s : str) : result (list N) :=
  match s with
  | [] => Ok []
  | c :: s' =>
      match utf8_encode_char c with
      | Raise m => Raise m
      | Ok bs =>
          match utf8_encode s' with
          | Raise m => Raise m
          | Ok rest => Ok (bs ++ rest)
          end
      end
  end.

Definition is_octal (b : N) : bool := ((48 <=? b) && (b <=? 55))%N.

Definition hex_value (b : N) : option N :=
  (if (48 <=? b) && (b <=? 57) then Some (b - 48)
   else if (97 <=? b) && (b <=? 102) then Some (b - 87)
   else if (65 <=? b) && (b <=? 70) then Some (b - 55)
   else None)%N.

Fixpoint hex_number (acc : N) (ds : list N) : option N :=
  match ds with
  | [] => Some acc
  | d :: ds' =>
      match hex_value d with
      | Some v => hex_number (acc * 16 + v)%N ds'
      | None => None
      end
  end.

Definition emit (c : char) (r : result str) : result str :=
  match r with Ok s => Ok (c :: s) | Raise m => Raise m end.

(** \xXX, \uXXXX and \UXXXXXXXX once their digits have been taken. *)
Definition hex_escape (ds : list N) (msg : string) (rest : result str)
    : result str :=
  match hex_number 0 ds with
  | None => Raise msg
  | Some v =>
      if (1114111 <? v)%N then Raise "illegal Unicode character"
      else emit v rest
  end.

Inductive dmode := DNormal | DName (acc : list N).

Section Codec.
Context {U : UnicodeDB}.

Fixpoint unicode_escape_decode (mode : dmode) (bs : list N) : result str :=
  match mode with
  | DName acc =>
      match bs with
      | [] => Raise "malformed \N character escape"
      | b :: bs' =>
          if (b =? ch "}")%N then
            match acc with
            | [] => Raise "malformed \N character escape"
            | _ =>
                match ucd_name (rev acc) with
                | Some c => emit c (unicode_escape_decode DNormal bs')
                | None => Raise "unknown Unicode character name"
                end
            end
          else unicode_escape_decode (DName (b :: acc)) bs'
      end
  | DNormal =>
      match bs with
      | [] => Ok []
      | b :: bs1 =>
          if negb (b =? 92)%N then emit b (unicode_escape_decode DNormal bs1)
          else
            match bs1 with
            | [] => Raise "\ at end of string"
            | e :: bs2 =>
                if (e =? 10)%N then unicode_escape_decode DNormal bs2
                else if (e =? 92)%N || (e =? 39)%N || (e =? 34)%N
                then emit e (unicode_escape_decode DNormal bs2)
                else if (e =? ch "b")%N
                then emit 8%N (unicode_escape_decode DNormal bs2)
                else if (e =? ch "f")%N
                then emit 12%N (unicode_escape_decode DNormal bs2)
                else if (e =? ch "t")%N
                then emit 9%N (unicode_escape_decode DNormal bs2)
                else if (e =? ch "n")%N
                then emit 10%N (unicode_escape_decode DNormal bs2)
                else if (e =? ch "r")%N
                then emit 13%N (unicode_escape_decode DNormal bs2)
                else if (e =? ch "v")%N
                then emit 11%N (unicode_escape_decode DNormal bs2)
                else if (e =? ch "a")%N
                then emit 7%N (unicode_escape_decode DNormal bs2)
                else if is_octal e then
                  match bs2 with
                  | d2 :: bs3 =>
                      if is_octal d2 then
                        match bs3 with
                        | d3 :: bs4 =>
                            if is_octal d3
                            then emit ((e - 48) * 64 + (d2 - 48) * 8
                                       + (d3 - 48))%N
                                   (unicode_escape_decode DNormal bs4)
                            else emit ((e - 48) * 8 + (d2 - 48))%N
                                   (unicode_escape_decode DNormal bs3)
                        | [] => emit ((e - 48) * 8 + (d2 - 48))%N
                                  (unicode_escape_decode DNormal bs3)
                        end
                      else emit (e - 48)%N
                             (unicode_escape_decode DNormal bs2)
                  | [] => emit (e - 48)%N
                            (unicode_escape_decode DNormal bs2)
                  end
                else if (e =? ch "x")%N then
                  match bs2 with
                  | h1 :: h2 :: r =>
                      hex_escape [h1; h2] "truncated \xXX escape"
                        (unicode_escape_decode DNormal r)
                  | _ => Raise "truncated \xXX escape"
                  end
                else if (e =? ch "u")%N then
                  match bs2 with
                  | h1 :: h2 :: h3 :: h4 :: r =>
                      hex_escape [h1; h2; h3; h4] "truncated \uXXXX escape"
                        (unicode_escape_decode DNormal r)
                  | _ => Raise "truncated \uXXXX escape"
                  end
                else if (e =? ch "U")%N then
                  match bs2 with
                  | h1 :: h2 :: h3 :: h4 :: h5 :: h6 :: h7 :: h8 :: r =>
                      hex_escape [h1; h2; h3; h4; h5; h6; h7; h8]
                        "truncated \UXXXXXXXX escape"
                        (unicode_escape_decode DNormal r)
                  | _ => Raise "truncated \UXXXXXXXX escape"
                  end
                else if (e =? ch "N")%N then
                  match bs2 with
                  | b0 :: r =>
                      if (b0 =? ch "{")%N
                      then unicode_escape_decode (DName []) r
                      else Raise "malformed \N character escape"
                  | [] => Raise "malformed \N character escape"
                  end
                else emit 92%N (emit e (unicode_escape_decode DNormal bs2))
            end
      end
  end.

Definition codecs_decode (s : str) : result str :=
  match utf8_encode s with
  | Raise m => Raise m
  | Ok bs => unicode_escape_decode DNormal bs
  end.
End Codec.

(* ================================================================== *)
(** ** Patterns used by both tools *)

Section SharedPatterns.
Context {U : UnicodeDB}.

(** The header pattern, here broken over three lines:
      define\s+(?:dso_local\s+)?(?:internal\s+)?
      ([^@]+?)\s+@(\w+)\s*\(([^)]*
      )\)\s*\{                                                        *)
Definition func_pattern : re :=
  seqs [ Lit (s2l "define"); Plus is_space;
         Opt (Seq (Lit (s2l "dso_local")) (Plus is_space));
         Opt (Seq (Lit (s2l "internal")) (Plus is_space));
         Group 1 (PlusLazy (is_not "@")); Plus is_space;
         Lit (s2l "@"); Group 2 (Plus is_word); Star is_space;
         Lit (s2l "("); Group 3 (Star (is_not ")")); Lit (s2l ")");
         Star is_space; Lit (s2l "{") ].

(** %\d+\s*=\s* *)
Definition assign_pattern : re :=
  seqs [ Lit (s2l "%"); Plus is_digit; Star is_space; Lit (s2l "=");
         Star is_space ].

(** call\s+[^@]*@(\w+) *)
Definition call_pattern : re :=
  seqs [ Lit (s2l "call"); Plus is_space; Star (is_not "@");
         Lit (s2l "@"); Group 1 (Plus is_word) ].

(** ret\s+(.+) *)
Definition ret_pattern : re :=
  seqs [ Lit (s2l "ret"); Plus is_space; Group 1 (Plus is_dot) ].
End SharedPatterns.

(* ================================================================== *)
(** ** tools/decompile_analysis.py *)

Record FunctionInfo := {
  name : str;
  params : list str;
  return_type : str;
  instructions : list str;
  basic_blocks : nat;
  complexity : nat
}.

Record ObfuscationMetrics := {
  total_functions : nat;
  obfuscated_functions : nat;
  string_encryptions : nat;
  opaque_predicates : nat;
  bogus_code_blocks : nat;
  fake_loops : nat;
  virtualized_functions : nat;
  control_flow_obfuscations : nat;
  total_instructions : nat;
  obfuscated_instructions : nat
}.

Module LLVMIRParser.
Section Parser.
Context {U : UnicodeDB}.

(** The parser object after [parse()]. *)
Record t := {
  content : str;
  functions : dict FunctionInfo;
  globals : list str;
  strings : list str;
  obfuscation_patterns : dict nat
}.

(** The global pattern, here broken over two lines:
      @(\w+)\s*=\s*(?:internal\s+)?(?:private\s+)?
      (?:unnamed_addr\s+)?(?:global|constant)                          *)
Definition global_pattern : re :=
  seqs [ Lit (s2l "@"); Group 1 (Plus is_word); Star is_space;
         Lit (s2l "="); Star is_space;
         Opt (Seq (Lit (s2l "internal")) (Plus is_space));
         Opt (Seq (Lit (s2l "private")) (Plus is_space));
         Opt (Seq (Lit (s2l "unnamed_addr")) (Plus is_space));
         Alt (Lit (s2l "global")) (Lit (s2l "constant")) ].

Definition _extract_globals (content : str) : list str :=
  findall1 global_pattern content.

(** The letter c, a double quote, group 1 holding any run of
    characters other than the double quote, a double quote. *)
Definition string_pattern : re :=
  seqs [ Lit [ch "c"; 34%N]; Group 1 (Star (fun c => negb (c =? 34)%N));
         Lit [34%N] ].

Definition _decode_string (s : str) : str :=
  try_except (codecs_decode s) s.

Definition nonempty (s : str) : bool :=
  match s with [] => false | _ => true end.

Definition _extract_strings (content : str) : list str :=
  map _decode_string (filter nonempty (findall1 string_pattern content)).

(** %\w+ *)
Definition param_name_pattern : re :=
  Seq (Lit (s2l "%")) (Plus is_word).

Definition _parse_params (params_str : str) : list str :=
  if negb (nonempty params_str) then []
  else
    flat_map
      (fun param =>
         let param := strip param in
         if nonempty param then
           match re_search param_name_pattern param with
           | Some m => [matched_text param m]
           | None => [param]
           end
         else [])
      (split_on (ch ",") params_str).

(** ^\s*\d+:  under MULTILINE *)
Definition label_pattern : re :=
  seqs [ Bol; Star is_space; Plus is_digit; Lit (s2l ":") ].

(** ^\s*[^;]+  under MULTILINE *)
Definition instruction_pattern : re :=
  seqs [ Bol; Star is_space; Plus (is_not ";") ].

Definition count_basic_blocks (func_body : str) : nat :=
  length (findall0 label_pattern func_body).

Definition extract_instructions (func_body : str) : list str :=
  map strip
    (filter
       (fun i => nonempty (strip i)
                 && negb (startswith (s2l ";") (strip i)))
       (findall0 instruction_pattern func_body)).

(** The record built for one header match. *)
Definition function_info (content : str) (m : rmatched) : FunctionInfo :=
  let return_type := strip (group 1 m) in
  let func_name := group 2 m in
  let params := strip (group 3 m) in
  let func_body := function_body content (r_end m) in
  let basic_blocks := count_basic_blocks func_body in
  let instructions := extract_instructions func_body in
  let complexity := length instructions + basic_blocks * 2 in
  {| name := func_name;
     params := _parse_params params;
     return_type := return_type;
     instructions := instructions;
     basic_blocks := basic_blocks;
     complexity := complexity |}.

Definition _extract_functions (content : str) : dict FunctionInfo :=
  fold_left
    (fun fs m => dict_set (group 2 m) (function_info content m) fs)
    (finditer func_pattern content) [].

(** A marker literal, matched case-insensitively. *)
Fixpoint LitI (s : str) : re :=
  match s with
  | [] => Eps
  | c :: s' => Seq (Chr (ci_char c)) (LitI s')
  end.

Definition key_pattern : re := Lit (s2l "@__obf_key").
Definition opaque_pattern : re :=
    Alt (LitI (s2l "opaque")) (LitI (s2l "obfuscated")).
Definition bogus_pattern : re :=
    Alt (Lit (s2l "0xDEADBEEF")) (Lit (s2l "0xCAFEBABE")).
Definition fake_pattern : re :=
    Alt (LitI (s2l "fake"))
        (seqs [LitI (s2l "dummy"); Star is_dot; LitI (s2l "loop")]).
Definition vm_pattern : re :=
    Alt (LitI (s2l "@__obf_decrypt"))
        (Alt (LitI (s2l "@__vm_")) (LitI (s2l "bytecode"))).
Definition flow_pattern : re :=
    Alt (seqs [LitI (s2l "switch"); Star is_dot; LitI (s2l "dispatch")])
        (LitI (s2l "flatten")).

(** [if re.search(p, content): patterns[key] = len(re.findall(p, content))] *)
Definition detect (key : string) (p : re) (content : str) (d : dict nat)
    : dict nat :=
  match re_search p content with
  | Some _ => dict_set (s2l key) (length (findall0 p content)) d
  | None => d
  end.

Definition _detect_obfuscation_patterns (content : str) : dict nat :=
  let d := detect "string_encryption" key_pattern content [] in
  let d := detect "opaque_predicates" opaque_pattern content d in
  let d := detect "bogus_code" bogus_pattern content d in
  let d := detect "fake_loops" fake_pattern content d in
  let d := detect "virtualization" vm_pattern content d in
  detect "control_flow" flow_pattern content d.

Definition parse (content : str) : t :=
  {| content := content;
     globals := _extract_globals content;
     strings := _extract_strings content;
     functions := _extract_functions content;
     obfuscation_patterns := _detect_obfuscation_patterns content |}.

Definition sum (l : list nat) : nat := fold_left Nat.add l 0.

Definition get_metrics (self : t) : ObfuscationMetrics :=
  let total_instructions :=
    sum (map (fun f => length (instructions f))
           (dict_values (functions self))) in
  let pats := obfuscation_patterns self in
  {| total_functions := length (functions self);
     obfuscated_functions :=
       length (filter (fun f => 10 <? complexity f)
                 (dict_values (functions self)));
     string_encryptions :=
       dict_get_default (s2l "string_encryption") 0 pats;
     opaque_predicates :=
       dict_get_default (s2l "opaque_predicates") 0 pats;
     bogus_code_blocks := dict_get_default (s2l "bogus_code") 0 pats;
     fake_loops := dict_get_default (s2l "fake_loops") 0 pats;
     virtualized_functions :=
       dict_get_default (s2l "virtualization") 0 pats;
     control_flow_obfuscations :=
       dict_get_default (s2l "control_flow") 0 pats;
     total_instructions := total_instructions;
     obfuscated_instructions := total_instructions |}.
End Parser.
End LLVMIRParser.

(** [if c_instr:] on an optional string. *)
Definition truthy (o : option str) : bool :=
  match o with Some (_ :: _) => true | _ => false end.

Module CDecompiler.
Section Decompiler.
Context {U : UnicodeDB}.

Definition type_map : list (string * string) :=
  [ ("i32", "int"); ("i64", "long"); ("i8", "char"); ("void", "void");
    ("float", "float"); ("double", "double") ]%string.

Fixpoint first_type (m : list (string * string)) (llvm_type : str)
    : option str :=
  match m with
  | [] => None
  | (llvm, c) :: m' =>
      if contains (s2l llvm) llvm_type then Some (s2l c)
      else first_type m' llvm_type
  end.

Definition _convert_type (llvm_type : str) : str :=
  match first_type type_map llvm_type with
  | Some c => c
  | None =>
      if contains (s2l "ptr") llvm_type || contains (s2l "*") llvm_type
      then s2l "void*"
      else s2l "int"
  end.

(** (add|sub|mul)\s+(.+?),\s*(.+) *)
Definition arith_pattern : re :=
  seqs [ Group 1 (Alt (Lit (s2l "add"))
                    (Alt (Lit (s2l "sub")) (Lit (s2l "mul"))));
         Plus is_space; Group 2 (PlusLazy is_dot); Lit (s2l ",");
         Star is_space; Group 3 (Plus is_dot) ].

Definition op_symbol (op : str) : str :=
  if str_eqb op (s2l "add") then s2l "+"
  else if str_eqb op (s2l "sub") then s2l "-"
  else s2l "*".

(** Each rule either returns (possibly [None], the instruction is
    dropped) or falls through to the next one. *)
Definition call_rule (instr : str) : option (option str) :=
  if contains (s2l "call") instr then
    match re_search call_pattern instr with
    | Some m =>
        let func_name := group 1 m in
        if startswith (s2l "llvm.") func_name then Some None
        else Some (Some (func_name ++ s2l "(...);"))
    | None => None
    end
  else None.

Definition ret_rule (instr : str) : option (option str) :=
  if contains (s2l "ret") instr then
    match re_search ret_pattern instr with
    | Some m =>
        let val := strip (group 1 m) in
        if str_eqb val (s2l "void") || negb (LLVMIRParser.nonempty val)
        then Some (Some (s2l "return;"))
        else Some (Some (s2l "return " ++ val ++ s2l ";"))
    | None => None
    end
  else None.

Definition arith_rule (instr : str) : option (option str) :=
  if contains (s2l "add") instr || contains (s2l "sub") instr
     || contains (s2l "mul") instr then
    match re_search arith_pattern instr with
    | Some m =>
        Some (Some (s2l "// " ++ group 2 m ++ s2l " "
                    ++ op_symbol (group 1 m) ++ s2l " " ++ group 3 m))
    | None => None
    end
  else None.

Definition _convert_instruction (instr : str) : option str :=
  let instr := re_sub_empty assign_pattern instr in
  match call_rule instr with
  | Some r => r
  | None =>
  match ret_rule instr with
  | Some r => r
  | None =>
  match arith_rule instr with
  | Some r => r
  | None =>
      if contains (s2l "br") instr then Some (s2l "// branch instruction")
      else if contains (s2l "load") instr || contains (s2l "store") instr
      then Some (s2l "// memory operation")
      else None
  end end end.

Definition render_param (p : str) : str :=
  if negb (startswith (s2l "%") p) then s2l "int " ++ p
  else s2l "int " ++ skipn 1 p.

(** The signature line. *)
Definition header_line (func_info : FunctionInfo) : str :=
let return_type := _convert_type (return_type func_info) in
let params := join (s2l ", ") (map render_param (params func_info)) in
return_type ++ s2l " " ++ name func_info ++ s2l "(" ++ params
++ s2l ") {".

(** The loop over the instructions: one indented line for each
    instruction whose lowering is a non-empty string. *)
Definition lowered_lines (instrs : list str) : list str :=
  flat_map
    (fun instr =>
       let c_instr := _convert_instruction instr in
       match c_instr with
       | Some c => if truthy c_instr then [s2l "    " ++ c] else []
       | None => []
       end)
    instrs.

Definition summary_line (omitted : nat) : str :=
  s2l "    // ... " ++ str_of_nat omitted ++ s2l " more instructions ...".

(** The lines [decompile_function] joins with newlines. *)
Definition decompile_lines (func_info : FunctionInfo) : list str :=
  [header_line func_info]
  ++ lowered_lines (firstn 20 (instructions func_info))
  ++ (if 20 <? length (instructions func_info)
      then [summary_line (length (instructions func_info) - 20)]
      else [])
  ++ [s2l "}"].

Definition decompile_function (func_info : FunctionInfo) : str :=
  join [10%N] (decompile_lines func_info).
End Decompiler.
End CDecompiler.

(* ================================================================== *)
(** ** tools/ir_to_c.py *)

Module IRToCConverter.
Section Converter.
Context {U : UnicodeDB}.

(** The dictionary stored for one function. *)
Record func_entry := {
  fe_return_type : str;
  fe_params : str;
  fe_body : str;
  fe_name : str
}.

Definition skipped (func_name : str) : bool :=
  startswith (s2l "llvm.") func_name || startswith (s2l "__") func_name.

Definition function_entry (ir : str) (m : rmatched) : func_entry :=
  {| fe_return_type := strip (group 1 m);
     fe_params := strip (group 3 m);
     fe_body := function_body ir (r_end m);
     fe_name := group 2 m |}.

Definition _extract_functions (ir : str) : dict func_entry :=
  fold_left
    (fun fs m =>
       if skipped (group 2 m) then fs
       else dict_set (group 2 m) (function_entry ir m) fs)
    (finditer func_pattern ir) [].

(** The string-constant pattern: an at sign, group 1 (\w+), \s*=\s*,
    a lazy run of any characters (.*?), the letter c, a double quote,
    group 2 holding any run of characters other than the double quote,
    a double quote. *)
Definition string_pattern : re :=
  seqs [ Lit (s2l "@"); Group 1 (Plus is_word); Star is_space;
         Lit (s2l "="); Star is_space; StarLazy is_dot;
         Lit [ch "c"; 34%N]; Group 2 (Star (fun c => negb (c =? 34)%N));
         Lit [34%N] ].

Definition _extract_strings (ir : str) : dict str :=
  fold_left
    (fun ss m =>
       let encoded := group 2 m in
       dict_set (group 1 m) (try_except (codecs_decode encoded) encoded) ss)
    (finditer string_pattern ir) [].

(** ^\d+$ at the start of the value *)
Definition integer_pattern : re := seqs [ Plus is_digit; Eos ].

Definition _simplify_value (val : str) : str :=
  let val := strip val in
  match match_here integer_pattern 0 true val with
  | Some _ => val
  | None =>
      if startswith (s2l "%") val then
        if 1 <? length val then skipn 1 val else s2l "var"
      else if startswith (s2l "@") val then
        if 1 <? length val then skipn 1 val else s2l "global"
      else firstn 20 val
  end.

Definition _simplify_args (args : str) : str :=
  if negb (LLVMIRParser.nonempty (strip args)) then []
  else
    let args_list := split_on (ch ",") args in
    let simplified :=
      map (fun arg => _simplify_value (strip arg)) (firstn 5 args_list) in
    let simplified :=
      if 5 <? length args_list then simplified ++ [s2l "..."]
      else simplified in
    join (s2l ", ") simplified.

(** \(([^)]*
    )\)           (one pattern, broken over two lines) *)
Definition args_pattern : re :=
  seqs [ Lit (s2l "("); Group 1 (Star (is_not ")")); Lit (s2l ")") ].

(** op\s+(.+?),\s*(.+)  for a literal [op] *)
Definition binop_pattern (op : str) : re :=
  seqs [ Lit op; Plus is_space; Group 1 (PlusLazy is_dot); Lit (s2l ",");
         Star is_space; Group 2 (Plus is_dot) ].

Definition ret_rule (instr : str) : option (option str) :=
  if contains (s2l "ret") instr then
    match re_search ret_pattern instr with
    | Some m =>
        let val := strip (group 1 m) in
        if contains (s2l "void") val || negb (LLVMIRParser.nonempty val)
           || str_eqb val (s2l "undef")
        then Some (Some (s2l "return;"))
        else Some (Some (s2l "return " ++ _simplify_value val ++ s2l ";"))
    | None => None
    end
  else None.

Definition call_rule (instr : str) : option (option str) :=
  if contains (s2l "call") instr then
    match re_search call_pattern instr with
    | Some m =>
        let func := group 1 m in
        if startswith (s2l "llvm.") func then Some None
        else
          match re_search args_pattern instr with
          | Some args_match =>
              Some (Some (func ++ s2l "("
                          ++ _simplify_args (group 1 args_match)
                          ++ s2l ");"))
          | None => Some (Some (func ++ s2l "();"))
          end
    | None => None
    end
  else None.

(** [for op, symbol in table: if op in instr: ... return] *)
Fixpoint binop_rule (table : list (string * string)) (instr : str)
    : option (option str) :=
  match table with
  | [] => None
  | (op, symbol) :: table' =>
      let next := binop_rule table' instr in
      if contains (s2l op) instr then
        match re_search (binop_pattern (s2l op)) instr with
        | Some m =>
            let left := _simplify_value (group 1 m) in
            let right := _simplify_value (group 2 m) in
            Some (Some (s2l "// " ++ left ++ s2l " " ++ s2l symbol
                        ++ s2l " " ++ right))
        | None => next
        end
      else next
  end.

Definition arith_table : list (string * string) :=
  [ ("add", "+"); ("sub", "-"); ("mul", "*"); ("udiv", "/");
    ("sdiv", "/") ]%string.

Definition cmp_table : list (string * string) :=
  [ ("icmp eq", "=="); ("icmp ne", "!="); ("icmp ult", "<");
    ("icmp ugt", ">") ]%string.

Definition _convert_instruction (instr : str) : option str :=
  let instr := re_sub_empty assign_pattern instr in
  match ret_rule instr with
  | Some r => r
  | None =>
  match call_rule instr with
  | Some r => r
  | None =>
  match binop_rule arith_table instr with
  | Some r => r
  | None =>
  match binop_rule cmp_table instr with
  | Some r => r
  | None =>
      if contains (s2l "br") instr then Some (s2l "// branch")
      else if contains (s2l "load") instr || contains (s2l "store") instr
      then Some (s2l "// memory operation")
      else if contains (s2l "alloca") instr
      then Some (s2l "// local variable")
      else None
  end end end end.

(** (\d+):\s*\n *)
Definition block_pattern : re :=
  seqs [ Group 1 (Plus is_digit); Lit (s2l ":"); Star is_space;
         Lit [10%N] ].

(** The lines one piece of the split body contributes. *)
Definition block_lines (block : str) : list str :=
  if isdigit (strip block)
  then [s2l "// Basic block " ++ block ++ s2l ":"]
  else
    flat_map
      (fun instr =>
         let instr := strip instr in
         if negb (LLVMIRParser.nonempty instr)
            || startswith (s2l ";") instr
         then []
         else
           let c_instr := _convert_instruction instr in
           match c_instr with
           | Some c => if truthy c_instr then [c] else []
           | None => []
           end)
      (split_on 10%N block).

(** The list before the final [lines[:30]]. *)
Definition body_lines (body : str) : list str :=
  flat_map block_lines (re_split1 block_pattern body).

Definition _decompile_body (body : str) : list str :=
  firstn 30 (body_lines body).

(** The pattern of [_extract_globals], here broken over two lines:
      @(\w+)\s*=\s*(?:internal\s+)?(?:private\s+)?
      (?:unnamed_addr\s+)?(?:global|constant)\s+([^,]+)               *)
Definition global_pattern : re :=
  seqs [ Lit (s2l "@"); Group 1 (Plus is_word); Star is_space;
         Lit (s2l "="); Star is_space;
         Opt (Seq (Lit (s2l "internal")) (Plus is_space));
         Opt (Seq (Lit (s2l "private")) (Plus is_space));
         Opt (Seq (Lit (s2l "unnamed_addr")) (Plus is_space));
         Alt (Lit (s2l "global")) (Lit (s2l "constant"));
         Plus is_space; Group 2 (Plus (is_not ",")) ].

Definition _extract_globals (ir : str) : dict str :=
  fold_left
    (fun gs m => dict_set (group 1 m) (strip (group 2 m)) gs)
    (finditer global_pattern ir) [].

Definition _parse_params (params_str : str) : list str :=
  if negb (LLVMIRParser.nonempty (strip params_str)) then []
  else
    map strip
      (filter (fun p => LLVMIRParser.nonempty (strip p))
         (split_on (ch ",") params_str)).

Definition type_map : list (string * string) :=
  [ ("i32", "int"); ("i64", "long long"); ("i8", "char"); ("i16", "short");
    ("void", "void"); ("float", "float"); ("double", "double");
    ("i1", "bool") ]%string.

Definition _llvm_to_c_type (llvm_type : str) : str :=
  let llvm_type := strip llvm_type in
  match CDecompiler.first_type type_map llvm_type with
  | Some c => c
  | None =>
      if contains (s2l "ptr") llvm_type || contains (s2l "*") llvm_type
      then s2l "void*"
      else s2l "int"
  end.

(** One parameter of the signature: the type of its first word, then its
    last word, or [arg] when it has one word only. *)
Definition render_param (p : str) : str :=
  _llvm_to_c_type (hd [] (split_ws p)) ++ s2l " "
  ++ (if 1 <? length (split_ws p) then last (split_ws p) []
      else s2l "arg").

(** The lines [_decompile_function] joins with newlines. *)
Definition function_lines (func_info : func_entry) : list str :=
  let return_type := _llvm_to_c_type (fe_return_type func_info) in
  let params := _parse_params (fe_params func_info) in
  let param_str :=
    join (s2l ", ")
      (map render_param
         (filter (fun p => LLVMIRParser.nonempty (strip p)) params)) in
  [return_type ++ s2l " " ++ fe_name func_info ++ s2l "(" ++ param_str
   ++ s2l ") {"]
  ++ map (fun line => s2l "    " ++ line) (_decompile_body (fe_body func_info))
  ++ [s2l "}"].

Definition _decompile_function (func_info : func_entry) : str :=
  join [10%N] (function_lines func_info).

(** The escaping applied to a string constant before it is printed:
    backslashes doubled, then double quotes and newlines escaped. *)
Definition c_escape (value : str) : str :=
  replace_char 10%N (s2l "\n")
    (replace_char 34%N [92%N; 34%N]
       (replace_char 92%N [92%N; 92%N] value)).

Definition global_lines (globals : dict str) : list str :=
  match globals with
  | [] => []
  | _ =>
      [s2l "// Global variables"]
      ++ map (fun kv => s2l "// " ++ fst kv ++ s2l " = " ++ snd kv) globals
      ++ [[]]
  end.

Definition string_lines (strings : dict str) : list str :=
  match strings with
  | [] => []
  | _ =>
      [s2l "// String constants"]
      ++ map (fun kv =>
                s2l "// const char* " ++ fst kv ++ s2l " = " ++ [34%N]
                ++ c_escape (snd kv) ++ [34%N] ++ s2l ";")
           strings
      ++ [[]]
  end.

(** The lines [_generate_c_code] joins with newlines. *)
Definition c_code_lines (strings globals : dict str)
    (functions : dict func_entry) : list str :=
  [ s2l "// Decompiled C code from obfuscated LLVM IR";
    s2l "// Note: This is an approximation - exact reconstruction may not be possible";
    [];
    s2l "#include <stdio.h>";
    s2l "#include <stdlib.h>";
    [] ]
  ++ global_lines globals
  ++ string_lines strings
  ++ flat_map (fun kv => [_decompile_function (snd kv); []]) functions.

Definition _generate_c_code (strings globals : dict str)
    (functions : dict func_entry) : str :=
  join [10%N] (c_code_lines strings globals functions).

Definition convert (ir : str) : str :=
  _generate_c_code (_extract_strings ir) (_extract_globals ir)
    (_extract_functions ir).
End Converter.
End IRToCConverter.

Module ReportGenerator.
Section Generator.
Context {U : UnicodeDB}.

Definition _escape_html (text : str) : str :=
  replace_char 39%N (s2l "&#39;")
    (replace_char 34%N (s2l "&quot;")
       (replace_char (ch ">") (s2l "&gt;")
          (replace_char (ch "<") (s2l "&lt;")
             (replace_char (ch "&") (s2l "&amp;") text)))).

(** The entries both listings of the report go through: those whose
    name does not begin with two underscores. *)
Definition shown (functions : dict FunctionInfo) : dict FunctionInfo :=
  filter (fun kv => negb (startswith (s2l "__") (fst kv))) functions.

(** [obfuscated_ir] is the text of the listing, read once more. *)
Definition _generate_decompiled_code (functions : dict FunctionInfo)
    (obfuscated_ir : str) : str :=
  let lines :=
    flat_map (fun kv => [CDecompiler.decompile_function (snd kv); []])
      (shown functions) in
  match lines with
  | [] =>
      join [10%N] (firstn 50 (split_on 10%N obfuscated_ir))
      ++ [10%N; 10%N] ++ s2l "// ... (truncated for display) ..."
  | _ => join [10%N] lines
  end.

Definition technique (text : string) : str :=
  s2l "<div class=" ++ [34%N] ++ s2l "technique" ++ [34%N] ++ s2l ">"
  ++ s2l text ++ s2l "</div>".

(** [if patterns.get(key, 0) > 0: techniques.append(...)] *)
Definition listed (key : string) (text : string) (patterns : dict nat)
    : list str :=
  if 0 <? dict_get_default (s2l key) 0 patterns then [technique text]
  else [].

(** The entry appended when the list is still empty. *)
Definition basic_technique : str :=
  technique
    "Basic obfuscation techniques applied (instruction substitution, variable renaming)".

Definition techniques (patterns : dict nat) : list str :=
  let found :=
    listed "string_encryption"
      "<strong>String Encryption:</strong> Strings are encrypted at compile time and decrypted at runtime"
      patterns
    ++ listed "opaque_predicates"
         "<strong>Opaque Predicates:</strong> Conditional branches with always-true/false conditions to confuse analysis"
         patterns
    ++ listed "bogus_code"
         "<strong>Bogus Code:</strong> Dead code blocks inserted to mislead reverse engineers"
         patterns
    ++ listed "fake_loops"
         "<strong>Fake Loops:</strong> Loops that never execute to add complexity"
         patterns
    ++ listed "virtualization"
         "<strong>Code Virtualization:</strong> Functions converted to bytecode interpreted by a virtual machine"
         patterns
    ++ listed "control_flow"
         "<strong>Control Flow Flattening:</strong> Control flow restructured using switch-based dispatchers"
         patterns in
  match found with
  | [] => [basic_technique]
  | _ => found
  end.

Definition _generate_techniques_list (patterns : dict nat) : str :=
  join [10%N] (techniques patterns).

(** The four list elements appended for one function. *)
Definition complexity_entry (kv : str * FunctionInfo) : list str :=
  [ [10%N] ++ s2l "Function: " ++ fst kv;
    s2l "  - Basic Blocks: " ++ str_of_nat (basic_blocks (snd kv));
    s2l "  - Instructions: " ++ str_of_nat (length (instructions (snd kv)));
    s2l "  - Complexity Score: " ++ str_of_nat (complexity (snd kv)) ].

Definition complexity_lines (functions : dict FunctionInfo) : list str :=
  [ s2l "Function Complexity Analysis:"; repeat (ch "=") 50 ]
  ++ flat_map complexity_entry (shown functions).

Definition _generate_complexity_analysis (functions : dict FunctionInfo)
    : str :=
  join [10%N] (complexity_lines functions).
End Generator.
End ReportGenerator.

(** A database with no characters beyond ASCII in any class, for running
    the tools on ASCII listings. *)
#[export] Instance ascii_only : UnicodeDB := {|
  uni_decimal := fun _ => false;
  uni_isdigit := fun _ => false;
  uni_alnum := fun _ => false;
  uni_ci := fun _ _ => false;
  ucd_name := fun _ => None
|}.

(* ================================================================== *)
(** ** Vocabulary of the statements *)

(** The distinct elements of a list of names, in order of first
    appearance: the keys of a dictionary filled in that order. *)
Fixpoint distinct (l : list str) : list str :=
  match l with
  | [] => []
  | x :: l' => x :: filter (fun y => negb (str_eqb y x)) (distinct l')
  end.

(** The last element of a list, in list order, whose key is [n]. *)
Fixpoint last_by {A} (key : A -> str) (n : str) (ms : list A) : option A :=
  match ms with
  | [] => None
  | m :: ms' =>
      match last_by key n ms' with
      | Some m' => Some m'
      | None => if str_eqb (key m) n then Some m else None
      end
  end.

(** The last header match in text order that declares [n]. *)
Definition last_named (n : str) (ms : list rmatched) : option rmatched :=
  last_by (group 2) n ms.

(** The texts a pattern can cover, with the groups it then captures
    (most recent first).  Anchors cover nothing. *)
Inductive lang : re -> str -> list (nat * str) -> Prop :=
| L_eps : lang Eps [] []
| L_chr p c : p c = true -> lang (Chr p) [c] []
| L_seq a b w1 w2 c1 c2 :
    lang a w1 c1 -> lang b w2 c2 -> lang (Seq a b) (w1 ++ w2) (c2 ++ c1)
| L_alt_l a b w c : lang a w c -> lang (Alt a b) w c
| L_alt_r a b w c : lang b w c -> lang (Alt a b) w c
| L_star p w : forallb p w = true -> lang (Star p) w []
| L_star_lazy p w : forallb p w = true -> lang (StarLazy p) w []
| L_group n a w c : lang a w c -> lang (Group n a) w ((n, w) :: c)
| L_bol : lang Bol [] []
| L_eos : lang Eos [] [].

(** The matcher state after the characters of [w] have been consumed. *)
Fixpoint run (w : str) (st : mstate) : mstate :=
  match w with
  | [] => st
  | c :: w' => run w' (advance c (tl (m_rest st)) st)
  end.

(** Whether the offset after [w] is a line start. *)
Fixpoint bol_after (bol : bool) (w : str) : bool :=
  match w with
  | [] => bol
  | c :: w' => bol_after (c =? 10)%N w'
  end.

(** The length of the longest prefix of [s] whose characters all
    satisfy [p]. *)
Fixpoint prefix_len (p : char -> bool) (s : str) : nat :=
  match s with
  | c :: s' => if p c then S (prefix_len p s') else 0
  | [] => 0
  end.

(** The continuation that closes a match begun at [pos0]. *)
Definition finish (pos0 : nat) : mstate -> option rmatched :=
  fun st => Some (RMatched pos0 (m_pos st) (m_caps st)).

(** The number of offsets of [s] at which [p] occurs. *)
Fixpoint occurrences (p s : str) : nat :=
  (if startswith p s then 1 else 0)
  + match s with [] => 0 | _ :: s' => occurrences p s' end.

(** The words whose presence in a line selects one of the lowering
    rules on which the two tools differ. *)
Definition lowering_keywords : list string :=
  [ "ret"; "call"; "add"; "sub"; "mul"; "udiv"; "sdiv"; "icmp eq";
    "icmp ne"; "icmp ult"; "icmp ugt"; "br"; "alloca" ]%string.

Definition keyword_free (instr : str) : bool :=
  forallb (fun k => negb (contains (s2l k) instr)) lowering_keywords.

(** A text given line by line. *)
Definition unlines (ls : list string) : str := join [10%N] (map s2l ls).

(** A dictionary filled from a list, one assignment per element. *)
Definition fill {A V} (key : A -> str) (build : A -> V) (d : dict V)
    (ms : list A) : dict V :=
  fold_left (fun fs m => dict_set (key m) (build m) fs) ms d.

(** The number of entries a dictionary holds under the key [n]. *)
Definition entries_under {V} (n : str) (d : dict V) : nat :=
  length (filter (fun kv => str_eqb (fst kv) n) d).

(** Every character is ASCII. *)
Definition is_ascii (s : str) : bool := forallb (fun c => (c <? 128)%N) s.

(** The payload holds no backslash, hence no escape sequence. *)
Definition escape_free (s : str) : bool :=
  forallb (fun c => negb (c =? 92)%N) s.

(** The number of braces open inside a body after [s] has been read,
    [d] of them being open before it; [None] when a closing brace of
    [s] closes the function itself. *)
Fixpoint depth_after (d : nat) (s : str) : option nat :=
  match s with
  | [] => Some d
  | c :: s' =>
      if (c =? ch "{")%N then depth_after (S d) s'
      else if (c =? ch "}")%N then
        match d with
        | 0 => None
        | S d' => depth_after d' s'
        end
      else depth_after d s'
  end.

(** Whether a pattern matches somewhere in the text. *)
Definition found_by (p : re) (content : str) : bool :=
  match re_search p content with Some _ => true | None => false end.

Section ToolVocabulary.
Context {U : UnicodeDB}.

(** The six marker patterns, in the order in which they are tried. *)
Definition marker_patterns : list re :=
  [ LLVMIRParser.key_pattern; LLVMIRParser.opaque_pattern;
    LLVMIRParser.bogus_pattern; LLVMIRParser.fake_pattern;
    LLVMIRParser.vm_pattern; LLVMIRParser.flow_pattern ].

(** The name the report keeps of one trimmed parameter: the first
    percent sign followed by word characters, or the whole parameter when
    it has none. *)
Definition param_name (param : str) : str :=
  match re_search LLVMIRParser.param_name_pattern param with
  | Some m => matched_text param m
  | None => param
  end.
End ToolVocabulary.

(** The entity the report writes for one character of a text. *)
Definition html_entity (c : char) : str :=
  if (c =? ch "&")%N then s2l "&amp;"
  else if (c =? ch "<")%N then s2l "&lt;"
  else if (c =? ch ">")%N then s2l "&gt;"
  else if (c =? 34)%N then s2l "&quot;"
  else if (c =? 39)%N then s2l "&#39;"
  else [c].

(** The characters that have a meaning of their own in markup and in
    attribute values. *)
Definition markup_char (c : char) : bool :=
  ((c =? ch "<") || (c =? ch ">") || (c =? 34) || (c =? 39))%N.

(** What the converter writes for one character of a string constant. *)
Definition c_entity (c : char) : str :=
  if (c =? 92)%N then [92%N; 92%N]
  else if (c =? 34)%N then [92%N; 34%N]
  else if (c =? 10)%N then [92%N; ch "n"]
  else [c].

(** The type names the two tools write. *)
Definition c_types : list str :=
  map s2l [ "int"; "long"; "long long"; "char"; "short"; "void"; "float";
            "double"; "bool"; "void*" ]%string.

(** Whether a lowering produced a line at all. *)
Definition lowered (o : option str) : bool :=
  match o with Some _ => true | None => false end.

(** A non-empty text with no whitespace in it and no at sign. *)
Definition plain_word (s : str) : bool :=
  match s with
  | [] => false
  | _ => forallb (fun c => negb (is_space c) && is_not "@" c) s
  end.

(** The text of a function header with single blanks: the word define,
    the return type, the name, the parameter text in parentheses and the
    opening brace. *)
Definition header_text (ty fname ps : str) : str :=
  s2l "define " ++ ty ++ s2l " @" ++ fname ++ s2l "(" ++ ps ++ s2l ") {".

(** Whether the text goes on, after optional whitespace, with an opening
    brace. *)
Definition brace_after_blanks (s : str) : bool :=
  match lstrip s with
  | c :: _ => (c =? ch "{")%N
  | [] => false
  end.

(** Whether some closing parenthesis of the text is followed, after
    optional whitespace, by an opening brace. *)
Fixpoint has_header_end (s : str) : bool :=
  match s with
  | [] => false
  | c :: s' => (c =? ch ")")%N && brace_after_blanks s' || has_header_end s'
  end.

(** The number of times a character occurs in a text. *)
Definition count_of (x : char) (s : str) : nat :=
  length (filter (N.eqb x) s).

(** The brace depth after the text [s], read from just behind a header's
    opening brace: one, plus the braces [s] opens, minus the braces it
    closes. *)
Definition depth_of (s : str) : Z :=
  (1 + Z.of_nat (count_of (ch "{") s) - Z.of_nat (count_of (ch "}") s))%Z.

Section LineVocabulary.
Context {U : UnicodeDB}.

(** Whether a text begins, after optional whitespace, with an integer and
    a colon.  On a line of a body: whether it is a block-label line. *)
Definition is_label_line (line : str) : bool :=
  let t := lstrip line in
  let n := prefix_len is_digit t in
  (0 <? n) && startswith (s2l ":") (skipn n t).

(** B: the number of block-label lines of a body. *)
Definition label_lines (body : str) : nat :=
  length (filter is_label_line (split_on 10%N body)).

(** No character of the text is at once a decimal digit and whitespace
    (no character of the Unicode database is). *)
Definition digits_apart (s : str) : bool :=
  forallb (fun c => negb (is_digit c && is_space c)) s.

(** The length of the text a label match covers: the whitespace, the
    digits and the colon. *)
Definition label_len (T : str) : nat :=
  prefix_len is_space T + prefix_len is_digit (lstrip T) + 1.
End LineVocabulary.

(** The text of a line before its first semicolon. *)
Definition code_part (line : str) : str :=
  firstn (prefix_len (is_not ";") line) line.

(** Whether a line has something other than whitespace before its first
    semicolon: it is neither blank nor a comment line. *)
Definition is_code_line (line : str) : bool :=
  LLVMIRParser.nonempty (strip (code_part line)).

(** Every line of the text is blank or holds a semicolon. *)
Definition every_line_commented (body : str) : bool :=
  forallb (fun l => forallb is_space l || negb (forallb (is_not ";") l))
    (split_on 10%N body).

Section InstructionVocabulary.
Context {U : UnicodeDB}.

(** N: the number of lines of a body that are neither blank, nor comment,
    nor label lines. *)
Definition instruction_lines (body : str) : nat :=
  length (filter (fun l => is_code_line l && negb (is_label_line l))
            (split_on 10%N body)).

(** The number of entries the instruction list gets from the matches
    found in [rest], when [rest] follows [pre] in the body. *)
Definition kept_from (pre : str) (bol : bool) (rest : str) : nat :=
  length
    (filter
       (fun i => LLVMIRParser.nonempty (strip i)
                 && negb (startswith (s2l ";") (strip i)))
       (map (matched_text (pre ++ rest))
          (finditer_from LLVMIRParser.instruction_pattern 0 (length pre) bol
             rest))).
End InstructionVocabulary.

(* ================================================================== *)
(** * Properties *)

(** ** Strings *)

Lemma str_eqb_eq (a b : str) : str_eqb a b = true <-> a = b.
Proof.
  revert b; induction a as [|x a IH]; destruct b as [|y b]; simpl;
    try (split; [discriminate | discriminate]); try tauto.
  rewrite andb_true_iff, N.eqb_eq, IH.
  split; [intros [-> ->]; reflexivity | intros H; inversion H; auto].
Qed.

Lemma str_eqb_refl (a : str) : str_eqb a a = true.
Proof. apply str_eqb_eq; reflexivity. Qed.

Lemma str_eqb_neq (a b : str) : str_eqb a b = false <-> a <> b.
Proof.
  rewrite <- str_eqb_eq. destruct (str_eqb a b); split; congruence.
Qed.

Lemma str_eqb_sym (a b : str) : str_eqb a b = str_eqb b a.
Proof.
  destruct (str_eqb a b) eqn:E.
  - apply str_eqb_eq in E; subst; symmetry; apply str_eqb_refl.
  - symmetry; apply str_eqb_neq; apply str_eqb_neq in E; congruence.
Qed.

Lemma startswith_prefix (p s : str) :
  startswith p s = true -> exists t, s = p ++ t.
Proof.
  revert s; induction p as [|x p IH]; intros s H; simpl in *.
  - exists s; reflexivity.
  - destruct s as [|y s]; [discriminate|].
    apply andb_true_iff in H as [Hxy H]. apply N.eqb_eq in Hxy; subst y.
    destruct (IH _ H) as [t ->]. exists t; reflexivity.
Qed.

(** ** The brace-depth scan *)

Lemma brace_body_advances (content : str) (st : nat * Z) :
  fst (brace_body content st) = S (fst st).
Proof. unfold brace_body; simpl; lia. Qed.

Lemma brace_body_depth (content : str) (st : nat * Z) :
  (0 < snd st -> 0 <= snd (brace_body content st))%Z.
Proof.
  unfold brace_body; simpl; intros H.
  repeat match goal with |- context [if ?b then _ else _] => destruct b end;
    lia.
Qed.

Lemma while_brace (content : str) (fuel : nat) :
  forall st, length content - fst st < fuel -> (0 <= snd st)%Z ->
  exists steps,
    steps <= length content - fst st /\
    while_loop fuel (brace_cond content) (brace_body content) st
      = Some (Nat.iter steps (brace_body content) st) /\
    fst (Nat.iter steps (brace_body content) st) = fst st + steps /\
    (snd (Nat.iter steps (brace_body content) st) = 0%Z
     \/ length content <= fst (Nat.iter steps (brace_body content) st)).
Proof.
  induction fuel as [|fuel IH]; intros st Hfuel Hdepth; [lia|].
  simpl. destruct (brace_cond content st) eqn:Hc.
  - unfold brace_cond in Hc. apply andb_true_iff in Hc as [Hlt Hpos].
    apply Nat.ltb_lt in Hlt. apply Z.ltb_lt in Hpos.
    destruct (IH (brace_body content st)) as (n & Hn & Hrun & Hfst & Hend).
    + rewrite brace_body_advances. lia.
    + apply brace_body_depth; assumption.
    + rewrite brace_body_advances in *.
      exists (S n). rewrite Nat.iter_succ_r.
      repeat split; try assumption; lia.
  - exists 0. simpl. repeat split; try lia.
    unfold brace_cond in Hc. apply andb_false_iff in Hc as [Hc|Hc].
    + apply Nat.ltb_ge in Hc. right; assumption.
    + apply Z.ltb_ge in Hc. left; lia.
Qed.

Lemma while_loop_some {St} (cond : St -> bool) (body : St -> St) (fuel : nat) :
  forall st st',
    while_loop fuel cond body st = Some st' ->
    exists steps,
      st' = Nat.iter steps body st /\
      (forall j, j < steps -> cond (Nat.iter j body st) = true) /\
      cond st' = false.
Proof.
  induction fuel as [|fuel IH]; intros st st' H; [discriminate|].
  cbn [while_loop] in H. destruct (cond st) eqn:Hc.
  - apply IH in H as (n & Hn & Hj & Hend). exists (S n).
    rewrite Nat.iter_succ_r. split; [exact Hn|]. split; [|exact Hend].
    intros [|j] Hlt; [exact Hc|]. rewrite Nat.iter_succ_r. apply Hj. lia.
  - injection H as <-. exists 0. split; [reflexivity|].
    split; [intros j Hj; lia | exact Hc].
Qed.

Lemma count_of_last (x c : char) (w : str) :
  count_of x (w ++ [c]) = count_of x w + (if (x =? c)%N then 1 else 0).
Proof.
  unfold count_of. rewrite filter_app, length_app. cbn [filter].
  destruct (x =? c)%N; reflexivity.
Qed.

Lemma firstn_succ_nth (j : nat) (s : str) :
  j < length s -> firstn (S j) s = firstn j s ++ [nth j s 0%N].
Proof.
  revert s. induction j as [|j IH]; intros [|c s] H; cbn [length] in H;
    try lia; [reflexivity|].
  cbn [firstn nth app]. rewrite <- IH by lia. reflexivity.
Qed.

Lemma nth_skipn_shift (start j : nat) (s : str) :
  nth j (skipn start s) 0%N = nth (start + j) s 0%N.
Proof.
  revert s. induction start as [|start IH]; intros s; [reflexivity|].
  destruct s as [|c s]; [destruct j; reflexivity|]. apply IH.
Qed.

(** The state after [j] iterations: the position has moved by [j] and the
    depth is the depth after the [j] characters read. *)
Lemma iter_depth (content : str) (start_pos : nat) :
  forall j, j <= length content - start_pos ->
    Nat.iter j (brace_body content) (start_pos, 1%Z)
    = (start_pos + j, depth_of (firstn j (skipn start_pos content))).
Proof.
  induction j as [|j IH]; intros Hj.
  - cbn [Nat.iter firstn]. rewrite Nat.add_0_r. reflexivity.
  - rewrite Nat.iter_succ, IH by lia. unfold brace_body. cbn [fst snd].
    f_equal; [lia|].
    rewrite firstn_succ_nth by (rewrite length_skipn; lia).
    rewrite nth_skipn_shift. unfold depth_of. rewrite !count_of_last.
    rewrite (N.eqb_sym (ch "{")), (N.eqb_sym (ch "}")).
    destruct (N.eqb_spec (nth (start_pos + j) content 0%N) (ch "{")) as [E|E];
      destruct (N.eqb_spec (nth (start_pos + j) content 0%N) (ch "}"))
        as [E'|E']; try lia.
    rewrite E in E'. discriminate E'.
Qed.

(** C9. On every text and from every start offset the scan returns,
    after at most [length content - start_pos] iterations, each of which
    moves the position forward by one.  The depth it holds is one, plus
    the braces opened, minus the braces closed in the characters read;
    before each iteration that depth was positive, so the scan stops at
    the first offset at which the depth is back to zero, or else at the
    end of the text. *)
Theorem brace_scan_terminates (content : str) (start_pos : nat) :
  exists steps end_pos depth,
    brace_scan content start_pos = Some (end_pos, depth) /\
    Nat.iter steps (brace_body content) (start_pos, 1%Z) = (end_pos, depth) /\
    steps <= length content - start_pos /\
    end_pos = start_pos + steps /\
    (forall st, fst (brace_body content st) = S (fst st)) /\
    depth = depth_of (firstn steps (skipn start_pos content)) /\
    (forall j, j < steps ->
       (0 < depth_of (firstn j (skipn start_pos content)))%Z) /\
    (depth = 0%Z \/ length content <= end_pos).
Proof.
  destruct (@while_brace content (S (length content - start_pos))
              (start_pos, 1%Z)) as (n0 & _ & Hrun & _);
    [cbn [fst]; lia | cbn [snd]; lia |].
  fold (brace_scan content start_pos) in Hrun.
  pose proof Hrun as Hsome.
  apply while_loop_some in Hsome as (n & Hn & Hbefore & Hend).
  assert (Hpos : forall j, j < n -> start_pos + j < length content).
  { intros j Hj. specialize (Hbefore j Hj). unfold brace_cond in Hbefore.
    apply andb_true_iff in Hbefore as [Hlt _]. apply Nat.ltb_lt in Hlt.
    assert (F : forall i, fst (Nat.iter i (brace_body content)
                                 (start_pos, 1%Z)) = start_pos + i).
    { induction i as [|i IHi]; [cbn; lia|].
      rewrite Nat.iter_succ, brace_body_advances, IHi. lia. }
    rewrite F in Hlt. exact Hlt. }
  assert (Hle : n <= length content - start_pos).
  { destruct n as [|n']; [lia|]. specialize (Hpos n'). lia. }
  rewrite Hn in Hend, Hrun. rewrite Hrun. clear n0 Hn Hrun.
  exists n, (start_pos + n),
    (depth_of (firstn n (skipn start_pos content))).
  rewrite iter_depth in * by exact Hle.
  split; [reflexivity|]. split; [reflexivity|]. split; [exact Hle|].
  split; [reflexivity|]. split; [apply brace_body_advances|].
  split; [reflexivity|].
  assert (Hdepth : forall j, j < n ->
            (0 < depth_of (firstn j (skipn start_pos content)))%Z).
  { intros j Hj. specialize (Hbefore j Hj).
    rewrite iter_depth in Hbefore by lia. unfold brace_cond in Hbefore.
    apply andb_true_iff in Hbefore as [_ Hd]. apply Z.ltb_lt in Hd.
    exact Hd. }
  split; [exact Hdepth|].
  unfold brace_cond in Hend. cbn [fst snd] in Hend.
  apply andb_false_iff in Hend as [Hend|Hend].
  - right. apply Nat.ltb_ge in Hend. exact Hend.
  - apply Z.ltb_ge in Hend. destruct n as [|n'].
    + cbn in Hend. lia.
    + left. specialize (Hdepth n' (Nat.lt_succ_diag_r n')).
      rewrite firstn_succ_nth in * by (rewrite length_skipn; lia).
      unfold depth_of in *. rewrite !count_of_last in *.
      repeat match goal with
             | H : context [if ?b then _ else _] |- _ => destruct b
             | |- context [if ?b then _ else _] => destruct b
             end; lia.
Qed.

(** ** Decoding string literals *)

Section DecodeProperties.
Context {U : UnicodeDB}.

Lemma utf8_encode_ascii (s : str) :
  is_ascii s = true -> utf8_encode s = Ok s.
Proof.
  induction s as [|c s IH]; simpl; [reflexivity|].
  rewrite andb_true_iff; intros [Hc Hs].
  unfold utf8_encode_char. rewrite Hc, (IH Hs). reflexivity.
Qed.

Lemma unicode_escape_plain (bs : list N) :
  escape_free bs = true -> unicode_escape_decode DNormal bs = Ok bs.
Proof.
  induction bs as [|b bs IH]; simpl; [reflexivity|].
  rewrite andb_true_iff; intros [Hb Hs].
  rewrite Hb, (IH Hs). reflexivity.
Qed.

(** On payloads of ASCII characters without a backslash the decoder
    is the identity. *)
Lemma decode_ascii_escape_free (payload : str) :
  is_ascii payload = true -> escape_free payload = true ->
  LLVMIRParser._decode_string payload = payload.
Proof.
  intros Ha He. unfold LLVMIRParser._decode_string, codecs_decode.
  rewrite (utf8_encode_ascii _ Ha), (unicode_escape_plain _ He).
  reflexivity.
Qed.

(** C7. The payload consisting of the single character U+00E9 holds no
    backslash, yet the decoder returns the two characters U+00C3
    U+00A9: the codec reads the UTF-8 bytes of the text one by one. *)
Theorem decode_escape_free_non_ascii :
  escape_free [233%N] = true /\
  LLVMIRParser._decode_string [233%N] = [195%N; 169%N] /\
  LLVMIRParser._extract_strings (s2l "c" ++ [34%N; 233%N; 34%N])
    = [[195%N; 169%N]].
Proof. repeat split; vm_compute; reflexivity. Qed.

(** C8. Decoding a string literal never raises: whenever the codec
    fails on a payload the raw payload is what the decoder returns, and
    every non-empty payload found in the listing contributes its
    constant, decoded where the codec succeeds and raw where it
    fails. *)
Theorem decode_failure_keeps_raw (content payload : str) (msg : string) :
  codecs_decode payload = Raise msg ->
  LLVMIRParser._decode_string payload = payload /\
  LLVMIRParser._extract_strings content
    = map (fun p => match codecs_decode p with
                    | Ok v => v
                    | Raise _ => p
                    end)
        (filter LLVMIRParser.nonempty
           (findall1 LLVMIRParser.string_pattern content)).
Proof.
  intros Hfail. split.
  - unfold LLVMIRParser._decode_string. rewrite Hfail. reflexivity.
  - unfold LLVMIRParser._extract_strings. apply map_ext.
    intros p. unfold LLVMIRParser._decode_string, try_except.
    destruct (codecs_decode p); reflexivity.
Qed.
End DecodeProperties.

(** A listing with one undecodable literal (a lone trailing backslash)
    between two decodable ones: all three constants are produced. *)
Lemma decode_failure_keeps_raw_witness :
  LLVMIRParser._decode_string (s2l "a\") = s2l "a\" /\
  LLVMIRParser._extract_strings
    (s2l "c" ++ [34%N] ++ s2l "x\n" ++ [34%N] ++ s2l " c" ++ [34%N]
     ++ s2l "a\" ++ [34%N] ++ s2l " c" ++ [34%N] ++ s2l "ok" ++ [34%N])
  = [[ch "x"; 10%N]; s2l "a\"; s2l "ok"].
Proof.
  destruct (@decode_failure_keeps_raw ascii_only
              (s2l "c" ++ [34%N] ++ s2l "x\n" ++ [34%N] ++ s2l " c" ++ [34%N]
               ++ s2l "a\" ++ [34%N] ++ s2l " c" ++ [34%N] ++ s2l "ok"
               ++ [34%N])
              (s2l "a\") "\ at end of string"%string) as [H1 H2].
  - vm_compute. reflexivity.
  - split; [exact H1|]. rewrite H2. vm_compute. reflexivity.
Defined.

(** ** Dictionaries *)

Section DictProperties.
Variable V : Type.
Implicit Types (d : dict V) (k n : str) (v : V).

Lemma dict_get_set_same d k v : dict_get k (dict_set k v d) = Some v.
Proof.
  induction d as [|[k' v'] d IH]; simpl.
  - rewrite str_eqb_refl; reflexivity.
  - destruct (str_eqb k k') eqn:E; simpl.
    + rewrite str_eqb_refl; reflexivity.
    + rewrite E; exact IH.
Qed.

Lemma dict_get_set_other d k n v :
  k <> n -> dict_get n (dict_set k v d) = dict_get n d.
Proof.
  intros Hne. induction d as [|[k' v'] d IH]; simpl.
  - apply not_eq_sym, str_eqb_neq in Hne. rewrite Hne; reflexivity.
  - destruct (str_eqb k k') eqn:E; simpl.
    + apply str_eqb_eq in E; subst k'.
      apply not_eq_sym, str_eqb_neq in Hne. rewrite Hne; reflexivity.
    + rewrite IH; reflexivity.
Qed.

Lemma dict_keys_set d k v :
  dict_keys (dict_set k v d)
  = if existsb (str_eqb k) (dict_keys d) then dict_keys d
    else dict_keys d ++ [k].
Proof.
  induction d as [|[k' v'] d IH]; simpl; [reflexivity|].
  destruct (str_eqb k k') eqn:E; simpl.
  - apply str_eqb_eq in E; subst; reflexivity.
  - unfold dict_keys in *. rewrite IH.
    destruct (existsb _ _); reflexivity.
Qed.
End DictProperties.

Lemma filter_filter_ext {A} (f g h : A -> bool) (l : list A) :
  (forall x, In x l -> g x && f x = h x) ->
  filter f (filter g l) = filter h l.
Proof.
  induction l as [|x l IH]; intros H; simpl; [reflexivity|].
  pose proof (H x (or_introl eq_refl)) as Hx.
  assert (Hl : forall y, In y l -> g y && f y = h y)
    by (intros; apply H; right; assumption).
  destruct (g x); simpl in *.
  - rewrite Hx, (IH Hl). reflexivity.
  - rewrite <- Hx. apply (IH Hl).
Qed.

Section BuildDict.
Variables (A V : Type) (key : A -> str) (build : A -> V).

Lemma fill_keys (ms : list A) : forall d,
  dict_keys (fill key build d ms)
  = dict_keys d
    ++ filter (fun y => negb (existsb (str_eqb y) (dict_keys d)))
         (distinct (map key ms)).
Proof.
  induction ms as [|m ms IH]; intros d; simpl.
  - rewrite app_nil_r; reflexivity.
  - unfold fill in *; simpl. rewrite IH, dict_keys_set.
    destruct (existsb (str_eqb (key m)) (dict_keys d)) eqn:E; simpl.
    + f_equal. symmetry. apply filter_filter_ext.
      intros y _. destruct (str_eqb y (key m)) eqn:Ey; simpl;
        [|reflexivity].
      apply str_eqb_eq in Ey; subst y. rewrite E; reflexivity.
    + rewrite <- app_assoc; simpl. do 2 f_equal.
      symmetry. apply filter_filter_ext.
      intros y _. rewrite existsb_app; simpl. rewrite orb_false_r.
      rewrite negb_orb, andb_comm. reflexivity.
Qed.

Lemma fill_get (n : str) (ms : list A) : forall d,
  dict_get n (fill key build d ms)
  = match last_by key n ms with
    | Some m => Some (build m)
    | None => dict_get n d
    end.
Proof.
  induction ms as [|m ms IH]; intros d; simpl; [reflexivity|].
  unfold fill in *; simpl. rewrite IH.
  destruct (last_by key n ms); [reflexivity|].
  destruct (str_eqb (key m) n) eqn:E.
  - apply str_eqb_eq in E; subst n. apply dict_get_set_same.
  - apply dict_get_set_other. apply str_eqb_neq; assumption.
Qed.

Lemma last_by_filter (P : str -> bool) (n : str) (ms : list A) :
  P n = true ->
  last_by key n (filter (fun m => P (key m)) ms) = last_by key n ms.
Proof.
  intros HP. induction ms as [|m ms IH]; simpl; [reflexivity|].
  destruct (P (key m)) eqn:E; simpl; rewrite IH; [reflexivity|].
  destruct (last_by key n ms); [reflexivity|].
  destruct (str_eqb (key m) n) eqn:En; [|reflexivity].
  apply str_eqb_eq in En; congruence.
Qed.

Lemma last_by_In (n : str) (ms : list A) (m : A) :
  last_by key n ms = Some m -> In m ms /\ key m = n.
Proof.
  induction ms as [|x ms IH]; simpl; [discriminate|].
  destruct (last_by key n ms) as [m'|].
  - intros H; inversion H; subst. destruct IH as [? ?]; auto.
  - destruct (str_eqb (key x) n) eqn:E; [|discriminate].
    intros H; inversion H; subst. apply str_eqb_eq in E; auto.
Qed.

Lemma fill_skip (P : str -> bool) (ms : list A) : forall d,
  fold_left
    (fun fs m => if P (key m) then fs else dict_set (key m) (build m) fs)
    ms d
  = fill key build d (filter (fun m => negb (P (key m))) ms).
Proof.
  induction ms as [|m ms IH]; intros d; simpl; [reflexivity|].
  destruct (P (key m)); simpl; apply IH.
Qed.
End BuildDict.

Lemma distinct_one (n : str) (l : list str) :
  In n l -> length (filter (fun y => str_eqb y n) (distinct l)) = 1.
Proof.
  induction l as [|x l IH]; simpl; [tauto|].
  destruct (str_eqb x n) eqn:E; simpl.
  - intros _. apply str_eqb_eq in E; subst x.
    rewrite (@filter_filter_ext _ _ _ (fun _ => false)).
    + clear. induction (distinct l); simpl; auto.
    + intros y _. destruct (str_eqb y n); reflexivity.
  - intros [->|Hin]; [rewrite str_eqb_refl in E; discriminate|].
    rewrite (@filter_filter_ext _ _ _ (fun y => str_eqb y n)).
    + apply IH; assumption.
    + intros y _. destruct (str_eqb y n) eqn:Ey;
        [|rewrite andb_false_r; reflexivity].
      apply str_eqb_eq in Ey; subst y. rewrite str_eqb_sym, E; reflexivity.
Qed.

Lemma entries_under_keys {V} (n : str) (d : dict V) :
  entries_under n d
  = length (filter (fun y => str_eqb y n) (dict_keys d)).
Proof.
  unfold entries_under, dict_keys.
  induction d as [|[k v] d IH]; simpl; [reflexivity|].
  destruct (str_eqb k n); simpl; rewrite IH; reflexivity.
Qed.

Lemma filter_true {A} (l : list A) : filter (fun _ => true) l = l.
Proof. induction l; simpl; congruence. Qed.

Lemma distinct_filter (P : str -> bool) (l : list str) :
  distinct (filter P l) = filter P (distinct l).
Proof.
  induction l as [|x l IH]; simpl; [reflexivity|].
  destruct (P x) eqn:E; simpl; rewrite ?E, IH.
  - f_equal.
    rewrite (@filter_filter_ext _ _ _
               (fun y => P y && negb (str_eqb y x)));
      [|reflexivity].
    symmetry. apply filter_filter_ext. intros y _. apply andb_comm.
  - symmetry. apply filter_filter_ext. intros y _.
    destruct (str_eqb y x) eqn:Ey; simpl; [|reflexivity].
    apply str_eqb_eq in Ey; subst y. symmetry; assumption.
Qed.

Lemma map_filter_key {A} (key : A -> str) (P : str -> bool) (ms : list A) :
  map key (filter (fun m => P (key m)) ms) = filter P (map key ms).
Proof.
  induction ms as [|m ms IH]; simpl; [reflexivity|].
  destruct (P (key m)); simpl; rewrite IH; reflexivity.
Qed.

Lemma fill_keys_empty {A V} (key : A -> str) (build : A -> V) (ms : list A) :
  dict_keys (fill key build [] ms) = distinct (map key ms).
Proof. rewrite fill_keys. simpl. apply filter_true. Qed.

(** ** The function collections of the two tools *)

Section Collections.
Context {U : UnicodeDB}.

Lemma report_functions_fill (content : str) :
  LLVMIRParser._extract_functions content
  = fill (group 2) (LLVMIRParser.function_info content) []
      (finditer func_pattern content).
Proof. reflexivity. Qed.

Lemma converter_functions_fill (ir : str) :
  IRToCConverter._extract_functions ir
  = fill (group 2) (IRToCConverter.function_entry ir) []
      (filter (fun m => negb (IRToCConverter.skipped (group 2 m)))
         (finditer func_pattern ir)).
Proof.
  unfold IRToCConverter._extract_functions.
  apply (fill_skip (group 2) (IRToCConverter.function_entry ir)
           IRToCConverter.skipped).
Qed.

Lemma report_keys (content : str) :
  dict_keys (LLVMIRParser._extract_functions content)
  = distinct (map (group 2) (finditer func_pattern content)).
Proof. rewrite report_functions_fill. apply fill_keys_empty. Qed.

Lemma converter_keys (ir : str) :
  dict_keys (IRToCConverter._extract_functions ir)
  = filter (fun n => negb (IRToCConverter.skipped n))
      (dict_keys (LLVMIRParser._extract_functions ir)).
Proof.
  rewrite converter_functions_fill, fill_keys_empty, report_keys.
  rewrite (map_filter_key (group 2)
             (fun n => negb (IRToCConverter.skipped n))).
  apply distinct_filter.
Qed.

Lemma report_get (content n : str) :
  dict_get n (LLVMIRParser._extract_functions content)
  = option_map (LLVMIRParser.function_info content)
      (last_named n (finditer func_pattern content)).
Proof.
  rewrite report_functions_fill, fill_get. unfold last_named.
  destruct (last_by _ _ _); reflexivity.
Qed.

Lemma converter_get (ir n : str) :
  dict_get n (IRToCConverter._extract_functions ir)
  = if IRToCConverter.skipped n then None
    else option_map (IRToCConverter.function_entry ir)
           (last_named n (finditer func_pattern ir)).
Proof.
  rewrite converter_functions_fill, fill_get. unfold last_named.
  destruct (IRToCConverter.skipped n) eqn:E.
  - destruct (last_by _ _ (filter _ _)) as [m|] eqn:L; [|reflexivity].
    apply last_by_In in L as [Hin Hk]. apply filter_In in Hin as [_ Hs].
    rewrite Hk, E in Hs. discriminate.
  - rewrite (last_by_filter (group 2)
               (fun n => negb (IRToCConverter.skipped n)));
      [|rewrite E; reflexivity].
    destruct (last_by _ _ _); reflexivity.
Qed.

Lemma report_total_functions (content : str) :
  total_functions (LLVMIRParser.get_metrics (LLVMIRParser.parse content))
  = length (distinct (map (group 2) (finditer func_pattern content))).
Proof.
  simpl. rewrite <- report_keys. unfold dict_keys.
  rewrite length_map. reflexivity.
Qed.

(** C10. When the listing declares a name more than once (here: at least
    once, [m] being the last header that declares [n]), the report tool's
    collection holds exactly one entry under that name and it is the one
    built from [m]; the same holds in the converter for every name it
    does not skip; and [total_functions] is the number of distinct
    declared names. *)
Theorem duplicate_definitions_last_wins (content n : str) (m : rmatched) :
  last_named n (finditer func_pattern content) = Some m ->
  dict_get n (LLVMIRParser._extract_functions content)
    = Some (LLVMIRParser.function_info content m) /\
  entries_under n (LLVMIRParser._extract_functions content) = 1 /\
  total_functions (LLVMIRParser.get_metrics (LLVMIRParser.parse content))
    = length (distinct (map (group 2) (finditer func_pattern content))) /\
  (IRToCConverter.skipped n = false ->
   dict_get n (IRToCConverter._extract_functions content)
     = Some (IRToCConverter.function_entry content m) /\
   entries_under n (IRToCConverter._extract_functions content) = 1).
Proof.
  intros Hlast.
  assert (Hin : In n (map (group 2) (finditer func_pattern content))).
  { apply last_by_In in Hlast as [Hin Hk]. rewrite <- Hk.
    apply in_map; assumption. }
  split; [rewrite report_get, Hlast; reflexivity|].
  split; [rewrite entries_under_keys, report_keys;
          apply distinct_one; assumption|].
  split; [apply report_total_functions|].
  intros Hskip. split.
  - rewrite converter_get, Hskip, Hlast. reflexivity.
  - rewrite entries_under_keys, converter_keys, report_keys.
    rewrite <- distinct_filter. apply distinct_one.
    apply filter_In. split; [assumption | rewrite Hskip; reflexivity].
Qed.
End Collections.

(** A listing that defines [f] twice: the entry kept is the one built
    from the second definition. *)
Lemma duplicate_definitions_witness :
  option_map instructions
    (dict_get (s2l "f")
       (LLVMIRParser._extract_functions
          (unlines ["define i32 @f() {"; "  ret i32 1 ; first"; "}";
                    "define void @f() {"; "  ret void ; second"; "}"]%string)))
  = Some [s2l "ret void"] /\
  entries_under (s2l "f")
    (LLVMIRParser._extract_functions
       (unlines ["define i32 @f() {"; "  ret i32 1 ; first"; "}";
                 "define void @f() {"; "  ret void ; second"; "}"]%string)) = 1 /\
  total_functions
    (LLVMIRParser.get_metrics
       (LLVMIRParser.parse
          (unlines ["define i32 @f() {"; "  ret i32 1 ; first"; "}";
                    "define void @f() {"; "  ret void ; second"; "}"]%string))) = 1 /\
  option_map IRToCConverter.fe_return_type
    (dict_get (s2l "f")
       (IRToCConverter._extract_functions
          (unlines ["define i32 @f() {"; "  ret i32 1 ; first"; "}";
                    "define void @f() {"; "  ret void ; second"; "}"]%string)))
  = Some (s2l "void").
Proof.
  match eval vm_compute in
    (last_named (s2l "f")
       (finditer func_pattern
          (unlines ["define i32 @f() {"; "  ret i32 1 ; first"; "}";
                    "define void @f() {"; "  ret void ; second"; "}"]%string)))
  with
  | Some ?m =>
      destruct (@duplicate_definitions_last_wins ascii_only
                  (unlines ["define i32 @f() {"; "  ret i32 1 ; first"; "}";
                            "define void @f() {"; "  ret void ; second";
                            "}"]%string)
                  (s2l "f") m) as (H1 & H2 & H3 & H4);
        [vm_compute; reflexivity|]
  end.
  destruct H4 as [H4 _]; [vm_compute; reflexivity|].
  rewrite H1, H2, H3, H4. vm_compute. repeat split.
Defined.

(** C5, against the claim as stated: the report tool collects and counts
    a function whose name begins with the reserved prefix. *)
Lemma report_counts_reserved_prefix :
  startswith (s2l "__") (s2l "__vm_run") = true /\
  dict_keys
    (LLVMIRParser._extract_functions
       (unlines ["define void @__vm_run() {"; "  ret void ; done"; "}"]%string))
  = [s2l "__vm_run"] /\
  total_functions
    (LLVMIRParser.get_metrics
       (LLVMIRParser.parse
          (unlines ["define void @__vm_run() {"; "  ret void ; done"; "}"]%string)))
  = 1 /\
  total_instructions
    (LLVMIRParser.get_metrics
       (LLVMIRParser.parse
          (unlines ["define void @__vm_run() {"; "  ret void ; done"; "}"]%string)))
  = 1.
Proof. vm_compute. repeat split. Qed.

(** ** The matcher: what a successful match implies *)

Lemma star_greedy_sound {R} (p : char -> bool) (k : mstate -> option R)
    (x : R) (rest : str) :
  forall st, m_rest st = rest -> star_greedy p rest st k = Some x ->
  exists w st',
    forallb p w = true /\ rest = w ++ m_rest st' /\
    m_pos st' = m_pos st + length w /\ m_caps st' = m_caps st /\
    k st' = Some x.
Proof.
  induction rest as [|c rest IH]; intros st Hrest H; simpl in H.
  - exists [], st. rewrite Hrest. auto.
  - destruct (p c) eqn:Hp.
    + destruct (star_greedy p rest (advance c rest st) k) eqn:Hs;
        simpl in H.
      * inversion H; subst r.
        destruct (IH (advance c rest st) eq_refl Hs)
          as (w & st' & Hw & Hr & Hpos & Hc & Hk).
        exists (c :: w), st'. simpl. rewrite Hp, Hw.
        repeat split; auto; try congruence. simpl in Hpos. lia.
      * exists [], st. rewrite Hrest. auto.
    + exists [], st. rewrite Hrest. auto.
Qed.

Lemma star_lazy_sound {R} (p : char -> bool) (k : mstate -> option R)
    (x : R) (rest : str) :
  forall st, m_rest st = rest -> star_lazy p rest st k = Some x ->
  exists w st',
    forallb p w = true /\ rest = w ++ m_rest st' /\
    m_pos st' = m_pos st + length w /\ m_caps st' = m_caps st /\
    k st' = Some x.
Proof.
  induction rest as [|c rest IH]; intros st Hrest H; simpl in H.
  - exists [], st. rewrite Hrest. auto.
  - destruct (k st) eqn:Hk0; simpl in H.
    + inversion H; subst r. exists [], st. rewrite Hrest. auto.
    + destruct (p c) eqn:Hp; [|discriminate].
      destruct (IH (advance c rest st) eq_refl H)
        as (w & st' & Hw & Hr & Hpos & Hc & Hk).
      exists (c :: w), st'. simpl. rewrite Hp, Hw.
      repeat split; auto; try congruence. simpl in Hpos. lia.
Qed.

Lemma rmatch_sound {R} (r : re) :
  forall st (k : mstate -> option R) x, rmatch r st k = Some x ->
  exists w c st',
    lang r w c /\ m_rest st = w ++ m_rest st' /\
    m_pos st' = m_pos st + length w /\ m_caps st' = c ++ m_caps st /\
    k st' = Some x.
Proof.
  induction r as [|p|a IHa b IHb|a IHa b IHb|p|p|n a IHa| |];
    intros st k x H; simpl in H.
  - exists [], [], st. repeat split; auto. constructor.
  - destruct (m_rest st) as [|c rest] eqn:Hrest; [discriminate|].
    destruct (p c) eqn:Hp; [|discriminate].
    exists [c], [], (advance c rest st). simpl.
    repeat split; auto; try lia. constructor; assumption.
  - apply IHa in H as (w1 & c1 & st1 & L1 & R1 & P1 & C1 & H).
    apply IHb in H as (w2 & c2 & st2 & L2 & R2 & P2 & C2 & H).
    exists (w1 ++ w2), (c2 ++ c1), st2.
    rewrite <- !app_assoc, length_app.
    repeat split; auto; try congruence; try lia. constructor; assumption.
  - destruct (rmatch a st k) eqn:Ha; simpl in H.
    + inversion H; subst r.
      apply IHa in Ha as (w & c & st' & L & ?). exists w, c, st'.
      split; [apply L_alt_l; assumption | assumption].
    + apply IHb in H as (w & c & st' & L & ?). exists w, c, st'.
      split; [apply L_alt_r; assumption | assumption].
  - apply star_greedy_sound in H as (w & st' & Hw & Hr & Hp & Hc & Hk);
      [|reflexivity].
    exists w, [], st'. repeat split; auto. constructor; assumption.
  - apply star_lazy_sound in H as (w & st' & Hw & Hr & Hp & Hc & Hk);
      [|reflexivity].
    exists w, [], st'. repeat split; auto. constructor; assumption.
  - apply IHa in H as (w & c & st' & L & Hr & Hp & Hc & Hk).
    exists w, ((n, w) :: c),
      (MState (m_pos st') (m_bol st') (m_rest st')
         ((n, firstn (m_pos st' - m_pos st) (m_rest st)) :: m_caps st')).
    split; [constructor; exact L|].
    split; [exact Hr|]. split; [exact Hp|]. split; [|exact Hk].
    simpl. rewrite Hc, Hp, Hr.
    replace (m_pos st + length w - m_pos st) with (length w) by lia.
    rewrite firstn_app, Nat.sub_diag, firstn_all. simpl.
    rewrite app_nil_r. reflexivity.
  - destruct (m_bol st); [|discriminate].
    exists [], [], st. repeat split; auto. constructor.
  - exists [], [], st. repeat split; auto; [constructor|].
    destruct (m_rest st) as [|c [|? ?]]; try discriminate; auto.
    destruct (c =? 10)%N; [assumption | discriminate].
Qed.

Lemma match_here_sound (r : re) (pos : nat) (bol : bool) (rest : str)
    (m : rmatched) :
  match_here r pos bol rest = Some m ->
  exists w c post,
    lang r w c /\ rest = w ++ post /\ r_start m = pos /\
    r_end m = pos + length w /\ r_caps m = c.
Proof.
  unfold match_here. intros H.
  apply rmatch_sound in H as (w & c & st' & L & Hr & Hp & Hc & Hk).
  simpl in *. inversion Hk; subst m; simpl.
  exists w, c, (m_rest st'). rewrite Hc, app_nil_r. auto.
Qed.

Lemma finditer_from_at (r : re) (m : rmatched) (rest : str) :
  forall skip pos bol, In m (finditer_from r skip pos bol rest) ->
  exists a post bol',
    rest = a ++ post /\ match_here r (pos + length a) bol' post = Some m.
Proof.
  induction rest as [|c rest IH]; intros skip pos bol Hin; simpl in Hin.
  - destruct skip; [|contradiction].
    destruct (match_here r pos bol []) eqn:E; [|contradiction].
    destruct Hin as [->|[]]. exists [], [], bol.
    rewrite Nat.add_0_r. auto.
  - assert (Htail : forall skip',
              In m (finditer_from r skip' (S pos) (c =? 10)%N rest) ->
              exists a post bol',
                c :: rest = a ++ post /\
                match_here r (pos + length a) bol' post = Some m).
    { intros skip' H. apply IH in H as (a & post & bol' & -> & H).
      exists (c :: a), post, bol'. simpl.
      rewrite Nat.add_succ_r. auto. }
    destruct skip; [|eapply Htail; eassumption].
    destruct (match_here r pos bol (c :: rest)) eqn:E.
    + destruct Hin as [->|Hin]; [|eapply Htail; eassumption].
      exists [], (c :: rest), bol. rewrite Nat.add_0_r. auto.
    + eapply Htail; eassumption.
Qed.

Lemma finditer_from_sound (r : re) (m : rmatched) (rest : str) :
  forall skip pos bol, In m (finditer_from r skip pos bol rest) ->
  exists pos' bol' rest', match_here r pos' bol' rest' = Some m.
Proof.
  intros skip pos bol Hin.
  apply finditer_from_at in Hin as (a & post & bol' & _ & H). eauto.
Qed.

Ltac inv_lang :=
  repeat match goal with
  | H : lang (Seq _ _) _ _ |- _ => inversion H; clear H; subst
  | H : lang (Alt _ _) _ _ |- _ => inversion H; clear H; subst
  | H : lang (Group _ _) _ _ |- _ => inversion H; clear H; subst
  | H : lang (Chr _) _ _ |- _ => inversion H; clear H; subst
  | H : lang (Star _) _ _ |- _ => inversion H; clear H; subst
  | H : lang (StarLazy _) _ _ |- _ => inversion H; clear H; subst
  | H : lang Eps _ _ |- _ => inversion H; clear H; subst
  | H : lang Bol _ _ |- _ => inversion H; clear H; subst
  | H : lang Eos _ _ |- _ => inversion H; clear H; subst
  | H : lang (Plus _) _ _ |- _ => unfold Plus in H
  | H : lang (PlusLazy _) _ _ |- _ => unfold PlusLazy in H
  | H : lang (Opt _) _ _ |- _ => unfold Opt in H
  end.

Section HeaderNames.
Context {U : UnicodeDB}.

(** A name captured by the header pattern is a non-empty run of word
    characters. *)
Lemma header_name_word (pos : nat) (bol : bool) (rest : str) (m : rmatched) :
  match_here func_pattern pos bol rest = Some m ->
  exists c w, group 2 m = c :: w /\ forallb is_word (c :: w) = true.
Proof.
  intros H. apply match_here_sound in H as (w & c & post & L & _ & _ & _ & Hc).
  unfold group. rewrite Hc. clear Hc.
  cbn in L. inv_lang; simpl; eexists _, _;
    (split; [reflexivity|]); simpl;
    match goal with
    | H1 : is_word _ = true, H2 : forallb is_word _ = true |- _ =>
        rewrite H1, H2; reflexivity
    end.
Qed.

Lemma word_not_intrinsic (n : str) :
  forallb is_word n = true -> startswith (s2l "llvm.") n = false.
Proof.
  intros H. destruct (startswith (s2l "llvm.") n) eqn:E; [|reflexivity].
  apply startswith_prefix in E as [t ->].
  rewrite forallb_app in H. apply andb_true_iff in H as [H _].
  vm_compute in H. discriminate.
Qed.

Lemma header_names_not_intrinsic (content : str) (m : rmatched) :
  In m (finditer func_pattern content) ->
  startswith (s2l "llvm.") (group 2 m) = false.
Proof.
  intros Hin. apply finditer_from_sound in Hin as (pos & bol & rest & H).
  apply header_name_word in H as (c & w & Hg & Hw).
  rewrite Hg. apply word_not_intrinsic. assumption.
Qed.
End HeaderNames.

(** ** Skipped names, and what the two tools share *)

Section ToolsCompared.
Context {U : UnicodeDB}.

(** C5, as amended. The converter leaves every declaration whose name
    begins with the reserved prefix or with the intrinsic prefix out of
    its function collection.  The report tool has no skip rule: a name in
    the intrinsic namespace never reaches its collection (the header's
    name group admits word characters only), names with the reserved
    prefix do, [total_functions] counts every distinct declared name and
    [total_instructions] adds up the entries of every collected
    function. *)
Theorem converter_skips_reserved (ir n : str) :
  IRToCConverter.skipped n = true ->
  dict_get n (IRToCConverter._extract_functions ir) = None /\
  ~ In n (dict_keys (IRToCConverter._extract_functions ir)) /\
  (startswith (s2l "llvm.") n = true ->
   dict_get n (LLVMIRParser._extract_functions ir) = None) /\
  total_functions (LLVMIRParser.get_metrics (LLVMIRParser.parse ir))
    = length (distinct (map (group 2) (finditer func_pattern ir))) /\
  total_instructions (LLVMIRParser.get_metrics (LLVMIRParser.parse ir))
    = LLVMIRParser.sum
        (map (fun f => length (instructions f))
           (dict_values (LLVMIRParser._extract_functions ir))).
Proof.
  intros Hskip. split; [|split; [|split; [|split; [|reflexivity]]]].
  - rewrite converter_get, Hskip. reflexivity.
  - rewrite converter_keys. intros Hin. apply filter_In in Hin as [_ Hn].
    rewrite Hskip in Hn. discriminate.
  - intros Hllvm. rewrite report_get.
    destruct (last_named n (finditer func_pattern ir)) as [m|] eqn:L;
      [|reflexivity].
    apply last_by_In in L as [Hin Hk].
    apply header_names_not_intrinsic in Hin. congruence.
  - apply report_total_functions.
Qed.

Lemma keyword_free_spec (instr : str) :
  keyword_free instr = true ->
  forall k, In k lowering_keywords -> contains (s2l k) instr = false.
Proof.
  unfold keyword_free. rewrite forallb_forall. intros H k Hin.
  apply negb_true_iff. apply H; assumption.
Qed.

Lemma lowering_agrees_keyword_free (instr : str) :
  keyword_free (re_sub_empty assign_pattern instr) = true ->
  CDecompiler._convert_instruction instr
  = IRToCConverter._convert_instruction instr.
Proof.
  intros H. pose proof (keyword_free_spec _ H) as K.
  unfold CDecompiler._convert_instruction,
    IRToCConverter._convert_instruction.
  set (body := re_sub_empty assign_pattern instr) in *.
  unfold CDecompiler.call_rule, CDecompiler.ret_rule,
    CDecompiler.arith_rule, IRToCConverter.ret_rule,
    IRToCConverter.call_rule, IRToCConverter.arith_table,
    IRToCConverter.cmp_table.
  simpl IRToCConverter.binop_rule.
  repeat match goal with
         | |- context [contains (s2l ?k) body] =>
             rewrite (K k) by (simpl; auto 20)
         end.
  reflexivity.
Qed.

(** C2, as amended. The two tools share the header pattern and the brace
    scan, so the converter's collection is the report tool's collection
    without the skipped names, in the same order, each entry built from
    the same header match and the same body text.  Their lowering rules
    differ; on a line that, once its assignment prefix is removed, holds
    none of the rule keywords, both give the same result. *)
Theorem tools_share_extraction (ir instr : str) :
  keyword_free (re_sub_empty assign_pattern instr) = true ->
  dict_keys (IRToCConverter._extract_functions ir)
    = filter (fun n => negb (IRToCConverter.skipped n))
        (dict_keys (LLVMIRParser._extract_functions ir)) /\
  (forall n e,
     dict_get n (IRToCConverter._extract_functions ir) = Some e ->
     exists f,
       dict_get n (LLVMIRParser._extract_functions ir) = Some f /\
       name f = IRToCConverter.fe_name e /\
       return_type f = IRToCConverter.fe_return_type e /\
       params f = LLVMIRParser._parse_params (IRToCConverter.fe_params e) /\
       instructions f
         = LLVMIRParser.extract_instructions (IRToCConverter.fe_body e) /\
       basic_blocks f
         = LLVMIRParser.count_basic_blocks (IRToCConverter.fe_body e)) /\
  CDecompiler._convert_instruction instr
    = IRToCConverter._convert_instruction instr.
Proof.
  intros H. split; [apply converter_keys|split].
  - intros n e He. rewrite converter_get in He.
    destruct (IRToCConverter.skipped n); [discriminate|].
    rewrite report_get.
    destruct (last_named n (finditer func_pattern ir)) as [m|];
      [|discriminate].
    simpl in *. inversion He; subst e.
    eexists; split; [reflexivity|]. simpl. repeat split.
  - apply lowering_agrees_keyword_free; assumption.
Qed.

(** ** Truncation *)

Lemma lowered_lines_length (instrs : list str) :
  length (CDecompiler.lowered_lines instrs) <= length instrs.
Proof.
  unfold CDecompiler.lowered_lines.
  induction instrs as [|i instrs IH]; [simpl; lia|].
  cbn [flat_map]. rewrite length_app.
  destruct (CDecompiler._convert_instruction i) as [[|? ?]|];
    cbn [truthy length].
  - apply le_S; exact IH.
  - apply le_n_S; exact IH.
  - apply le_S; exact IH.
Qed.

(** C3, as amended. The report tool lowers the first 20 instruction
    entries only, so at most 20 lowered lines are kept; a function with
    at most 20 entries is lowered whole and gets no summary, and a
    function with more gets exactly one summary comment after the kept
    lines, giving the number of entries beyond the twentieth.  The
    converter keeps the first 30 lines it produced and adds nothing. *)
Theorem truncation_policy (func_info : FunctionInfo) (body : str) :
  (length (instructions func_info) <= 20 ->
   CDecompiler.decompile_lines func_info
   = [CDecompiler.header_line func_info]
     ++ CDecompiler.lowered_lines (instructions func_info)
     ++ [s2l "}"]) /\
  (20 < length (instructions func_info) ->
   CDecompiler.decompile_lines func_info
   = [CDecompiler.header_line func_info]
     ++ CDecompiler.lowered_lines (firstn 20 (instructions func_info))
     ++ [CDecompiler.summary_line (length (instructions func_info) - 20);
         s2l "}"]) /\
  length (CDecompiler.lowered_lines (firstn 20 (instructions func_info)))
    <= 20 /\
  IRToCConverter._decompile_body body
    = firstn 30 (IRToCConverter.body_lines body) /\
  length (IRToCConverter._decompile_body body)
    = Nat.min 30 (length (IRToCConverter.body_lines body)).
Proof.
  unfold CDecompiler.decompile_lines. repeat split.
  - intros Hle. apply Nat.ltb_ge in Hle. rewrite Hle.
    apply Nat.ltb_ge in Hle. rewrite firstn_all2 by assumption.
    reflexivity.
  - intros Hlt. apply Nat.ltb_lt in Hlt. rewrite Hlt. reflexivity.
  - etransitivity; [apply lowered_lines_length|].
    rewrite length_firstn. lia.
  - apply length_firstn.
Qed.
End ToolsCompared.

(** A listing with a reserved-prefix helper and an ordinary function. *)
Lemma converter_skips_reserved_witness :
  dict_get (s2l "__vm_run")
    (IRToCConverter._extract_functions
       (unlines ["define void @__vm_run() {"; "  ret void ; done"; "}";
                 "define i32 @main() {"; "  ret i32 0 ; done"; "}"]%string))
  = None /\
  dict_keys
    (IRToCConverter._extract_functions
       (unlines ["define void @__vm_run() {"; "  ret void ; done"; "}";
                 "define i32 @main() {"; "  ret i32 0 ; done"; "}"]%string))
  = [s2l "main"].
Proof.
  split.
  - apply (@converter_skips_reserved ascii_only). vm_compute. reflexivity.
  - vm_compute. reflexivity.
Defined.

(** C2, against the claim as stated: the two tools lower a branch to
    different comments, and they collect different functions from a
    listing that declares a reserved-prefix helper. *)
Lemma tools_differ :
  CDecompiler._convert_instruction (s2l "br label %3")
    = Some (s2l "// branch instruction") /\
  IRToCConverter._convert_instruction (s2l "br label %3")
    = Some (s2l "// branch") /\
  dict_keys
    (LLVMIRParser._extract_functions
       (unlines ["define void @__vm_run() {"; "  ret void ; done"; "}";
                 "define i32 @main() {"; "  ret i32 0 ; done"; "}"]%string))
  = [s2l "__vm_run"; s2l "main"] /\
  dict_keys
    (IRToCConverter._extract_functions
       (unlines ["define void @__vm_run() {"; "  ret void ; done"; "}";
                 "define i32 @main() {"; "  ret i32 0 ; done"; "}"]%string))
  = [s2l "main"].
Proof. vm_compute. repeat split. Qed.

(** Both tools lower a load to the memory-operation comment. *)
Lemma tools_share_extraction_witness :
  CDecompiler._convert_instruction (s2l "%2 = load i32, ptr %p")
  = Some (s2l "// memory operation") /\
  IRToCConverter._convert_instruction (s2l "%2 = load i32, ptr %p")
  = Some (s2l "// memory operation").
Proof.
  destruct (@tools_share_extraction ascii_only []
              (s2l "%2 = load i32, ptr %p")) as (_ & _ & H).
  - vm_compute. reflexivity.
  - rewrite <- H. vm_compute. split; reflexivity.
Defined.

(** A function of 21 instruction entries, and one of two. *)
Lemma truncation_policy_witness :
  CDecompiler.decompile_lines
    {| name := s2l "f"; params := []; return_type := s2l "void";
       instructions := repeat (s2l "ret void") 21;
       basic_blocks := 0; complexity := 21 |}
  = [s2l "void f() {"] ++ repeat (s2l "    return;") 20
    ++ [s2l "    // ... 1 more instructions ..."; s2l "}"] /\
  CDecompiler.decompile_lines
    {| name := s2l "g"; params := [s2l "%a"]; return_type := s2l "i32";
       instructions := [s2l "unreachable"; s2l "ret i32 %a"];
       basic_blocks := 0; complexity := 2 |}
  = [s2l "int g(int a) {"; s2l "    return i32 %a;"; s2l "}"].
Proof.
  split.
  - rewrite (proj1 (proj2 (@truncation_policy ascii_only
                             {| name := s2l "f"; params := [];
                                return_type := s2l "void";
                                instructions := repeat (s2l "ret void") 21;
                                basic_blocks := 0; complexity := 21 |} [])))
      by (vm_compute; lia).
    vm_compute. reflexivity.
  - rewrite (proj1 (@truncation_policy ascii_only
                      {| name := s2l "g"; params := [s2l "%a"];
                         return_type := s2l "i32";
                         instructions := [s2l "unreachable";
                                          s2l "ret i32 %a"];
                         basic_blocks := 0; complexity := 2 |} []))
      by (vm_compute; lia).
    vm_compute. reflexivity.
Defined.

(** C3, against the claim as stated: a body that lowers to 31 lines
    leaves the converter as 30 lines, none of them a summary; and the
    report tool drops the lowered line of a 21st instruction although
    only 20 lines were produced in all. *)
Lemma converter_truncates_silently :
  length (IRToCConverter.body_lines
            (join [10%N] (repeat (s2l "  ret void") 31))) = 31 /\
  IRToCConverter._decompile_body
    (join [10%N] (repeat (s2l "  ret void") 31))
  = repeat (s2l "return;") 30 /\
  CDecompiler.decompile_lines
    {| name := s2l "f"; params := []; return_type := s2l "void";
       instructions := s2l "unreachable" :: repeat (s2l "ret void") 20;
       basic_blocks := 0; complexity := 21 |}
  = [s2l "void f() {"] ++ repeat (s2l "    return;") 19
    ++ [s2l "    // ... 1 more instructions ..."; s2l "}"].
Proof. vm_compute. repeat split. Qed.

(** ** The matcher on literals, and counting the sentinels *)

Lemma run_pos (w : str) : forall st, m_pos (run w st) = m_pos st + length w.
Proof.
  induction w as [|c w IH]; intros st; simpl; [lia|].
  rewrite IH. simpl. lia.
Qed.

Lemma run_caps (w : str) : forall st, m_caps (run w st) = m_caps st.
Proof.
  induction w as [|c w IH]; intros st; simpl; [reflexivity|].
  rewrite IH. reflexivity.
Qed.

Lemma rmatch_Lit {R} (s : str) :
  forall st (k : mstate -> option R),
    rmatch (Lit s) st k
    = if startswith s (m_rest st) then k (run s st) else None.
Proof.
  induction s as [|c s IH]; intros st k; simpl; [reflexivity|].
  destruct (m_rest st) as [|y rest] eqn:Hrest; [reflexivity|].
  destruct (c =? y)%N eqn:E; simpl; [|reflexivity].
  apply N.eqb_eq in E; subst y. rewrite IH. reflexivity.
Qed.

Lemma finditer_from_skip (r : re) (w : str) :
  forall pos bol rest,
    finditer_from r (length w) pos bol (w ++ rest)
    = finditer_from r 0 (pos + length w) (bol_after bol w) rest.
Proof.
  induction w as [|c w IH]; intros pos bol rest; simpl.
  - rewrite Nat.add_0_r. reflexivity.
  - rewrite IH. f_equal. lia.
Qed.

Lemma search_none_finditer (r : re) (rest : str) :
  forall skip pos bol,
    search_from r pos bol rest = None ->
    finditer_from r skip pos bol rest = [].
Proof.
  induction rest as [|c rest IH]; intros skip pos bol H; simpl in *.
  - destruct skip; [|reflexivity].
    destruct (match_here r pos bol []); [discriminate | reflexivity].
  - destruct (match_here r pos bol (c :: rest)); [discriminate|].
    destruct skip; apply IH; assumption.
Qed.

Section Markers.
Context {U : UnicodeDB}.

Lemma match_here_bogus (pos : nat) (bol : bool) (rest : str) :
  match_here LLVMIRParser.bogus_pattern pos bol rest
  = if startswith (s2l "0xDEADBEEF") rest
       || startswith (s2l "0xCAFEBABE") rest
    then Some (RMatched pos (pos + 10) [])
    else None.
Proof.
  unfold match_here, LLVMIRParser.bogus_pattern.
  cbn [rmatch]. rewrite !rmatch_Lit. cbn [m_rest].
  destruct (startswith (s2l "0xDEADBEEF") rest); cbn [orelse orb].
  - rewrite run_pos, run_caps. reflexivity.
  - destruct (startswith (s2l "0xCAFEBABE") rest); [|reflexivity].
    rewrite run_pos, run_caps. reflexivity.
Qed.

Lemma count_bogus (n : nat) :
  forall rest pos bol, length rest <= n ->
    length (finditer_from LLVMIRParser.bogus_pattern 0 pos bol rest)
    = occurrences (s2l "0xDEADBEEF") rest
      + occurrences (s2l "0xCAFEBABE") rest.
Proof.
  induction n as [|n IH]; intros rest pos bol Hlen.
  - destruct rest; [reflexivity | simpl in Hlen; lia].
  - destruct rest as [|c rest]; [reflexivity|].
    cbn [finditer_from]. rewrite match_here_bogus.
    destruct (startswith (s2l "0xDEADBEEF") (c :: rest)) eqn:ED;
      [|destruct (startswith (s2l "0xCAFEBABE") (c :: rest)) eqn:EC];
      cbn [orb r_end length].
    + apply startswith_prefix in ED as [t Ht].
      change (s2l "0xDEADBEEF" ++ t)
        with (ch "0" :: (s2l "xDEADBEEF" ++ t)) in Ht.
      injection Ht as -> ->.
      replace (pos + 10 - pos - 1) with 9 by lia.
      cbn [finditer_from].
      rewrite IH by (simpl in Hlen; lia).
      simpl. lia.
    + apply startswith_prefix in EC as [t Ht].
      change (s2l "0xCAFEBABE" ++ t)
        with (ch "0" :: (s2l "xCAFEBABE" ++ t)) in Ht.
      injection Ht as -> ->.
      replace (pos + 10 - pos - 1) with 9 by lia.
      cbn [finditer_from].
      rewrite IH by (simpl in Hlen; lia).
      simpl. lia.
    + rewrite IH by (simpl in Hlen; lia).
      cbn [occurrences]. rewrite ED, EC. reflexivity.
Qed.
End Markers.

Section MarkerCounts.
Context {U : UnicodeDB}.

Lemma detect_get_other (k key : string) (p : re) (content : str)
    (d : dict nat) :
  str_eqb (s2l key) (s2l k) = false ->
  dict_get (s2l k) (LLVMIRParser.detect key p content d)
  = dict_get (s2l k) d.
Proof.
  intros Hne. unfold LLVMIRParser.detect.
  destruct (re_search p content); [|reflexivity].
  apply dict_get_set_other. apply str_eqb_neq; assumption.
Qed.

Lemma detect_get_same (key : string) (p : re) (content : str)
    (d : dict nat) :
  dict_get (s2l key) (LLVMIRParser.detect key p content d)
  = match re_search p content with
    | Some _ => Some (length (findall0 p content))
    | None => dict_get (s2l key) d
    end.
Proof.
  unfold LLVMIRParser.detect.
  destruct (re_search p content); [apply dict_get_set_same | reflexivity].
Qed.

Lemma bogus_code_blocks_count (content : str) :
  bogus_code_blocks (LLVMIRParser.get_metrics (LLVMIRParser.parse content))
  = length (finditer LLVMIRParser.bogus_pattern content).
Proof.
  cbn [bogus_code_blocks LLVMIRParser.get_metrics LLVMIRParser.parse
       LLVMIRParser.obfuscation_patterns].
  unfold dict_get_default, LLVMIRParser._detect_obfuscation_patterns.
  rewrite !detect_get_other by reflexivity.
  rewrite detect_get_same.
  rewrite !detect_get_other by reflexivity.
  destruct (re_search LLVMIRParser.bogus_pattern content) eqn:E.
  - unfold findall0. apply length_map.
  - unfold finditer. unfold re_search in E.
    rewrite (search_none_finditer _ _ 0 _ _ E). reflexivity.
Qed.

(** C6. The BOGUS_CODE count reported for a listing is the number of
    offsets at which either sentinel occurs: 2 when the first sentinel
    occurs exactly twice and the second not at all, and 0 (returned as an
    ordinary count) when neither occurs. *)
Theorem bogus_marker_count (content : str) :
  bogus_code_blocks (LLVMIRParser.get_metrics (LLVMIRParser.parse content))
    = occurrences (s2l "0xDEADBEEF") content
      + occurrences (s2l "0xCAFEBABE") content /\
  (occurrences (s2l "0xDEADBEEF") content = 2 ->
   occurrences (s2l "0xCAFEBABE") content = 0 ->
   bogus_code_blocks
     (LLVMIRParser.get_metrics (LLVMIRParser.parse content)) = 2) /\
  (occurrences (s2l "0xDEADBEEF") content = 0 ->
   occurrences (s2l "0xCAFEBABE") content = 0 ->
   bogus_code_blocks
     (LLVMIRParser.get_metrics (LLVMIRParser.parse content)) = 0).
Proof.
  assert (H : bogus_code_blocks
                (LLVMIRParser.get_metrics (LLVMIRParser.parse content))
              = occurrences (s2l "0xDEADBEEF") content
                + occurrences (s2l "0xCAFEBABE") content).
  { rewrite bogus_code_blocks_count. unfold finditer.
    apply (count_bogus (n := length content)). apply le_n. }
  split; [exact H|]. split; intros HD HC; rewrite H, HD, HC; reflexivity.
Qed.
End MarkerCounts.

(** Two listings: one with the first sentinel twice, one with neither. *)
Lemma bogus_marker_count_witness :
  bogus_code_blocks
    (LLVMIRParser.get_metrics
       (LLVMIRParser.parse
          (unlines ["  %1 = add i32 %0, 0xDEADBEEF";
                    "  store i32 0xDEADBEEF, ptr %p"]%string))) = 2 /\
  bogus_code_blocks
    (LLVMIRParser.get_metrics
       (LLVMIRParser.parse (unlines ["  ret i32 0"]%string))) = 0.
Proof.
  split.
  - apply (@bogus_marker_count ascii_only); vm_compute; reflexivity.
  - apply (@bogus_marker_count ascii_only); vm_compute; reflexivity.
Defined.

(** ** Return instructions *)

Lemma star_greedy_all {R} (p : char -> bool) (k : mstate -> option R)
    (x : R) (w : str) :
  forall st, m_rest st = w -> forallb p w = true ->
    k (run w st) = Some x -> star_greedy p w st k = Some x.
Proof.
  induction w as [|c w IH]; intros st Hrest Hall Hk; simpl in *.
  - assumption.
  - apply andb_true_iff in Hall as [Hc Hw]. rewrite Hc.
    rewrite Hrest in Hk. simpl in Hk.
    rewrite (IH (advance c w st) eq_refl Hw Hk). reflexivity.
Qed.

Lemma run_rest (w : str) :
  forall st rest, m_rest st = w ++ rest -> m_rest (run w st) = rest.
Proof.
  induction w as [|c w IH]; intros st rest H; simpl in *; [assumption|].
  apply IH. rewrite H. reflexivity.
Qed.

Lemma lstrip_nonspace (c : char) (s : str) :
  is_space c = false -> lstrip (c :: s) = c :: s.
Proof. intros H; simpl; rewrite H; reflexivity. Qed.

Lemma lstrip_app (a y : str) :
  lstrip y = y -> lstrip (a ++ y) = lstrip a ++ y.
Proof.
  intros Hy. induction a as [|c a IH]; simpl; [assumption|].
  destruct (is_space c); [exact IH | reflexivity].
Qed.

Lemma strip_nonspace_head (c : char) (s : str) :
  is_space c = false -> exists t, strip (c :: s) = c :: t.
Proof.
  intros Hc. unfold strip, rstrip. rewrite (@lstrip_nonspace c s Hc).
  simpl rev. rewrite lstrip_app by (apply lstrip_nonspace; assumption).
  rewrite rev_app_distr. simpl. eauto.
Qed.

Section ReturnRule.
Context {U : UnicodeDB}.

Lemma assign_needs_equals (pos : nat) (bol : bool) (rest : str)
    (m : rmatched) :
  match_here assign_pattern pos bol rest = Some m -> In (ch "=") rest.
Proof.
  intros H.
  apply match_here_sound in H as (w & c & post & L & -> & _).
  apply in_or_app; left. cbn in L. inv_lang.
  repeat match goal with
         | H : (_ =? _)%N = true |- _ => apply N.eqb_eq in H; subst
         end.
  simpl. right. right. apply in_or_app; right. apply in_or_app; right.
  left; reflexivity.
Qed.

Lemma sub_assign_identity (rest : str) :
  forall pos bol, ~ In (ch "=") rest ->
    sub_empty_from assign_pattern 0 pos bol rest = rest.
Proof.
  induction rest as [|c rest IH]; intros pos bol Hno; simpl;
    [reflexivity|].
  destruct (match_here assign_pattern pos bol (c :: rest)) eqn:E.
  - apply assign_needs_equals in E. contradiction.
  - f_equal. apply IH. intros Hin; apply Hno; right; assumption.
Qed.

Lemma match_here_ret_line (c : char) (v : str) :
  is_space c = false -> forallb is_dot (c :: v) = true ->
  match_here ret_pattern 0 true (114 :: 101 :: 116 :: 32 :: c :: v)%N
  = Some (RMatched 0 (5 + length v) [(1, c :: v)]).
Proof.
  intros Hc Hdot. simpl in Hdot. apply andb_true_iff in Hdot as [Hd Hv].
  unfold match_here, ret_pattern, Plus.
  with_strategy opaque [is_space is_dot star_greedy] (simpl).
  change (is_space 32%N) with true. cbv iota.
  cbn [star_greedy]. rewrite Hc.
  cbn [m_rest advance]. rewrite Hd.
  erewrite star_greedy_all; [reflexivity | reflexivity | exact Hv |].
  rewrite run_pos, run_caps. cbn [m_pos m_caps m_rest advance].
  replace (5 + length v - 4) with (S (length v)) by lia.
  rewrite firstn_all2 by (simpl; lia). reflexivity.
Qed.

Lemma search_ret_line (c : char) (v : str) :
  is_space c = false -> forallb is_dot (c :: v) = true ->
  re_search ret_pattern (s2l "ret " ++ c :: v)
  = Some (RMatched 0 (5 + length v) [(1, c :: v)]).
Proof.
  intros Hc Hdot. unfold re_search.
  change (s2l "ret " ++ c :: v) with (114 :: 101 :: 116 :: 32 :: c :: v)%N.
  cbn [search_from]. rewrite match_here_ret_line by assumption.
  reflexivity.
Qed.
End ReturnRule.

Section ReturnLowering.
Context {U : UnicodeDB}.

Lemma ret_line_unchanged (x : str) :
  ~ In (ch "=") x ->
  re_sub_empty assign_pattern (s2l "ret " ++ x) = s2l "ret " ++ x.
Proof.
  intros Hno. apply sub_assign_identity.
  intros Hin. apply in_app_or in Hin as [Hin|Hin]; [|contradiction].
  vm_compute in Hin. intuition discriminate.
Qed.

(** C4, as amended. A return line [ret <operand>], its operand written
    on the rest of the line: the converter emits a bare return when the
    trimmed operand contains [void] or equals [undef] and otherwise a
    return carrying the simplified operand; the report tool emits a bare
    return when the trimmed operand equals [void] and otherwise a return
    carrying the operand as written. *)
Theorem return_lowering (c : char) (v : str) :
  is_space c = false -> forallb is_dot (c :: v) = true ->
  ~ In (ch "=") (c :: v) ->
  IRToCConverter._convert_instruction (s2l "ret " ++ c :: v)
    = Some (if contains (s2l "void") (strip (c :: v))
               || str_eqb (strip (c :: v)) (s2l "undef")
            then s2l "return;"
            else s2l "return "
                 ++ IRToCConverter._simplify_value (strip (c :: v))
                 ++ s2l ";") /\
  (contains (s2l "call") (c :: v) = false ->
   CDecompiler._convert_instruction (s2l "ret " ++ c :: v)
     = Some (if str_eqb (strip (c :: v)) (s2l "void")
             then s2l "return;"
             else s2l "return " ++ strip (c :: v) ++ s2l ";")).
Proof.
  intros Hc Hdot Hno.
  destruct (@strip_nonspace_head c v Hc) as [t Ht].
  split.
  - unfold IRToCConverter._convert_instruction.
    rewrite ret_line_unchanged by assumption.
    unfold IRToCConverter.ret_rule.
    change (contains (s2l "ret") (s2l "ret " ++ c :: v)) with true.
    cbv iota. rewrite search_ret_line by assumption.
    change (group 1 (RMatched 0 (5 + length v) [(1, c :: v)]))
      with (c :: v).
    cbv zeta. rewrite Ht. cbn [LLVMIRParser.nonempty negb].
    rewrite orb_false_r.
    destruct (contains (s2l "void") (c :: t)
              || str_eqb (c :: t) (s2l "undef")); reflexivity.
  - intros Hcall. unfold CDecompiler._convert_instruction.
    rewrite ret_line_unchanged by assumption.
    unfold CDecompiler.call_rule.
    change (contains (s2l "call") (s2l "ret " ++ c :: v))
      with (contains (s2l "call") (c :: v)).
    rewrite Hcall. unfold CDecompiler.ret_rule.
    change (contains (s2l "ret") (s2l "ret " ++ c :: v)) with true.
    cbv iota. rewrite search_ret_line by assumption.
    change (group 1 (RMatched 0 (5 + length v) [(1, c :: v)]))
      with (c :: v).
    cbv zeta. rewrite Ht. cbn [LLVMIRParser.nonempty negb].
    rewrite orb_false_r.
    destruct (str_eqb (c :: t) (s2l "void")); reflexivity.
Qed.
End ReturnLowering.

(** The line [ret i32 %5] in both tools. *)
Lemma return_lowering_witness :
  IRToCConverter._convert_instruction (s2l "ret i32 %5")
    = Some (s2l "return i32 %5;") /\
  CDecompiler._convert_instruction (s2l "ret i32 %5")
    = Some (s2l "return i32 %5;").
Proof.
  destruct (@return_lowering ascii_only (ch "i") (s2l "32 %5"))
    as [H1 H2].
  - vm_compute. reflexivity.
  - vm_compute. reflexivity.
  - vm_compute. intuition discriminate.
  - split; [exact H1 | apply H2; vm_compute; reflexivity].
Defined.

(** C4, against the claim as stated: the report tool echoes an undefined
    operand, and the converter drops an operand that merely contains the
    word void. *)
Lemma return_lowering_differs :
  CDecompiler._convert_instruction (s2l "ret undef")
    = Some (s2l "return undef;") /\
  IRToCConverter._convert_instruction (s2l "ret i32 %avoid")
    = Some (s2l "return;").
Proof. vm_compute. split; reflexivity. Qed.

(** ** Instructions and block labels *)

Lemma prefix_len_app_ge (p : char -> bool) (w rest : str) :
  forallb p w = true -> length w <= prefix_len p (w ++ rest).
Proof.
  induction w as [|c w IH]; simpl; [lia|].
  intros H. apply andb_true_iff in H as [Hc Hw]. rewrite Hc.
  specialize (IH Hw). lia.
Qed.

Lemma prefix_len_through (p : char -> bool) (a w rest : str) :
  forallb p w = true -> length a <= prefix_len p (a ++ w ++ rest) ->
  length a + length w <= prefix_len p (a ++ w ++ rest).
Proof.
  intros Hw. induction a as [|c a IH]; simpl.
  - intros _. apply prefix_len_app_ge; assumption.
  - destruct (p c); [|lia]. intros H. specialize (IH ltac:(lia)). lia.
Qed.

Lemma prefix_len_split (p : char -> bool) (s : str) :
  prefix_len p s < length s ->
  exists a x b,
    s = a ++ x :: b /\ length a = prefix_len p s /\ p x = false.
Proof.
  induction s as [|c s IH]; simpl; [lia|].
  destruct (p c) eqn:E.
  - intros H. destruct IH as (a & x & b & -> & Hl & Hx); [lia|].
    exists (c :: a), x, b. simpl. auto.
  - intros _. exists [], c, s. auto.
Qed.

Lemma prefix_len_all (p : char -> bool) (s : str) :
  forallb p (firstn (prefix_len p s) s) = true.
Proof.
  induction s as [|c s IH]; simpl; [reflexivity|].
  destruct (p c) eqn:E; simpl; [rewrite E, IH|]; reflexivity.
Qed.

Lemma bol_after_app (bol : bool) (a b : str) :
  bol_after bol (a ++ b) = bol_after (bol_after bol a) b.
Proof. revert bol; induction a as [|c a IH]; intros bol; simpl; auto. Qed.

Lemma space_not_semi (c : char) :
  is_space c = true -> is_not ";" c = true.
Proof.
  intros H. unfold is_not. apply negb_true_iff, N.eqb_neq.
  intros ->. vm_compute in H. discriminate.
Qed.

Lemma digit_not_space (c : char) : ascii_digit c = true -> is_space c = false.
Proof.
  unfold ascii_digit, is_space. intros H.
  apply andb_true_iff in H as [H1 H2].
  apply N.leb_le in H1. apply N.leb_le in H2.
  repeat match goal with
         | |- context [(?a <=? ?b)%N] =>
             destruct (N.leb_spec a b); try lia
         | |- context [(?a =? ?b)%N] =>
             destruct (N.eqb_spec a b); try lia
         end; reflexivity.
Qed.

Lemma digit_not_semi (c : char) : ascii_digit c = true -> is_not ";" c = true.
Proof.
  unfold ascii_digit, is_not. intros H.
  apply andb_true_iff in H as [H1 H2].
  apply N.leb_le in H1. apply N.leb_le in H2.
  apply negb_true_iff, N.eqb_neq. change (ch ";") with 59%N. lia.
Qed.

Section Instructions.
Context {U : UnicodeDB}.

Lemma digit_is_digit (c : char) : ascii_digit c = true -> is_digit c = true.
Proof.
  intros H. unfold is_digit. rewrite H.
  unfold ascii_digit in H. apply andb_true_iff in H as [_ H2].
  apply N.leb_le in H2.
  destruct (N.ltb_spec c 128); [reflexivity | lia].
Qed.

Lemma star_greedy_finish (p : char -> bool) (pos0 : nat) (rest : str) :
  forall st,
    star_greedy p rest st (finish pos0)
    = Some (RMatched pos0 (m_pos st + prefix_len p rest) (m_caps st)).
Proof.
  induction rest as [|c rest IH]; intros st; simpl.
  - rewrite Nat.add_0_r. reflexivity.
  - destruct (p c).
    + rewrite IH. simpl. do 2 f_equal. lia.
    + rewrite Nat.add_0_r. reflexivity.
Qed.

Lemma instruction_tail (pos0 : nat) (rest : str) :
  forall st, m_rest st = rest ->
    star_greedy is_space rest st
      (fun st' => rmatch (Plus (is_not ";")) st' (finish pos0))
    = if 0 <? prefix_len (is_not ";") rest
      then Some (RMatched pos0 (m_pos st + prefix_len (is_not ";") rest)
                   (m_caps st))
      else None.
Proof.
  induction rest as [|c rest IH]; intros st Hrest.
  - simpl. rewrite Hrest. reflexivity.
  - cbn [star_greedy prefix_len].
    assert (Hk : rmatch (Plus (is_not ";")) st (finish pos0)
                 = if is_not ";" c
                   then Some (RMatched pos0
                                (m_pos st + S (prefix_len (is_not ";") rest))
                                (m_caps st))
                   else None).
    { unfold Plus. cbn [rmatch]. rewrite Hrest.
      destruct (is_not ";" c); [|reflexivity].
      rewrite star_greedy_finish. simpl. do 2 f_equal. lia. }
    destruct (is_space c) eqn:Hs.
    + rewrite (space_not_semi _ Hs) in *.
      rewrite (IH (advance c rest st) eq_refl). rewrite Hk.
      destruct (prefix_len (is_not ";") rest) eqn:E; simpl.
      * reflexivity.
      * do 2 f_equal. lia.
    + rewrite Hk. destruct (is_not ";" c); reflexivity.
Qed.

Lemma match_here_instruction (pos : nat) (bol : bool) (rest : str) :
  match_here LLVMIRParser.instruction_pattern pos bol rest
  = if bol && (0 <? prefix_len (is_not ";") rest)
    then Some (RMatched pos (pos + prefix_len (is_not ";") rest) [])
    else None.
Proof.
  unfold match_here, LLVMIRParser.instruction_pattern.
  destruct bol; [|reflexivity].
  exact (@instruction_tail pos rest (MState pos true rest []) eq_refl).
Qed.
End Instructions.

Section Coverage.
Context {U : UnicodeDB}.

(** Some match of the instruction pattern covers every run of
    characters without a semicolon that begins at a line start. *)
Lemma instruction_covers (n : nat) :
  forall pre pos bol L post,
    length pre <= n -> L <> [] -> forallb (is_not ";") L = true ->
    bol_after bol pre = true ->
    exists m,
      In m (finditer_from LLVMIRParser.instruction_pattern 0 pos bol
              (pre ++ L ++ post)) /\
      r_start m <= pos + length pre /\
      pos + length pre + length L <= r_end m.
Proof.
  induction n as [|n IH]; intros pre pos bol L post Hlen HL Hns Hbol.
  - destruct pre; [|simpl in Hlen; lia]. simpl in Hbol; subst bol.
    destruct L as [|l0 L]; [congruence|].
    pose proof (prefix_len_app_ge (is_not ";") (l0 :: L) post Hns) as Hge.
    cbn [app finditer_from] in *. rewrite match_here_instruction.
    cbn [andb].
    destruct (0 <? prefix_len (is_not ";") (l0 :: L ++ post)) eqn:E;
      [|apply Nat.ltb_ge in E; cbn [length] in Hge; lia].
    eexists; split; [left; reflexivity|]. cbn [r_start r_end length] in *.
    lia.
  - destruct pre as [|c pre].
    { apply (IH [] pos bol L post); simpl; auto; lia. }
    cbn [app finditer_from]. rewrite match_here_instruction.
    change (c :: pre ++ L ++ post) with ((c :: pre) ++ L ++ post).
    set (k := prefix_len (is_not ";") ((c :: pre) ++ L ++ post)).
    assert (Htail : forall skip,
              (exists m,
                 In m (finditer_from LLVMIRParser.instruction_pattern skip
                         (S pos) (c =? 10)%N (pre ++ L ++ post)) /\
                 r_start m <= S pos + length pre /\
                 S pos + length pre + length L <= r_end m) ->
              forall hd,
              exists m,
                In m (hd ++ finditer_from LLVMIRParser.instruction_pattern
                              skip (S pos) (c =? 10)%N (pre ++ L ++ post)) /\
                r_start m <= pos + length (c :: pre) /\
                pos + length (c :: pre) + length L <= r_end m).
    { intros skip (m & Hin & H1 & H2) hd. exists m.
      split; [apply in_or_app; right; exact Hin|]. simpl. lia. }
    destruct (bol && (0 <? k)) eqn:E.
    + destruct (Nat.le_gt_cases (length (c :: pre) + length L) k)
        as [Hk|Hk].
      * eexists; split; [left; reflexivity|]. simpl in *. lia.
      * cbn [r_end].
        assert (Hk' : k < length (c :: pre)).
        { destruct (Nat.le_gt_cases (length (c :: pre)) k) as [H|H];
            [|exact H].
          pose proof (prefix_len_through (is_not ";") (c :: pre) L post
                        Hns H). fold k in H0. lia. }
        destruct (@prefix_len_split (is_not ";") ((c :: pre) ++ L ++ post))
          as (a & x & b & Hs & Ha & Hx);
          [fold k; rewrite !length_app; lia|].
        fold k in Ha.
        assert (Hpre : exists b', c :: pre = a ++ x :: b' /\
                                  b = b' ++ L ++ post).
        { apply app_eq_app in Hs as [l [[H1 H2]|[H1 H2]]].
          - destruct l as [|y l].
            + rewrite app_nil_r in H1. rewrite H1 in Hk'. lia.
            + simpl in H2. inversion H2; subst y b. exists l. auto.
          - rewrite H1, length_app in Ha. lia. }
        destruct Hpre as (b' & Hpre & ->).
        assert (Hx' : x = ch ";").
        { unfold is_not in Hx. apply negb_false_iff, N.eqb_eq in Hx.
          exact Hx. }
        subst x.
        destruct a as [|a0 a].
        { simpl in Ha. apply andb_true_iff in E as [_ E].
          apply Nat.ltb_lt in E. lia. }
        simpl in Hpre. inversion Hpre; subst a0 pre. clear Hpre.
        apply (Htail _) with (hd := [_]).
        replace (pos + k - pos - 1) with (length a)
          by (simpl in Ha; lia).
        rewrite <- !app_assoc.
        rewrite finditer_from_skip.
        cbn [app finditer_from]. rewrite match_here_instruction.
        cbn [prefix_len]. change (is_not ";" (ch ";")) with false.
        cbv iota. rewrite andb_false_r.
        destruct (IH b' (S (S pos + length a)) (ch ";" =? 10)%N L post)
          as (m & Hin & H1 & H2); auto.
        { simpl in Hlen. rewrite length_app in Hlen. simpl in Hlen. lia. }
        { cbn [bol_after] in Hbol. rewrite bol_after_app in Hbol.
          exact Hbol. }
        exists m. split; [exact Hin|].
        rewrite length_app. simpl. lia.
    + apply (Htail _) with (hd := []).
      apply IH; auto. simpl in Hlen. lia.
Qed.
End Coverage.

Lemma slice_cover (pre L post : str) (s e : nat) :
  s <= length pre -> length pre + length L <= e ->
  slice (pre ++ L ++ post) s e
  = skipn s pre ++ L ++ firstn (e - length pre - length L) post.
Proof.
  intros Hs He. unfold slice.
  rewrite skipn_app. replace (s - length pre) with 0 by lia.
  cbn [skipn]. rewrite firstn_app, length_skipn.
  rewrite firstn_all2 by (rewrite length_skipn; lia).
  f_equal. replace (e - s - (length pre - s)) with (e - length pre) by lia.
  rewrite firstn_app.
  rewrite firstn_all2 by lia. reflexivity.
Qed.

Lemma lstrip_suffix (s : str) : exists a, s = a ++ lstrip s.
Proof.
  induction s as [|c s [a IH]]; simpl; [exists []; reflexivity|].
  destruct (is_space c).
  - exists (c :: a). simpl. congruence.
  - exists []. reflexivity.
Qed.

Lemma strip_around (A X B : str) (x y : char) (X1 X2 : str) :
  X = x :: X1 -> X = X2 ++ [y] ->
  is_space x = false -> is_space y = false ->
  strip (A ++ X ++ B) = lstrip A ++ X ++ rstrip B.
Proof.
  intros Hx Hy Sx Sy. unfold strip.
  rewrite lstrip_app by (rewrite Hx; apply lstrip_nonspace; assumption).
  unfold rstrip. rewrite !rev_app_distr, <- app_assoc.
  rewrite lstrip_app.
  - rewrite !rev_app_distr, !rev_involutive, <- app_assoc. reflexivity.
  - rewrite Hy, rev_app_distr. apply lstrip_nonspace; assumption.
Qed.

Lemma head_kept (h : char) (t : str) :
  is_not ";" h = true ->
  LLVMIRParser.nonempty (h :: t)
  && negb (startswith (s2l ";") (h :: t)) = true.
Proof.
  intros H. unfold is_not in H.
  change (startswith (s2l ";") (h :: t)) with ((59 =? h)%N && true).
  rewrite andb_true_r, N.eqb_sym. exact H.
Qed.

Section LabelsKept.
Context {U : UnicodeDB}.

Lemma instruction_match_clean (body : str) (m : rmatched) :
  In m (finditer LLVMIRParser.instruction_pattern body) ->
  forallb (is_not ";") (matched_text body m) = true.
Proof.
  intros Hin. apply finditer_from_at in Hin as (a & post & bol & -> & H).
  rewrite match_here_instruction in H.
  destruct (bol && _); [|discriminate]. inversion H; subst m. clear H.
  unfold matched_text, slice. cbn [r_start r_end].
  rewrite skipn_app, skipn_all, Nat.sub_diag. cbn [app skipn].
  replace (length a + prefix_len (is_not ";") post - length a)
    with (prefix_len (is_not ";") post) by lia.
  apply prefix_len_all.
Qed.

(** A block label at a line start is part of some entry of the
    instruction list. *)
Lemma label_in_instructions (pre indent d post : str) :
  bol_after true pre = true -> forallb is_space indent = true ->
  d <> [] -> forallb ascii_digit d = true ->
  exists a b,
    In (a ++ d ++ s2l ":" ++ b)
      (LLVMIRParser.extract_instructions
         (pre ++ indent ++ d ++ s2l ":" ++ post)).
Proof.
  intros Hbol Hind Hd Hdig.
  assert (Hdns : forallb (is_not ";") d = true).
  { rewrite forallb_forall in *. intros c Hc.
    apply digit_not_semi. auto. }
  assert (Hins : forallb (is_not ";") indent = true).
  { rewrite forallb_forall in *. intros c Hc.
    apply space_not_semi. auto. }
  destruct (@instruction_covers (length pre) pre 0 true
              (indent ++ d ++ s2l ":") post) as (m & Hin & Hs & He);
    auto.
  { destruct indent; [destruct d; [congruence|]|]; discriminate. }
  { rewrite !forallb_app, Hins, Hdns. reflexivity. }
  rewrite <- !app_assoc in Hin. fold (finditer LLVMIRParser.instruction_pattern
    (pre ++ indent ++ d ++ s2l ":" ++ post)) in Hin.
  set (body := pre ++ indent ++ d ++ s2l ":" ++ post) in *.
  pose proof (instruction_match_clean _ _ Hin) as Hclean.
  assert (Hm : matched_text body m
               = (skipn (r_start m) pre ++ indent) ++ (d ++ s2l ":")
                 ++ firstn (r_end m - length pre
                            - length (indent ++ d ++ s2l ":")) post).
  { unfold matched_text, body.
    replace (pre ++ indent ++ d ++ s2l ":" ++ post)
      with (pre ++ (indent ++ d ++ s2l ":") ++ post)
      by (rewrite <- !app_assoc; reflexivity).
    rewrite slice_cover by (simpl in *; lia).
    rewrite <- !app_assoc. reflexivity. }
  set (A := skipn (r_start m) pre ++ indent) in *.
  set (B := firstn (r_end m - length pre
                    - length (indent ++ d ++ s2l ":")) post) in *.
  destruct d as [|d0 d']; [congruence|].
  assert (Hd0 : ascii_digit d0 = true)
    by (simpl in Hdig; apply andb_true_iff in Hdig; tauto).
  assert (Hstrip : strip (matched_text body m)
                   = lstrip A ++ ((d0 :: d') ++ s2l ":") ++ rstrip B).
  { rewrite Hm.
    apply (@strip_around A _ B d0 (ch ":") (d' ++ s2l ":") (d0 :: d'));
      try reflexivity.
    apply digit_not_space; assumption. }
  exists (lstrip A), (rstrip B).
  unfold LLVMIRParser.extract_instructions, findall0.
  rewrite <- app_assoc in Hstrip. rewrite <- Hstrip.
  apply in_map. apply filter_In. split; [apply in_map; exact Hin|].
  rewrite Hstrip.
  destruct (lstrip A) as [|h t] eqn:Hl.
  - apply head_kept. apply digit_not_semi; assumption.
  - apply head_kept.
    destruct (lstrip_suffix A) as [a0 Ha0].
    rewrite Hl in Ha0. rewrite Hm, Ha0 in Hclean.
    rewrite forallb_forall in Hclean. apply Hclean.
    apply in_or_app; left. apply in_or_app; right. left; reflexivity.
Qed.
End LabelsKept.

Lemma star_greedy_stop {R} (p : char -> bool) (k : mstate -> option R)
    (x : R) (w rest : str) :
  forall st, m_rest st = w ++ rest -> forallb p w = true ->
    match rest with [] => true | c :: _ => negb (p c) end = true ->
    k (run w st) = Some x -> star_greedy p (w ++ rest) st k = Some x.
Proof.
  induction w as [|c w IH]; intros st Hrest Hall Hstop Hk; simpl in *.
  - destruct rest as [|c rest]; [assumption|].
    simpl. apply negb_true_iff in Hstop. rewrite Hstop. assumption.
  - apply andb_true_iff in Hall as [Hc Hw]. rewrite Hc.
    rewrite Hrest in Hk. simpl in Hk.
    rewrite (IH (advance c (w ++ rest) st) eq_refl Hw Hstop Hk).
    reflexivity.
Qed.

Lemma search_from_reaches (r : re) (m : rmatched) (a rest : str) :
  forall pos bol,
    match_here r (pos + length a) (bol_after bol a) rest = Some m ->
    exists m', search_from r pos bol (a ++ rest) = Some m'.
Proof.
  induction a as [|c a IH]; intros pos bol H; simpl in *.
  - rewrite Nat.add_0_r in H.
    destruct rest; simpl; rewrite H; eauto.
  - destruct (match_here r pos bol (c :: a ++ rest)); [eauto|].
    apply IH. rewrite <- H. f_equal. lia.
Qed.

Lemma search_some_finditer (r : re) (rest : str) :
  forall pos bol m, search_from r pos bol rest = Some m ->
    1 <= length (finditer_from r 0 pos bol rest).
Proof.
  induction rest as [|c rest IH]; intros pos bol m H; simpl in *.
  - destruct (match_here r pos bol []); [simpl; lia | discriminate].
  - destruct (match_here r pos bol (c :: rest)); [simpl; lia|].
    eapply IH; eassumption.
Qed.

Section LabelsCounted.
Context {U : UnicodeDB}.

Lemma match_here_label (pos : nat) (bol : bool) (indent d post : str) :
  bol = true -> forallb is_space indent = true -> d <> [] ->
  forallb ascii_digit d = true ->
  exists m,
    match_here LLVMIRParser.label_pattern pos bol
      (indent ++ d ++ s2l ":" ++ post) = Some m.
Proof.
  intros -> Hind Hd Hdig. destruct d as [|d0 d]; [congruence|].
  simpl in Hdig. apply andb_true_iff in Hdig as [Hd0 Hdig].
  assert (Hdig' : forallb is_digit d = true).
  { rewrite forallb_forall in *. intros c Hc.
    apply digit_is_digit; auto. }
  eexists. unfold match_here, LLVMIRParser.label_pattern, Plus.
  cbn [seqs rmatch m_bol m_rest].
  apply star_greedy_stop; try assumption; try reflexivity.
  - cbn. rewrite (digit_not_space _ Hd0). reflexivity.
  - cbn [rmatch].
    erewrite run_rest by reflexivity.
    cbn [app]. rewrite (digit_is_digit _ Hd0).
    change (s2l ":" ++ post) with (58%N :: post).
    apply star_greedy_stop; try assumption; try reflexivity.
    rewrite rmatch_Lit.
    erewrite run_rest by reflexivity.
    cbn [startswith s2l list_ascii_of_string map].
    change (N_of_ascii ":") with 58%N. rewrite N.eqb_refl.
    reflexivity.
Qed.

(** A block label at a line start is counted. *)
Lemma label_counted (pre indent d post : str) :
  bol_after true pre = true -> forallb is_space indent = true ->
  d <> [] -> forallb ascii_digit d = true ->
  1 <= LLVMIRParser.count_basic_blocks
         (pre ++ indent ++ d ++ s2l ":" ++ post).
Proof.
  intros Hbol Hind Hd Hdig.
  destruct (@match_here_label (0 + length pre) (bol_after true pre)
              indent d post Hbol Hind Hd Hdig) as [m Hm].
  apply search_from_reaches in Hm as [m' Hm'].
  apply search_some_finditer in Hm'.
  unfold LLVMIRParser.count_basic_blocks, findall0, finditer.
  rewrite length_map. exact Hm'.
Qed.
End LabelsCounted.

(** C1, against the claim as stated: a body of two instruction lines and
    one block label, every line closed by a comment. The label is an
    entry of the instruction list and the score is 3 + 2 * 1. *)
Lemma label_is_an_instruction :
  option_map (fun f => (instructions f, basic_blocks f, complexity f))
    (dict_get (s2l "f")
       (LLVMIRParser._extract_functions
          (unlines ["define i32 @f(i32 %x) {"; "  br label %1 ; jump";
                    "1: ; preds = %0"; "  ret i32 %x ; leave";
                    "}"]%string)))
  = Some ([s2l "br label %1"; s2l "1:"; s2l "ret i32 %x"], 1, 5).
Proof. vm_compute. reflexivity. Qed.

(** Consecutive lines that carry no comment come out as one entry: the
    character class of the instruction pattern also matches line
    ends. *)
Remark instruction_lines_merge :
  map instructions
    (dict_values
       (LLVMIRParser._extract_functions
          (unlines ["define i32 @g() {"; "  %1 = add i32 1, 2";
                    "  ret i32 %1"; "}"]%string)))
  = [[s2l "%1 = add i32 1, 2" ++ [10%N] ++ s2l "  ret i32 %1"]].
Proof. vm_compute. reflexivity. Qed.

(* ================================================================== *)
(** ** The brace scan on nested and on unclosed bodies *)

Lemma while_loop_step {St} (fuel : nat) (cond : St -> bool)
    (body : St -> St) (st : St) :
  while_loop (S fuel) cond body st
  = if cond st then while_loop fuel cond body (body st) else Some st.
Proof. reflexivity. Qed.

Lemma scan_through (s : str) :
  forall pre post d d' fuel,
    depth_after d s = Some d' ->
    while_loop (length s + fuel) (brace_cond (pre ++ s ++ post))
      (brace_body (pre ++ s ++ post)) (length pre, Z.of_nat (S d))
    = while_loop fuel (brace_cond (pre ++ s ++ post))
        (brace_body (pre ++ s ++ post))
        (length pre + length s, Z.of_nat (S d')).
Proof.
  induction s as [|c s IH]; intros pre post d d' fuel H.
  - injection H as ->. cbn [length Nat.add]. rewrite Nat.add_0_r. reflexivity.
  - cbn [length Nat.add while_loop].
    assert (Hc : brace_cond (pre ++ (c :: s) ++ post)
                   (length pre, Z.of_nat (S d)) = true).
    { unfold brace_cond. cbn [fst snd]. apply andb_true_iff. split.
      - apply Nat.ltb_lt. rewrite length_app. cbn [app length]. lia.
      - apply Z.ltb_lt. lia. }
    rewrite Hc.
    assert (Hn : nth (length pre) (pre ++ (c :: s) ++ post) 0%N = c).
    { cbn [app]. apply nth_middle. }
    unfold brace_body at 2. cbn [fst snd]. rewrite Hn.
    replace (pre ++ (c :: s) ++ post) with ((pre ++ [c]) ++ s ++ post)
      by (rewrite <- app_assoc; reflexivity).
    replace (length pre + 1) with (length (pre ++ [c]))
      by (rewrite length_app; reflexivity).
    replace (length pre + S (length s)) with (length (pre ++ [c]) + length s)
      by (rewrite length_app; cbn [length]; lia).
    cbn [depth_after] in H.
    destruct (c =? ch "{")%N.
    + replace (Z.of_nat (S d) + 1)%Z with (Z.of_nat (S (S d))) by lia.
      apply IH. exact H.
    + destruct (c =? ch "}")%N.
      * destruct d as [|d0]; [discriminate|].
        replace (Z.of_nat (S (S d0)) - 1)%Z with (Z.of_nat (S d0)) by lia.
        apply IH. exact H.
      * apply IH. exact H.
Qed.

Lemma brace_scan_closed (pre body post : str) :
  depth_after 0 body = Some 0 ->
  brace_scan (pre ++ body ++ ch "}" :: post) (length pre)
  = Some (length pre + length body + 1, 0%Z).
Proof.
  intros H. unfold brace_scan.
  replace (S (length (pre ++ body ++ ch "}" :: post) - length pre))
    with (length body + (2 + length post))
    by (rewrite !length_app; cbn [length]; lia).
  rewrite (@scan_through body pre (ch "}" :: post) 0 0 _ H).
  assert (Hc : brace_cond (pre ++ body ++ ch "}" :: post)
                 (length pre + length body, Z.of_nat 1) = true).
  { unfold brace_cond. cbn [fst snd]. apply andb_true_iff. split.
    - apply Nat.ltb_lt. rewrite !length_app. cbn [length]. lia.
    - reflexivity. }
  assert (Hn : nth (length pre + length body)
                 (pre ++ body ++ ch "}" :: post) 0%N = ch "}").
  { rewrite app_assoc, <- length_app. apply nth_middle. }
  assert (Hb : brace_body (pre ++ body ++ ch "}" :: post)
                 (length pre + length body, Z.of_nat 1)
               = (length pre + length body + 1, 0%Z)).
  { unfold brace_body. cbn [fst snd]. rewrite Hn. reflexivity. }
  change (2 + length post) with (S (S (length post))).
  rewrite !while_loop_step, Hc, Hb.
  unfold brace_cond. cbn [fst snd]. rewrite andb_false_r.
  reflexivity.
Qed.

Lemma function_body_closed (pre body post : str) :
  depth_after 0 body = Some 0 ->
  function_body (pre ++ body ++ ch "}" :: post) (length pre) = body.
Proof.
  intros H. unfold function_body, body_end.
  rewrite (@brace_scan_closed pre body post H). cbn [fst].
  rewrite slice_cover by lia.
  rewrite skipn_all.
  replace (length pre + length body + 1 - 1 - length pre - length body)
    with 0 by lia.
  cbn [firstn app]. apply app_nil_r.
Qed.

(** X1. When the text after a header's opening brace is [body], then a
    closing brace, then anything else, and every brace opened inside
    [body] is closed inside [body] (no closing brace of [body] closes the
    function), the scan stops right after that closing brace and the
    function body is exactly [body]. *)
Theorem body_ends_at_matching_brace (pre body post : str) :
  depth_after 0 body = Some 0 ->
  body_end (pre ++ body ++ ch "}" :: post) (length pre)
    = length pre + length body + 1 /\
  function_body (pre ++ body ++ ch "}" :: post) (length pre) = body.
Proof.
  intros H. split.
  - unfold body_end. rewrite (@brace_scan_closed pre body post H). reflexivity.
  - apply function_body_closed. exact H.
Qed.

Lemma body_ends_at_matching_brace_witness :
  function_body (s2l "define void @f() { if (x) { y } z } rest") 18
  = s2l " if (x) { y } z ".
Proof.
  exact (proj2 (@body_ends_at_matching_brace (s2l "define void @f() {")
                  (s2l " if (x) { y } z ") (s2l " rest") eq_refl)).
Defined.

(** X2. When no closing brace of the remaining text closes the
    function, the scan runs to the end of the text, and the slice taken
    as the function body is the remaining text without its last
    character. *)
Theorem unclosed_body_loses_last_character (pre rest : str) (d : nat) :
  depth_after 0 rest = Some d ->
  body_end (pre ++ rest) (length pre) = length (pre ++ rest) /\
  function_body (pre ++ rest) (length pre) = removelast rest.
Proof.
  intros H.
  assert (E : brace_scan (pre ++ rest) (length pre)
              = Some (length (pre ++ rest), Z.of_nat (S d))).
  { unfold brace_scan.
    replace (S (length (pre ++ rest) - length pre)) with (length rest + 1)
      by (rewrite length_app; lia).
    pose proof (@scan_through rest pre [] 0 d 1 H) as S.
    rewrite app_nil_r in S. change (Z.of_nat 1) with 1%Z in S. rewrite S.
    cbn [while_loop]. unfold brace_cond. cbn [fst snd].
    rewrite length_app, Nat.ltb_irrefl. reflexivity. }
  unfold function_body, body_end. rewrite E. cbn [fst]. split; [reflexivity|].
  unfold slice. rewrite skipn_app, skipn_all, Nat.sub_diag. cbn [skipn app].
  rewrite length_app.
  replace (length pre + length rest - 1 - length pre) with (length rest - 1)
    by lia.
  clear. induction rest as [|c rest IH]; [reflexivity|].
  cbn [length]. replace (S (length rest) - 1) with (length rest) by lia.
  destruct rest as [|c' rest']; [reflexivity|].
  cbn [length firstn]. cbn [length] in IH.
  replace (S (length rest') - 1) with (length rest') in IH by lia.
  rewrite IH. reflexivity.
Qed.

Lemma unclosed_body_loses_last_character_witness :
  function_body (s2l "define void @f() { ret void") 18 = s2l " ret voi".
Proof.
  exact (proj2 (@unclosed_body_loses_last_character
                  (s2l "define void @f() {") (s2l " ret void") 0 eq_refl)).
Defined.

(* ================================================================== *)
(** ** What the collections hold *)

(** ** What a filled dictionary holds *)

Lemma dict_set_In {V} (k k0 : str) (v v0 : V) (d : dict V) :
  In (k, v) (dict_set k0 v0 d) -> (k, v) = (k0, v0) \/ In (k, v) d.
Proof.
  induction d as [|[k' v'] d IH]; simpl.
  - intros [H|[]]. left. symmetry. exact H.
  - destruct (str_eqb k0 k'); simpl.
    + intros [H|H]; [left; symmetry; exact H | right; right; exact H].
    + intros [H|H]; [right; left; exact H|].
      destruct (IH H) as [E|E]; [left; exact E | right; right; exact E].
Qed.

Lemma fill_In {A V} (key : A -> str) (build : A -> V) (k : str) (v : V)
    (ms : list A) :
  forall d, In (k, v) (fill key build d ms) ->
    In (k, v) d \/ exists m, In m ms /\ key m = k /\ build m = v.
Proof.
  unfold fill. induction ms as [|m ms IH]; intros d H; simpl in *.
  - left. exact H.
  - destruct (IH _ H) as [Hd|(m' & Hin & Hk & Hb)].
    + apply dict_set_In in Hd as [E|Hd].
      * right. exists m. inversion E. auto.
      * left. exact Hd.
    + right. exists m'. auto.
Qed.

Lemma fill_key_In {A V} (key : A -> str) (build : A -> V) (k : str)
    (ms : list A) :
  In k (dict_keys (fill key build [] ms)) -> exists m, In m ms /\ key m = k.
Proof.
  unfold dict_keys. intros H. apply in_map_iff in H as ([k' v] & E & H).
  simpl in E; subst k'.
  apply fill_In in H as [[]|(m & Hin & Hk & _)]. exists m. auto.
Qed.

(** ** Trimming *)

Lemma lstrip_idem (s : str) : lstrip (lstrip s) = lstrip s.
Proof.
  induction s as [|c s IH]; simpl; [reflexivity|].
  destruct (is_space c) eqn:E; [exact IH|]. simpl. rewrite E. reflexivity.
Qed.

Lemma rstrip_nonspace_head (c : char) (s : str) :
  is_space c = false -> exists t, rstrip (c :: s) = c :: t.
Proof.
  intros Hc. unfold rstrip. simpl rev.
  rewrite lstrip_app by (apply lstrip_nonspace; assumption).
  rewrite rev_app_distr. simpl. eauto.
Qed.

Lemma lstrip_head (s : str) :
  match lstrip s with [] => True | c :: _ => is_space c = false end.
Proof.
  induction s as [|c s IH]; simpl; [exact I|].
  destruct (is_space c) eqn:E; [exact IH | exact E].
Qed.

Lemma strip_idem (s : str) : strip (strip s) = strip s.
Proof.
  unfold strip.
  pose proof (lstrip_head s) as Hh.
  destruct (lstrip s) as [|c y] eqn:Ey; [reflexivity|].
  destruct (@rstrip_nonspace_head c y Hh) as [t Ht]. rewrite Ht.
  rewrite (@lstrip_nonspace c t Hh). rewrite <- Ht.
  unfold rstrip. rewrite rev_involutive, lstrip_idem. reflexivity.
Qed.

Lemma forallb_lstrip (p : char -> bool) (s : str) :
  forallb p s = true -> forallb p (lstrip s) = true.
Proof.
  induction s as [|c s IH]; simpl; [reflexivity|].
  intros H. apply andb_true_iff in H as [Hc Hs].
  destruct (is_space c); [apply IH; exact Hs|].
  simpl. rewrite Hc, Hs. reflexivity.
Qed.

Lemma forallb_rev_true (p : char -> bool) (s : str) :
  forallb p s = true -> forallb p (rev s) = true.
Proof.
  rewrite !forallb_forall. intros H x Hx. apply H. apply in_rev. exact Hx.
Qed.

Lemma forallb_strip (p : char -> bool) (s : str) :
  forallb p s = true -> forallb p (strip s) = true.
Proof.
  intros H. unfold strip, rstrip.
  apply forallb_rev_true, forallb_lstrip, forallb_rev_true, forallb_lstrip.
  exact H.
Qed.

Lemma forallb_not_In (x : ascii) (s : str) :
  forallb (is_not x) s = true -> ~ In (ch x) s.
Proof.
  intros H Hin. rewrite forallb_forall in H. specialize (H _ Hin).
  unfold is_not in H. rewrite N.eqb_refl in H. discriminate.
Qed.

(** ** Where a search finds its match *)

Lemma search_from_at (r : re) (m : rmatched) (rest : str) :
  forall pos bol, search_from r pos bol rest = Some m ->
  exists a post bol',
    rest = a ++ post /\ match_here r (pos + length a) bol' post = Some m.
Proof.
  induction rest as [|c rest IH]; intros pos bol H; cbn [search_from] in H.
  - destruct (match_here r pos bol []) eqn:E; [|discriminate].
    injection H as ->. exists [], [], bol. rewrite Nat.add_0_r. auto.
  - destruct (match_here r pos bol (c :: rest)) eqn:E.
    + injection H as ->. exists [], (c :: rest), bol.
      rewrite Nat.add_0_r. auto.
    + apply IH in H as (a & post & bol' & -> & H).
      exists (c :: a), post, bol'. split; [reflexivity|].
      cbn [length]. rewrite <- H. f_equal. lia.
Qed.

Lemma matched_text_at (r : re) (m : rmatched) (a post : str) (bol : bool) :
  match_here r (length a) bol post = Some m ->
  exists w c post',
    lang r w c /\ post = w ++ post' /\ matched_text (a ++ post) m = w /\
    r_caps m = c.
Proof.
  intros H.
  apply match_here_sound in H as (w & c & post' & L & -> & Hs & He & Hc).
  exists w, c, post'. repeat split; try assumption.
  unfold matched_text, slice. rewrite Hs, He.
  rewrite skipn_app, skipn_all, Nat.sub_diag. cbn [skipn app].
  replace (length a + length w - length a) with (length w) by lia.
  rewrite firstn_app, Nat.sub_diag, firstn_all. cbn [firstn].
  apply app_nil_r.
Qed.

Lemma search_matched_text (r : re) (m : rmatched) (s : str) :
  re_search r s = Some m ->
  exists w c, lang r w c /\ matched_text s m = w /\ r_caps m = c.
Proof.
  intros H. apply search_from_at in H as (a & post & bol & -> & H).
  apply matched_text_at in H as (w & c & post' & L & _ & Hm & Hc).
  exists w, c. auto.
Qed.

Section Names.
Context {U : UnicodeDB}.

Lemma word_run (c : char) (w : str) :
  is_word c = true -> forallb is_word w = true ->
  c :: w <> [] /\ forallb is_word (c :: w) = true /\ ~ In (ch ".") (c :: w).
Proof.
  intros Hc Hw. split; [discriminate|].
  assert (H : forallb is_word (c :: w) = true)
    by (simpl; rewrite Hc, Hw; reflexivity).
  split; [exact H|]. intros Hin. rewrite forallb_forall in H.
  specialize (H _ Hin). vm_compute in H. discriminate.
Qed.

Lemma report_global_name (pos : nat) (bol : bool) (rest : str) (m : rmatched) :
  match_here LLVMIRParser.global_pattern pos bol rest = Some m ->
  exists c w, group 1 m = c :: w /\ is_word c = true
              /\ forallb is_word w = true.
Proof.
  intros H. apply match_here_sound in H as (w & c & post & L & _ & _ & _ & Hc).
  unfold group. rewrite Hc. clear Hc.
  cbn in L. inv_lang; simpl; eexists _, _; auto.
Qed.

Lemma converter_global_name (pos : nat) (bol : bool) (rest : str)
    (m : rmatched) :
  match_here IRToCConverter.global_pattern pos bol rest = Some m ->
  exists c w, group 1 m = c :: w /\ is_word c = true
              /\ forallb is_word w = true.
Proof.
  intros H. apply match_here_sound in H as (w & c & post & L & _ & _ & _ & Hc).
  unfold group. rewrite Hc. clear Hc.
  cbn in L. inv_lang; simpl; eexists _, _; auto.
Qed.

Lemma converter_string_name (pos : nat) (bol : bool) (rest : str)
    (m : rmatched) :
  match_here IRToCConverter.string_pattern pos bol rest = Some m ->
  exists c w, group 1 m = c :: w /\ is_word c = true
              /\ forallb is_word w = true.
Proof.
  intros H. apply match_here_sound in H as (w & c & post & L & _ & _ & _ & Hc).
  unfold group. rewrite Hc. clear Hc.
  cbn in L. inv_lang; simpl; eexists _, _; auto.
Qed.

Lemma header_name (pos : nat) (bol : bool) (rest : str) (m : rmatched) :
  match_here func_pattern pos bol rest = Some m ->
  exists c w, group 2 m = c :: w /\ is_word c = true
              /\ forallb is_word w = true.
Proof.
  intros H. apply match_here_sound in H as (w & c & post & L & _ & _ & _ & Hc).
  unfold group. rewrite Hc. clear Hc.
  cbn in L. inv_lang; simpl; eexists _, _; auto.
Qed.

(** X4. Every name either tool collects (the report tool's globals and
    function names, the converter's globals, string constants and
    functions) is a non-empty run of word characters; in particular it
    holds no dot. *)
Theorem collected_names_are_word_runs (content n : str) :
  In n (LLVMIRParser._extract_globals content)
  \/ In n (dict_keys (LLVMIRParser._extract_functions content))
  \/ In n (dict_keys (IRToCConverter._extract_globals content))
  \/ In n (dict_keys (IRToCConverter._extract_strings content))
  \/ In n (dict_keys (IRToCConverter._extract_functions content)) ->
  n <> [] /\ forallb is_word n = true /\ ~ In (ch ".") n.
Proof.
  intros [H|[H|[H|[H|H]]]].
  - unfold LLVMIRParser._extract_globals, findall1 in H.
    apply in_map_iff in H as (m & <- & Hm).
    apply finditer_from_sound in Hm as (pos & bol & rest & Hm).
    apply report_global_name in Hm as (c & w & -> & Hc & Hw).
    apply word_run; assumption.
  - rewrite report_functions_fill in H.
    apply fill_key_In in H as (m & Hm & <-).
    apply finditer_from_sound in Hm as (pos & bol & rest & Hm).
    apply header_name in Hm as (c & w & -> & Hc & Hw).
    apply word_run; assumption.
  - apply (@fill_key_In _ _ (group 1) (fun m => strip (group 2 m)))
      in H as (m & Hm & <-).
    apply finditer_from_sound in Hm as (pos & bol & rest & Hm).
    apply converter_global_name in Hm as (c & w & -> & Hc & Hw).
    apply word_run; assumption.
  - apply (@fill_key_In _ _ (group 1)
             (fun m => try_except (codecs_decode (group 2 m)) (group 2 m)))
      in H as (m & Hm & <-).
    apply finditer_from_sound in Hm as (pos & bol & rest & Hm).
    apply converter_string_name in Hm as (c & w & -> & Hc & Hw).
    apply word_run; assumption.
  - rewrite converter_functions_fill in H.
    apply fill_key_In in H as (m & Hm & <-).
    apply filter_In in Hm as [Hm _].
    apply finditer_from_sound in Hm as (pos & bol & rest & Hm).
    apply header_name in Hm as (c & w & -> & Hc & Hw).
    apply word_run; assumption.
Qed.

(** X3. Every entry of the report tool's function collection is stored
    under its own name; its complexity is the number of its instruction
    entries plus twice its block count; its return type is trimmed; each
    of its instruction entries is non-empty, trimmed and free of
    semicolons; each of its parameters is non-empty. *)
Theorem collected_function_invariant (content k : str) (f : FunctionInfo) :
  In (k, f) (LLVMIRParser._extract_functions content) ->
  name f = k /\
  complexity f = length (instructions f) + 2 * basic_blocks f /\
  strip (return_type f) = return_type f /\
  (forall i, In i (instructions f) ->
     i <> [] /\ strip i = i /\ ~ In (ch ";") i) /\
  (forall p, In p (params f) -> p <> []).
Proof.
  intros H. rewrite report_functions_fill in H.
  apply fill_In in H as [[]|(m & Hm & Hk & <-)].
  cbn [name complexity instructions basic_blocks return_type params
       LLVMIRParser.function_info].
  split; [exact Hk|]. split; [lia|]. split; [apply strip_idem|]. split.
  - intros i Hi. unfold LLVMIRParser.extract_instructions in Hi.
    apply in_map_iff in Hi as (x & <- & Hx).
    apply filter_In in Hx as [Hx Hf].
    apply andb_true_iff in Hf as [Hne _].
    split; [|split].
    + destruct (strip x); [discriminate Hne | discriminate].
    + apply strip_idem.
    + apply forallb_not_In, forallb_strip.
      unfold findall0 in Hx. apply in_map_iff in Hx as (m' & <- & Hm').
      apply instruction_match_clean. exact Hm'.
  - intros p Hp. unfold LLVMIRParser._parse_params in Hp.
    destruct (negb _); [destruct Hp|].
    apply in_flat_map in Hp as (x & _ & Hp).
    destruct (LLVMIRParser.nonempty (strip x)) eqn:Hne; [|destruct Hp].
    destruct (re_search LLVMIRParser.param_name_pattern (strip x)) eqn:Es.
    + destruct Hp as [<-|[]].
      apply search_matched_text in Es as (w & c & L & -> & _).
      unfold LLVMIRParser.param_name_pattern in L. cbn in L. inv_lang.
      simpl. discriminate.
    + destruct Hp as [<-|[]].
      destruct (strip x); [discriminate Hne | discriminate].
Qed.
End Names.

Lemma collected_function_invariant_witness :
  let f := {| name := s2l "f"; params := [s2l "%x"];
              return_type := s2l "i32";
              instructions := [s2l "ret i32 %x"];
              basic_blocks := 0; complexity := 1 |} in
  name f = s2l "f" /\
  complexity f = length (instructions f) + 2 * basic_blocks f /\
  strip (return_type f) = return_type f /\
  (forall i, In i (instructions f) ->
     i <> [] /\ strip i = i /\ ~ In (ch ";") i) /\
  (forall p, In p (params f) -> p <> []).
Proof.
  apply (@collected_function_invariant ascii_only
           (unlines ["define i32 @f(i32 %x) {"; "  ret i32 %x ; leave";
                     "}"]%string)).
  vm_compute. left. reflexivity.
Defined.

Lemma collected_names_are_word_runs_witness :
  s2l "counter" <> [] /\ forallb is_word (s2l "counter") = true
  /\ ~ In (ch ".") (s2l "counter").
Proof.
  apply (@collected_names_are_word_runs ascii_only
           (unlines ["@.str = private constant [3 x i8] c'hi'";
                     "@counter = global i32 0"]%string)).
  left. vm_compute. left. reflexivity.
Defined.

(* ================================================================== *)
(** ** A body without comments *)

Lemma prefix_len_full (p : char -> bool) (s : str) :
  forallb p s = true -> prefix_len p s = length s.
Proof.
  induction s as [|c s IH]; [reflexivity|].
  cbn [forallb prefix_len length]. intros H.
  apply andb_true_iff in H as [Hc Hs]. rewrite Hc, (IH Hs). reflexivity.
Qed.

Section CommentFree.
Context {U : UnicodeDB}.

Lemma one_match (c : char) (body : str) :
  forallb (is_not ";") (c :: body) = true ->
  finditer LLVMIRParser.instruction_pattern (c :: body)
  = [RMatched 0 (length (c :: body)) []].
Proof.
  intros H. unfold finditer. cbn [finditer_from].
  rewrite match_here_instruction, (prefix_len_full _ _ H).
  cbn [andb length Nat.ltb Nat.leb r_end Nat.add].
  replace (S (length body) - 0 - 1) with (length body) by lia.
  pose proof (@finditer_from_skip LLVMIRParser.instruction_pattern body 1
                (c =? 10)%N []) as K.
  rewrite app_nil_r in K. rewrite K. cbn [finditer_from].
  rewrite match_here_instruction. cbn [prefix_len Nat.ltb Nat.leb].
  rewrite andb_false_r. reflexivity.
Qed.

(** X5. A function body that holds no semicolon yields at most one
    instruction entry: the whole body, trimmed, when it is not blank. *)
Theorem comment_free_body_is_one_instruction (body : str) :
  forallb (is_not ";") body = true ->
  LLVMIRParser.extract_instructions body
  = if LLVMIRParser.nonempty (strip body) then [strip body] else [].
Proof.
  intros H. destruct body as [|c body]; [reflexivity|].
  unfold LLVMIRParser.extract_instructions, findall0.
  rewrite (one_match _ _ H). cbn [map].
  assert (E : matched_text (c :: body) (RMatched 0 (length (c :: body)) [])
              = c :: body).
  { unfold matched_text, slice. cbn [r_start r_end skipn].
    rewrite Nat.sub_0_r. apply firstn_all. }
  rewrite E. cbn [filter].
  pose proof (forallb_strip _ _ H) as Hs.
  destruct (strip (c :: body)) as [|h t] eqn:Es; [reflexivity|].
  cbn [forallb] in Hs. apply andb_true_iff in Hs as [Hh _].
  rewrite (@head_kept h t Hh). cbn [map]. rewrite Es. reflexivity.
Qed.
End CommentFree.

Lemma comment_free_body_is_one_instruction_witness :
  LLVMIRParser.extract_instructions
    (unlines [""; "  %1 = add i32 1, 2"; "  ret i32 %1"; ""]%string)
  = [unlines ["%1 = add i32 1, 2"; "  ret i32 %1"]%string].
Proof.
  apply (@comment_free_body_is_one_instruction
           (unlines [""; "  %1 = add i32 1, 2"; "  ret i32 %1"; ""]%string)).
  reflexivity.
Defined.

(** ** Entries and comments *)

Lemma prefix_len_cut (p : char -> bool) (s : str) :
  exists w tail,
    s = w ++ tail /\ length w = prefix_len p s /\
    match tail with [] => True | c :: _ => p c = false end.
Proof.
  induction s as [|c s (w & tail & Hs & Hl & Ht)].
  - exists [], []. auto.
  - cbn [prefix_len]. destruct (p c) eqn:E.
    + exists (c :: w), tail. cbn [app length]. rewrite <- Hs, Hl. auto.
    + exists [], (c :: s). auto.
Qed.

Lemma occurrences_semi_app (w tail : str) :
  occurrences (s2l ";") tail <= occurrences (s2l ";") (w ++ tail).
Proof.
  induction w as [|c w IH]; [apply le_n|].
  cbn [app occurrences]. lia.
Qed.

Section InstructionBound.
Context {U : UnicodeDB}.

Lemma instruction_matches_bounded (n : nat) :
  forall rest skip pos bol, length rest <= n ->
    length (finditer_from LLVMIRParser.instruction_pattern skip pos bol rest)
    <= S (occurrences (s2l ";") rest).
Proof.
  induction n as [|n IH]; intros rest skip pos bol Hlen.
  - destruct rest; [|simpl in Hlen; lia].
    cbn [finditer_from]. destruct skip; [|cbn; lia].
    rewrite match_here_instruction. cbn [prefix_len Nat.ltb Nat.leb].
    rewrite andb_false_r. cbn. lia.
  - destruct rest as [|c rest].
    { cbn [finditer_from]. destruct skip; [|cbn; lia].
      rewrite match_here_instruction. cbn [prefix_len Nat.ltb Nat.leb].
      rewrite andb_false_r. cbn. lia. }
    cbn [length] in Hlen.
    assert (Hstep : forall skip' pos' bol',
              length (finditer_from LLVMIRParser.instruction_pattern
                        skip' pos' bol' rest)
              <= S (occurrences (s2l ";") (c :: rest))).
    { intros. etransitivity; [apply IH; lia|].
      apply le_n_S. apply (occurrences_semi_app [c] rest). }
    cbn [finditer_from]. destruct skip as [|k]; [|apply Hstep].
    rewrite match_here_instruction.
    destruct (bol && (0 <? prefix_len (is_not ";") (c :: rest))) eqn:E;
      [|apply Hstep].
    apply andb_true_iff in E as [_ E]. apply Nat.ltb_lt in E.
    cbn [r_end length].
    destruct (prefix_len_cut (is_not ";") (c :: rest))
      as (w & tail & Hs & Hl & Ht).
    destruct w as [|c' w]; [cbn [length] in Hl; lia|].
    cbn [app] in Hs. injection Hs as <- ->.
    rewrite <- Hl. cbn [length].
    replace (pos + S (length w) - pos - 1) with (length w) by lia.
    rewrite finditer_from_skip.
    apply le_n_S.
    destruct tail as [|x tail].
    + cbn [finditer_from]. rewrite match_here_instruction.
      cbn [prefix_len Nat.ltb Nat.leb]. rewrite andb_false_r. cbn. lia.
    + cbn [finditer_from]. rewrite match_here_instruction.
      cbn [prefix_len]. rewrite Ht. cbn [Nat.ltb Nat.leb].
      rewrite andb_false_r.
      etransitivity;
        [apply IH; rewrite length_app in Hlen; cbn [length] in Hlen; lia|].
      etransitivity; [|apply (occurrences_semi_app (c :: w))].
      unfold is_not in Ht. apply negb_false_iff, N.eqb_eq in Ht. subst x.
      cbn [occurrences]. change (startswith (s2l ";") (ch ";" :: tail))
        with true. cbn. lia.
Qed.

(** X23. The number of instruction entries of a body is at most one
    more than the number of semicolons in it: an entry ends only where a
    comment begins or where the body ends. *)
Theorem instructions_bounded_by_semicolons (body : str) :
  length (LLVMIRParser.extract_instructions body)
  <= S (occurrences (s2l ";") body).
Proof.
  unfold LLVMIRParser.extract_instructions, findall0, finditer.
  rewrite length_map.
  etransitivity; [apply filter_length_le|]. rewrite length_map.
  apply (instruction_matches_bounded (n := length body)). apply le_n.
Qed.
End InstructionBound.

(* ================================================================== *)
(** ** Marker counts and the technique list *)

Lemma found_count (p : re) (content : str) :
  found_by p content = (0 <? length (findall0 p content)).
Proof.
  unfold found_by, findall0, finditer, re_search. rewrite length_map.
  destruct (search_from p 0 true content) eqn:E.
  - apply search_some_finditer in E. symmetry. apply Nat.ltb_lt. lia.
  - rewrite (search_none_finditer _ _ 0 _ _ E). reflexivity.
Qed.

Section Detected.
Context {U : UnicodeDB}.

Lemma detect_positive (key : string) (p : re) (content : str) (d : dict nat) :
  (forall k n, dict_get k d = Some n -> 0 < n) ->
  forall k n,
    dict_get k (LLVMIRParser.detect key p content d) = Some n -> 0 < n.
Proof.
  intros Hd k n. unfold LLVMIRParser.detect.
  destruct (re_search p content) eqn:E; [|apply Hd].
  destruct (str_eqb (s2l key) k) eqn:Ek.
  - apply str_eqb_eq in Ek. subst k. rewrite dict_get_set_same.
    intros H; injection H as <-.
    pose proof (found_count p content) as F. unfold found_by in F.
    rewrite E in F. symmetry in F. apply Nat.ltb_lt in F. exact F.
  - apply str_eqb_neq in Ek. rewrite dict_get_set_other by exact Ek.
    apply Hd.
Qed.

Lemma recorded (key : string) (p : re) (content : str) (d : dict nat) :
  dict_get (s2l key) d
    = (if found_by p content then Some (length (findall0 p content))
       else None) ->
  dict_get_default (s2l key) 0 d = length (findall0 p content).
Proof.
  intros H. unfold dict_get_default. rewrite H.
  rewrite found_count. destruct (length (findall0 p content)); reflexivity.
Qed.

Lemma detected (content : str) :
  let d := LLVMIRParser._detect_obfuscation_patterns content in
  let rec p := if found_by p content
               then Some (length (findall0 p content)) else None in
  dict_get (s2l "string_encryption") d = rec LLVMIRParser.key_pattern /\
  dict_get (s2l "opaque_predicates") d = rec LLVMIRParser.opaque_pattern /\
  dict_get (s2l "bogus_code") d = rec LLVMIRParser.bogus_pattern /\
  dict_get (s2l "fake_loops") d = rec LLVMIRParser.fake_pattern /\
  dict_get (s2l "virtualization") d = rec LLVMIRParser.vm_pattern /\
  dict_get (s2l "control_flow") d = rec LLVMIRParser.flow_pattern.
Proof.
  cbv zeta. unfold LLVMIRParser._detect_obfuscation_patterns, found_by.
  repeat split;
    rewrite ?detect_get_other by reflexivity;
    rewrite detect_get_same;
    rewrite ?detect_get_other by reflexivity;
    match goal with |- context [re_search ?p content] =>
      destruct (re_search p content) end; reflexivity.
Qed.

(** X6. Each of the six marker metrics is the number of non-overlapping
    matches of its pattern in the listing, whether or not the pattern was
    found; a key stored in the pattern dictionary always carries a
    positive count. *)
Theorem marker_metrics_count_matches (content : str) :
  let ms := LLVMIRParser.get_metrics (LLVMIRParser.parse content) in
  string_encryptions ms
    = length (findall0 LLVMIRParser.key_pattern content) /\
  opaque_predicates ms
    = length (findall0 LLVMIRParser.opaque_pattern content) /\
  bogus_code_blocks ms
    = length (findall0 LLVMIRParser.bogus_pattern content) /\
  fake_loops ms
    = length (findall0 LLVMIRParser.fake_pattern content) /\
  virtualized_functions ms
    = length (findall0 LLVMIRParser.vm_pattern content) /\
  control_flow_obfuscations ms
    = length (findall0 LLVMIRParser.flow_pattern content) /\
  (forall k n,
     dict_get k (LLVMIRParser._detect_obfuscation_patterns content) = Some n ->
     0 < n).
Proof.
  cbv zeta.
  cbn [string_encryptions opaque_predicates bogus_code_blocks fake_loops
       virtualized_functions control_flow_obfuscations
       LLVMIRParser.get_metrics LLVMIRParser.parse
       LLVMIRParser.obfuscation_patterns].
  destruct (detected content) as (H1 & H2 & H3 & H4 & H5 & H6).
  repeat (split; [apply recorded; assumption|]).
  unfold LLVMIRParser._detect_obfuscation_patterns.
  repeat apply detect_positive. intros k n H. discriminate H.
Qed.

Lemma listed_found (key text : string) (p : re) (content : str)
    (d : dict nat) :
  dict_get (s2l key) d
    = (if found_by p content then Some (length (findall0 p content))
       else None) ->
  ReportGenerator.listed key text d
  = if found_by p content then [ReportGenerator.technique text] else [].
Proof.
  intros H. unfold ReportGenerator.listed. rewrite (@recorded _ _ _ _ H).
  rewrite <- found_count. reflexivity.
Qed.

(** X8. The technique list has one entry for each marker pattern found
    in the listing, and it is the single default entry exactly when none
    of the six patterns is found. *)
Theorem techniques_follow_the_searches (content : str) :
  let listing :=
    ReportGenerator.techniques
      (LLVMIRParser._detect_obfuscation_patterns content) in
  length listing
    = Nat.max 1
        (length (filter (fun p => found_by p content) marker_patterns)) /\
  (listing = [ReportGenerator.basic_technique]
   <-> forallb (fun p => negb (found_by p content)) marker_patterns = true).
Proof.
  cbv zeta. unfold ReportGenerator.techniques.
  destruct (detected content) as (H1 & H2 & H3 & H4 & H5 & H6).
  rewrite (@listed_found _ _ _ _ _ H1), (@listed_found _ _ _ _ _ H2),
    (@listed_found _ _ _ _ _ H3), (@listed_found _ _ _ _ _ H4), (@listed_found _ _ _ _ _ H5),
    (@listed_found _ _ _ _ _ H6).
  unfold marker_patterns. cbn [filter forallb].
  destruct (found_by LLVMIRParser.key_pattern content);
  destruct (found_by LLVMIRParser.opaque_pattern content);
  destruct (found_by LLVMIRParser.bogus_pattern content);
  destruct (found_by LLVMIRParser.fake_pattern content);
  destruct (found_by LLVMIRParser.vm_pattern content);
  destruct (found_by LLVMIRParser.flow_pattern content);
  (split; [reflexivity|]);
  (split; intros H; [try reflexivity; vm_compute in H; discriminate H
                    | try reflexivity; discriminate H]).
Qed.
End Detected.

Lemma marker_metrics_count_matches_witness :
  fake_loops
    (LLVMIRParser.get_metrics
       (LLVMIRParser.parse (s2l "; Fake loop, dummy for loop"))) = 2 /\
  opaque_predicates
    (LLVMIRParser.get_metrics
       (LLVMIRParser.parse (s2l "; Fake loop, dummy for loop"))) = 0.
Proof.
  destruct (@marker_metrics_count_matches ascii_only
              (s2l "; Fake loop, dummy for loop"))
    as (_ & H2 & _ & H4 & _).
  split; [rewrite H4 | rewrite H2]; reflexivity.
Defined.

(** ** Counting a literal *)

Section KeyCount.
Context {U : UnicodeDB}.

Lemma match_here_key (pos : nat) (bol : bool) (rest : str) :
  match_here LLVMIRParser.key_pattern pos bol rest
  = if startswith (s2l "@__obf_key") rest
    then Some (RMatched pos (pos + 10) [])
    else None.
Proof.
  unfold match_here, LLVMIRParser.key_pattern.
  rewrite rmatch_Lit. cbn [m_rest].
  destruct (startswith (s2l "@__obf_key") rest); [|reflexivity].
  rewrite run_pos, run_caps. reflexivity.
Qed.

Lemma count_key (n : nat) :
  forall rest pos bol, length rest <= n ->
    length (finditer_from LLVMIRParser.key_pattern 0 pos bol rest)
    = occurrences (s2l "@__obf_key") rest.
Proof.
  induction n as [|n IH]; intros rest pos bol Hlen.
  - destruct rest; [reflexivity | simpl in Hlen; lia].
  - destruct rest as [|c rest]; [reflexivity|].
    cbn [finditer_from]. rewrite match_here_key.
    destruct (startswith (s2l "@__obf_key") (c :: rest)) eqn:E;
      cbn [r_end length].
    + apply startswith_prefix in E as [t Ht].
      change (s2l "@__obf_key" ++ t)
        with (ch "@" :: (s2l "__obf_key" ++ t)) in Ht.
      injection Ht as -> ->.
      replace (pos + 10 - pos - 1) with 9 by lia.
      cbn [finditer_from].
      rewrite IH by (simpl in Hlen; lia).
      simpl. lia.
    + rewrite IH by (simpl in Hlen; lia).
      cbn [occurrences]. rewrite E. reflexivity.
Qed.

(** X7. The string-encryption metric is the number of offsets of the
    listing at which the key marker occurs. *)
Theorem string_encryptions_count (content : str) :
  string_encryptions (LLVMIRParser.get_metrics (LLVMIRParser.parse content))
  = occurrences (s2l "@__obf_key") content.
Proof.
  cbn [string_encryptions LLVMIRParser.get_metrics LLVMIRParser.parse
       LLVMIRParser.obfuscation_patterns].
  destruct (detected content) as (H1 & _).
  rewrite (@recorded _ _ _ _ H1). unfold findall0, finditer. rewrite length_map.
  apply (count_key (n := length content)). apply le_n.
Qed.
End KeyCount.

(* ================================================================== *)
(** ** Listings without definitions *)

Lemma startswith_app_self (p t : str) : startswith p (p ++ t) = true.
Proof.
  induction p as [|c p IH]; simpl; [reflexivity|].
  rewrite N.eqb_refl. exact IH.
Qed.

Lemma contains_unfold (p s : str) :
  contains p s
  = startswith p s || match s with [] => false | _ :: s' => contains p s' end.
Proof. destruct s; reflexivity. Qed.

Lemma contains_app (p a t : str) : contains p (a ++ p ++ t) = true.
Proof.
  induction a as [|c a IH].
  - cbn [app]. rewrite contains_unfold, startswith_app_self. reflexivity.
  - cbn [app contains]. rewrite IH. apply orb_true_r.
Qed.

Lemma finditer_none (r : re) (s : str) :
  (forall m, ~ In m (finditer r s)) -> finditer r s = [].
Proof.
  intros H. destruct (finditer r s) as [|m l]; [reflexivity|].
  destruct (H m). left. reflexivity.
Qed.

Lemma split_on_cons (sep : char) (s : str) :
  exists p ps, split_on sep s = p :: ps.
Proof.
  destruct s as [|c s]; cbn [split_on]; [eauto|].
  destruct (c =? sep)%N; [eauto|].
  destruct (split_on sep s); eauto.
Qed.

Lemma join_split_on (sep : char) (s : str) :
  join [sep] (split_on sep s) = s.
Proof.
  induction s as [|c s IH]; [reflexivity|].
  cbn [split_on]. destruct (split_on_cons sep s) as (p & ps & Es).
  rewrite Es in *. destruct (c =? sep)%N eqn:E.
  - apply N.eqb_eq in E. subst c.
    change (join [sep] ([] :: p :: ps)) with (sep :: join [sep] (p :: ps)).
    rewrite IH. reflexivity.
  - rewrite <- IH. destruct ps; reflexivity.
Qed.

Ltac eqb_subst :=
  repeat match goal with
         | H : (_ =? _)%N = true |- _ => apply N.eqb_eq in H; subst
         end.

Section Empty.
Context {U : UnicodeDB}.

Lemma header_needs_define (pos : nat) (bol : bool) (rest : str)
    (m : rmatched) :
  match_here func_pattern pos bol rest = Some m ->
  exists t, rest = s2l "define" ++ t.
Proof.
  intros H. apply match_here_sound in H as (w & c & post & L & -> & _).
  cbn in L. inv_lang; eqb_subst; cbn [app];
    rewrite <- ?app_assoc; cbn [app]; eexists; reflexivity.
Qed.

Lemma no_define_no_header (ir : str) :
  contains (s2l "define") ir = false -> finditer func_pattern ir = [].
Proof.
  intros H. apply finditer_none. intros m Hm.
  apply finditer_from_at in Hm as (a & post & bol & -> & Hm).
  apply header_needs_define in Hm as [t ->].
  rewrite contains_app in H. discriminate.
Qed.

(** X10. A listing in which the word define does not occur has no
    function in either tool: the function and instruction counts are
    zero, the report shows the first 50 lines of the listing followed by
    the truncation notice, and the complexity analysis consists of its
    two heading lines. *)
Theorem listing_without_define (ir : str) :
  contains (s2l "define") ir = false ->
  LLVMIRParser._extract_functions ir = [] /\
  IRToCConverter._extract_functions ir = [] /\
  total_functions (LLVMIRParser.get_metrics (LLVMIRParser.parse ir)) = 0 /\
  total_instructions (LLVMIRParser.get_metrics (LLVMIRParser.parse ir)) = 0 /\
  ReportGenerator._generate_decompiled_code
    (LLVMIRParser._extract_functions ir) ir
  = join [10%N] (firstn 50 (split_on 10%N ir))
    ++ [10%N; 10%N] ++ s2l "// ... (truncated for display) ..." /\
  ReportGenerator._generate_complexity_analysis
    (LLVMIRParser._extract_functions ir)
  = s2l "Function Complexity Analysis:" ++ [10%N] ++ repeat (ch "=") 50.
Proof.
  intros H. apply no_define_no_header in H.
  assert (R : LLVMIRParser._extract_functions ir = []).
  { unfold LLVMIRParser._extract_functions. rewrite H. reflexivity. }
  assert (C : IRToCConverter._extract_functions ir = []).
  { unfold IRToCConverter._extract_functions. rewrite H. reflexivity. }
  split; [exact R|]. split; [exact C|].
  cbn [total_functions total_instructions LLVMIRParser.get_metrics
       LLVMIRParser.parse LLVMIRParser.functions].
  rewrite R. repeat split; reflexivity.
Qed.

(** X11. When no function is shown and the listing has at most 50
    lines, the report shows the whole listing, unchanged, followed by the
    truncation notice. *)
Theorem short_listing_shown_whole (functions : dict FunctionInfo)
    (ir : str) :
  ReportGenerator.shown functions = [] ->
  length (split_on 10%N ir) <= 50 ->
  ReportGenerator._generate_decompiled_code functions ir
  = ir ++ [10%N; 10%N] ++ s2l "// ... (truncated for display) ...".
Proof.
  intros Hs Hl. unfold ReportGenerator._generate_decompiled_code.
  rewrite Hs. cbn [flat_map].
  rewrite firstn_all2 by exact Hl. rewrite join_split_on. reflexivity.
Qed.

(** X9. The functions the report lists (those whose name does not
    begin with two underscores) are, in the same order, the functions the
    converter keeps. *)
Theorem report_lists_what_the_converter_keeps (ir : str) :
  dict_keys (ReportGenerator.shown (LLVMIRParser._extract_functions ir))
  = dict_keys (IRToCConverter._extract_functions ir).
Proof.
  rewrite converter_keys. unfold ReportGenerator.shown, dict_keys.
  rewrite (map_filter_key fst (fun n => negb (startswith (s2l "__") n))).
  apply filter_ext_in. intros n Hn.
  unfold IRToCConverter.skipped.
  assert (E : startswith (s2l "llvm.") n = false).
  { change (map fst (LLVMIRParser._extract_functions ir))
      with (dict_keys (LLVMIRParser._extract_functions ir)) in Hn.
    rewrite report_functions_fill in Hn.
    apply fill_key_In in Hn as (m & Hm & <-).
    apply header_names_not_intrinsic with (content := ir). exact Hm. }
  rewrite E. reflexivity.
Qed.

Lemma needs_at (r : re) :
  (forall w c, lang r w c -> In (ch "@") w) ->
  forall ir, ~ In (ch "@") ir -> finditer r ir = [].
Proof.
  intros Hr ir Hno. apply finditer_none. intros m Hm.
  apply finditer_from_at in Hm as (a & post & bol & -> & Hm).
  apply match_here_sound in Hm as (w & c & post' & L & -> & _).
  apply Hno. apply in_or_app. right. apply in_or_app. left.
  exact (Hr _ _ L).
Qed.

Lemma lang_seq_left (a b : re) (x : char) :
  (forall w c, lang a w c -> In x w) ->
  forall w c, lang (Seq a b) w c -> In x w.
Proof.
  intros Ha w c L. inversion L; subst. apply in_or_app. left. eauto.
Qed.

Lemma lang_seq_right (a b : re) (x : char) :
  (forall w c, lang b w c -> In x w) ->
  forall w c, lang (Seq a b) w c -> In x w.
Proof.
  intros Hb w c L. inversion L; subst. apply in_or_app. right. eauto.
Qed.

Lemma lang_at (w : str) (c : list (nat * str)) :
  lang (Lit (s2l "@")) w c -> In (ch "@") w.
Proof.
  intros L. cbn in L. inv_lang. eqb_subst. left. reflexivity.
Qed.

(** X12. A listing that holds no at sign converts to the fixed preamble
    and nothing else. *)
Theorem listing_without_at_sign (ir : str) :
  ~ In (ch "@") ir ->
  IRToCConverter.convert ir
  = unlines [ "// Decompiled C code from obfuscated LLVM IR";
              "// Note: This is an approximation - exact reconstruction may not be possible";
              "";
              "#include <stdio.h>";
              "#include <stdlib.h>";
              "" ]%string.
Proof.
  intros H. unfold IRToCConverter.convert.
  assert (S : IRToCConverter._extract_strings ir = []).
  { unfold IRToCConverter._extract_strings.
    rewrite (@needs_at IRToCConverter.string_pattern); auto.
    unfold IRToCConverter.string_pattern. cbn [seqs].
    apply lang_seq_left. exact lang_at. }
  assert (G : IRToCConverter._extract_globals ir = []).
  { unfold IRToCConverter._extract_globals.
    rewrite (@needs_at IRToCConverter.global_pattern); auto.
    unfold IRToCConverter.global_pattern. cbn [seqs].
    apply lang_seq_left. exact lang_at. }
  assert (F : IRToCConverter._extract_functions ir = []).
  { unfold IRToCConverter._extract_functions.
    rewrite (@needs_at func_pattern); auto.
    unfold func_pattern. cbn [seqs].
    do 6 apply lang_seq_right. apply lang_seq_left. exact lang_at. }
  rewrite S, G, F. reflexivity.
Qed.
End Empty.

Lemma listing_without_define_witness :
  LLVMIRParser._extract_functions (s2l "declare i32 @puts(ptr)") = [] /\
  IRToCConverter._extract_functions (s2l "declare i32 @puts(ptr)") = [] /\
  total_functions
    (LLVMIRParser.get_metrics
       (LLVMIRParser.parse (s2l "declare i32 @puts(ptr)"))) = 0 /\
  total_instructions
    (LLVMIRParser.get_metrics
       (LLVMIRParser.parse (s2l "declare i32 @puts(ptr)"))) = 0 /\
  ReportGenerator._generate_decompiled_code
    (LLVMIRParser._extract_functions (s2l "declare i32 @puts(ptr)"))
    (s2l "declare i32 @puts(ptr)")
  = join [10%N] (firstn 50 (split_on 10%N (s2l "declare i32 @puts(ptr)")))
    ++ [10%N; 10%N] ++ s2l "// ... (truncated for display) ..." /\
  ReportGenerator._generate_complexity_analysis
    (LLVMIRParser._extract_functions (s2l "declare i32 @puts(ptr)"))
  = s2l "Function Complexity Analysis:" ++ [10%N] ++ repeat (ch "=") 50.
Proof.
  apply (@listing_without_define ascii_only (s2l "declare i32 @puts(ptr)")).
  reflexivity.
Defined.

Lemma short_listing_shown_whole_witness :
  ReportGenerator._generate_decompiled_code
    (LLVMIRParser._extract_functions
       (unlines ["define void @__init() {"; "  ret void ; done"; "}"]%string))
    (unlines ["define void @__init() {"; "  ret void ; done"; "}"]%string)
  = unlines ["define void @__init() {"; "  ret void ; done"; "}"; "";
             "// ... (truncated for display) ..."]%string.
Proof.
  apply (@short_listing_shown_whole ascii_only
           (@LLVMIRParser._extract_functions ascii_only
              (unlines ["define void @__init() {"; "  ret void ; done";
                        "}"]%string))
           (unlines ["define void @__init() {"; "  ret void ; done";
                     "}"]%string)).
  - reflexivity.
  - vm_compute. lia.
Defined.

Lemma listing_without_at_sign_witness :
  IRToCConverter.convert (s2l "target triple = x86_64")
  = unlines [ "// Decompiled C code from obfuscated LLVM IR";
              "// Note: This is an approximation - exact reconstruction may not be possible";
              "";
              "#include <stdio.h>";
              "#include <stdlib.h>";
              "" ]%string.
Proof.
  apply (@listing_without_at_sign ascii_only (s2l "target triple = x86_64")).
  vm_compute. intuition discriminate.
Defined.

(* ================================================================== *)
(** ** Escaping *)

Lemma replace_char_flat_map (old : char) (new : str) (f : char -> str)
    (s : str) :
  replace_char old new (flat_map f s)
  = flat_map (fun c => replace_char old new (f c)) s.
Proof.
  unfold replace_char. induction s as [|c s IH]; [reflexivity|].
  simpl. rewrite flat_map_app. f_equal. exact IH.
Qed.

Lemma replace_char_one (old : char) (new : str) (c : char) :
  replace_char old new [c] = if (c =? old)%N then new else [c].
Proof.
  unfold replace_char. cbn [flat_map]. apply app_nil_r.
Qed.

Lemma flat_map_single (s : str) : flat_map (fun c => [c]) s = s.
Proof.
  induction s as [|c s IH]; [reflexivity|]. cbn [flat_map app]. congruence.
Qed.

Lemma escape_html_chars (text : str) :
  ReportGenerator._escape_html text = flat_map html_entity text.
Proof.
  unfold ReportGenerator._escape_html.
  rewrite <- (flat_map_single text) at 1.
  rewrite !replace_char_flat_map. apply flat_map_ext. intros c.
  rewrite replace_char_one. unfold html_entity.
  destruct (N.eqb_spec c (ch "&")); [reflexivity|].
  rewrite replace_char_one.
  destruct (N.eqb_spec c (ch "<")); [reflexivity|].
  rewrite replace_char_one.
  destruct (N.eqb_spec c (ch ">")); [reflexivity|].
  rewrite replace_char_one.
  destruct (N.eqb_spec c 34%N); [reflexivity|].
  rewrite replace_char_one.
  destruct (N.eqb_spec c 39%N); reflexivity.
Qed.

Lemma html_entity_clean (c : char) :
  forallb (fun x => negb (markup_char x)) (html_entity c) = true.
Proof.
  unfold html_entity.
  destruct (N.eqb_spec c (ch "&")); [reflexivity|].
  destruct (N.eqb_spec c (ch "<")); [reflexivity|].
  destruct (N.eqb_spec c (ch ">")); [reflexivity|].
  destruct (N.eqb_spec c 34%N); [reflexivity|].
  destruct (N.eqb_spec c 39%N); [reflexivity|].
  cbn [forallb]. unfold markup_char.
  repeat match goal with
         | H : c <> ?k |- _ => apply N.eqb_neq in H; rewrite H; clear H
         end.
  reflexivity.
Qed.

(** X13. Escaping for the report replaces each character on its own:
    the ampersand, the angle brackets and the two quotes by their
    entities, any other character by itself.  An ampersand written by an
    earlier replacement is not escaped again; escaping a text piece by
    piece gives the same result; and the result holds no angle bracket
    and no quote. *)
Theorem escape_html_is_characterwise (text more : str) :
  ReportGenerator._escape_html text = flat_map html_entity text /\
  ReportGenerator._escape_html (text ++ more)
    = ReportGenerator._escape_html text ++ ReportGenerator._escape_html more /\
  forallb (fun c => negb (markup_char c)) (ReportGenerator._escape_html text)
    = true.
Proof.
  split; [apply escape_html_chars|].
  split; [rewrite !escape_html_chars; apply flat_map_app|].
  rewrite escape_html_chars.
  induction text as [|c text IH]; [reflexivity|].
  cbn [flat_map]. rewrite forallb_app, html_entity_clean, IH. reflexivity.
Qed.

Lemma html_entity_prefix (x y : char) (a b : str) :
  html_entity x ++ a = html_entity y ++ b -> x = y /\ a = b.
Proof.
  unfold html_entity.
  destruct (N.eqb_spec x (ch "&")); [subst x|];
  [|destruct (N.eqb_spec x (ch "<")); [subst x|];
  [|destruct (N.eqb_spec x (ch ">")); [subst x|];
  [|destruct (N.eqb_spec x 34%N); [subst x|];
  [|destruct (N.eqb_spec x 39%N); [subst x|]]]]];
  (destruct (N.eqb_spec y (ch "&")); [subst y|];
  [|destruct (N.eqb_spec y (ch "<")); [subst y|];
  [|destruct (N.eqb_spec y (ch ">")); [subst y|];
  [|destruct (N.eqb_spec y 34%N); [subst y|];
  [|destruct (N.eqb_spec y 39%N); [subst y|]]]]]);
  intros H; cbn in *;
  try discriminate H;
  try (injection H; intros; subst; split; [reflexivity || congruence
                                          | reflexivity]);
  try (exfalso; injection H; intros; subst; congruence).
Qed.

(** X14. Escaping loses nothing: two texts with the same escaped form
    are the same text. *)
Theorem escape_html_is_injective (a b : str) :
  ReportGenerator._escape_html a = ReportGenerator._escape_html b -> a = b.
Proof.
  rewrite !escape_html_chars. revert b.
  induction a as [|x a IH]; intros [|y b] H; cbn [flat_map] in H.
  - reflexivity.
  - exfalso. symmetry in H. apply app_eq_nil in H as [H _].
    revert H. unfold html_entity.
    repeat match goal with
           | |- context [(y =? ?k)%N] => destruct (y =? k)%N
           end; discriminate.
  - exfalso. apply app_eq_nil in H as [H _].
    revert H. unfold html_entity.
    repeat match goal with
           | |- context [(x =? ?k)%N] => destruct (x =? k)%N
           end; discriminate.
  - apply html_entity_prefix in H as [-> H]. f_equal. apply IH. exact H.
Qed.

Lemma escape_html_is_injective_witness :
  s2l "a<b" = s2l "a<b".
Proof.
  apply (@escape_html_is_injective (s2l "a<b") (s2l "a<b")). reflexivity.
Defined.

Lemma c_escape_chars (value : str) :
  IRToCConverter.c_escape value = flat_map c_entity value.
Proof.
  unfold IRToCConverter.c_escape.
  rewrite <- (flat_map_single value) at 1.
  rewrite !replace_char_flat_map. apply flat_map_ext. intros c.
  rewrite replace_char_one. unfold c_entity.
  destruct (N.eqb_spec c 92%N); [reflexivity|].
  rewrite replace_char_one.
  destruct (N.eqb_spec c 34%N); [reflexivity|].
  rewrite replace_char_one.
  destruct (N.eqb_spec c 10%N); reflexivity.
Qed.

Lemma c_escape_one_line (value : str) :
  ~ In 10%N (IRToCConverter.c_escape value).
Proof.
  rewrite c_escape_chars. intros H. apply in_flat_map in H as (c & _ & H).
  unfold c_entity in H.
  destruct (N.eqb_spec c 92%N); [simpl in H; intuition discriminate|].
  destruct (N.eqb_spec c 34%N); [simpl in H; intuition discriminate|].
  destruct (N.eqb_spec c 10%N); [simpl in H; intuition discriminate|].
  destruct H as [H|[]]. congruence.
Qed.

Section StringLines.
Context {U : UnicodeDB}.

(** X15. No line the converter writes for its string constants holds a
    line feed (U+000A), whatever the decoded constants hold; and the line
    of a constant holds, between its quotes, the constant's characters one
    by one, with backslash, double quote and line feed escaped and every
    other character unchanged.  A carriage return in a constant is
    therefore written into the line as it is: the escaping keeps every
    character other than those three. *)
Theorem string_constant_lines_hold_no_line_feed (ir : str) :
  (forall line,
     In line
       (IRToCConverter.string_lines (IRToCConverter._extract_strings ir)) ->
     ~ In 10%N line) /\
  (forall name value,
     In (name, value) (IRToCConverter._extract_strings ir) ->
     In (s2l "// const char* " ++ name ++ s2l " = " ++ [34%N]
         ++ flat_map c_entity value ++ [34%N] ++ s2l ";")
       (IRToCConverter.string_lines (IRToCConverter._extract_strings ir))) /\
  (forall value c,
     In c value -> c <> 92%N -> c <> 34%N -> c <> 10%N ->
     In c (IRToCConverter.c_escape value)).
Proof.
  split; [|split].
  - intros line H. unfold IRToCConverter.string_lines in H.
    destruct (IRToCConverter._extract_strings ir) as [|e l] eqn:E;
      [destruct H|].
    rewrite <- E in H. clear e l E.
    apply in_app_or in H as [[<-|[]]|H]; [vm_compute; intuition discriminate|].
    apply in_app_or in H as [H|[<-|[]]]; [|intros []].
    apply in_map_iff in H as ([n v] & <- & Hin). cbn [fst snd].
    assert (Hn : ~ In 10%N n).
    { apply fill_In in Hin as [[]|(m & Hm & <- & _)].
      apply finditer_from_sound in Hm as (pos & bol & rest & Hm).
      apply converter_string_name in Hm as (c & w & -> & Hc & Hw).
      intros Hin. assert (Hcw : forallb is_word (c :: w) = true)
        by (simpl; rewrite Hc, Hw; reflexivity).
      rewrite forallb_forall in Hcw. specialize (Hcw _ Hin).
      vm_compute in Hcw. discriminate. }
    intros Hc.
    repeat (apply in_app_or in Hc as [Hc|Hc]);
      first [ exact (Hn Hc)
            | exact (c_escape_one_line _ Hc)
            | vm_compute in Hc; intuition discriminate ].
  - intros name value H. unfold IRToCConverter.string_lines.
    destruct (IRToCConverter._extract_strings ir) as [|e l];
      [destruct H|].
    apply in_or_app. right. apply in_or_app. left.
    apply in_map_iff. exists (name, value). cbn [fst snd].
    rewrite c_escape_chars. split; [reflexivity | exact H].
  - intros value c Hin H92 H34 H10. rewrite c_escape_chars.
    apply in_flat_map. exists c. split; [exact Hin|]. unfold c_entity.
    apply N.eqb_neq in H92, H34, H10. rewrite H92, H34, H10.
    left. reflexivity.
Qed.
End StringLines.

(** A constant that holds a line feed and a carriage return: the line
    feed is escaped, the carriage return is in the line. *)
Lemma string_constant_lines_hold_no_line_feed_witness :
  In (s2l "// const char* s = " ++ [34%N] ++ s2l "a\nb" ++ [13%N]
      ++ s2l "c" ++ [34%N] ++ s2l ";")
    (IRToCConverter.string_lines
       (IRToCConverter._extract_strings
          (s2l "@s = constant c" ++ [34%N] ++ s2l "a\nb\rc" ++ [34%N]))) /\
  ~ In 10%N (s2l "// const char* s = " ++ [34%N] ++ s2l "a\nb" ++ [13%N]
             ++ s2l "c" ++ [34%N] ++ s2l ";").
Proof.
  destruct (@string_constant_lines_hold_no_line_feed ascii_only
              (s2l "@s = constant c" ++ [34%N] ++ s2l "a\nb\rc" ++ [34%N]))
    as (H1 & H2 & _).
  assert (H : In (s2l "// const char* s = " ++ [34%N] ++ s2l "a\nb" ++ [13%N]
      ++ s2l "c" ++ [34%N] ++ s2l ";")
    (IRToCConverter.string_lines
       (IRToCConverter._extract_strings
          (s2l "@s = constant c" ++ [34%N] ++ s2l "a\nb\rc" ++ [34%N])))).
  { apply (H2 (s2l "s") [ch "a"; 10%N; ch "b"; 13%N; ch "c"]).
    vm_compute. left. reflexivity. }
  split; [exact H | exact (H1 _ H)].
Defined.

(* ================================================================== *)
(** ** Parameters and types *)

(** ** Blank texts *)

Lemma lstrip_nil (s : str) : lstrip s = [] -> forallb is_space s = true.
Proof.
  induction s as [|c s IH]; simpl; [reflexivity|].
  destruct (is_space c); [exact IH | discriminate].
Qed.

Lemma strip_nil (s : str) : strip s = [] -> forallb is_space s = true.
Proof.
  unfold strip, rstrip. intros H.
  apply (f_equal (@rev char)) in H. rewrite rev_involutive in H.
  cbn [rev] in H. apply lstrip_nil in H.
  assert (Hl : forallb is_space (lstrip s) = true).
  { rewrite forallb_forall in *. intros x Hx. apply H. apply in_rev.
    rewrite rev_involutive. exact Hx. }
  pose proof (lstrip_head s) as Hh.
  destruct (lstrip s) as [|c y] eqn:E; [apply lstrip_nil; exact E|].
  simpl in Hl. rewrite Hh in Hl. discriminate.
Qed.

Lemma split_on_absent (sep : char) (s : str) :
  forallb (fun c => negb (c =? sep)%N) s = true -> split_on sep s = [s].
Proof.
  induction s as [|c s IH]; [reflexivity|].
  cbn [forallb split_on]. intros H. apply andb_true_iff in H as [Hc Hs].
  apply negb_true_iff in Hc. rewrite Hc, (IH Hs). reflexivity.
Qed.

Lemma space_not_comma (s : str) :
  forallb is_space s = true ->
  forallb (fun c => negb (c =? ch ",")%N) s = true.
Proof.
  rewrite !forallb_forall. intros H x Hx. specialize (H _ Hx).
  destruct (N.eqb_spec x (ch ",")); [|reflexivity].
  subst x. vm_compute in H. discriminate.
Qed.

Section Params.
Context {U : UnicodeDB}.

(** X16. The report tool's parameter list is the converter's, parameter
    by parameter, each reduced to its name; so both tools see the same
    number of parameters. *)
Theorem tools_parse_the_same_parameters (params_str : str) :
  LLVMIRParser._parse_params params_str
    = map param_name (IRToCConverter._parse_params params_str) /\
  length (LLVMIRParser._parse_params params_str)
    = length (IRToCConverter._parse_params params_str).
Proof.
  assert (E : LLVMIRParser._parse_params params_str
              = map param_name (IRToCConverter._parse_params params_str));
    [|split; [exact E | rewrite E; apply length_map]].
  unfold LLVMIRParser._parse_params, IRToCConverter._parse_params.
  assert (G : forall l,
    flat_map
      (fun param =>
         if LLVMIRParser.nonempty (strip param) then
           match re_search LLVMIRParser.param_name_pattern (strip param) with
           | Some m => [matched_text (strip param) m]
           | None => [strip param]
           end
         else []) l
    = map param_name
        (map strip (filter (fun p => LLVMIRParser.nonempty (strip p)) l))).
  { induction l as [|p l IH]; [reflexivity|].
    cbn [flat_map filter].
    destruct (LLVMIRParser.nonempty (strip p)); cbn [map app].
    - rewrite IH. unfold param_name at 2.
      destruct (re_search LLVMIRParser.param_name_pattern (strip p));
        reflexivity.
    - exact IH. }
  destruct params_str as [|c s]; [reflexivity|].
  cbn [LLVMIRParser.nonempty negb].
  destruct (LLVMIRParser.nonempty (strip (c :: s))) eqn:E; cbn [negb].
  - apply G.
  - assert (Hs : strip (c :: s) = [])
      by (destruct (strip (c :: s)); [reflexivity | discriminate]).
    pose proof (@strip_nil _ Hs) as Hb.
    rewrite (@split_on_absent _ _ (@space_not_comma _ Hb)).
    cbn [flat_map]. rewrite E. reflexivity.
Qed.
End Params.

(** ** Texts within texts *)

Lemma contains_split (p s : str) :
  contains p s = true -> exists a b, s = a ++ p ++ b.
Proof.
  induction s as [|c s IH]; rewrite contains_unfold; intros H.
  - rewrite orb_false_r in H. apply startswith_prefix in H as [t Ht].
    exists [], t. exact Ht.
  - apply orb_true_iff in H as [H|H].
    + apply startswith_prefix in H as [t Ht]. exists [], t. exact Ht.
    + apply IH in H as (a & b & ->). exists (c :: a), b. reflexivity.
Qed.

Lemma contains_iff (p s : str) :
  contains p s = true <-> exists a b, s = a ++ p ++ b.
Proof.
  split; [apply contains_split|]. intros (a & b & ->). apply contains_app.
Qed.

Lemma contains_rev (p s : str) : contains (rev p) (rev s) = contains p s.
Proof.
  apply eq_true_iff_eq. rewrite !contains_iff. split; intros (a & b & H).
  - exists (rev b), (rev a).
    apply (f_equal (@rev char)) in H. rewrite rev_involutive in H.
    rewrite H, !rev_app_distr, rev_involutive, app_assoc. reflexivity.
  - exists (rev b), (rev a). rewrite H, !rev_app_distr, app_assoc.
    reflexivity.
Qed.

Lemma contains_lstrip (x : char) (p s : str) :
  is_space x = false -> contains (x :: p) (lstrip s) = contains (x :: p) s.
Proof.
  intros Hx. induction s as [|c s IH]; [reflexivity|].
  cbn [lstrip]. destruct (is_space c) eqn:Ec; [|reflexivity].
  rewrite IH. rewrite (contains_unfold (x :: p) (c :: s)).
  cbn [startswith]. destruct (N.eqb_spec x c); [congruence|]. reflexivity.
Qed.

Lemma contains_strip (x y : char) (p q s : str) :
  is_space x = false -> is_space y = false -> x :: p = q ++ [y] ->
  contains (x :: p) (strip s) = contains (x :: p) s.
Proof.
  intros Hx Hy E. unfold strip, rstrip.
  rewrite <- (@contains_lstrip x p s Hx).
  generalize (lstrip s) as t. intros t.
  rewrite <- (contains_rev (x :: p) (rev (lstrip (rev t)))).
  rewrite rev_involutive. rewrite E, rev_app_distr. cbn [rev app].
  rewrite (@contains_lstrip y _ _ Hy).
  rewrite <- (rev_involutive q) at 2.
  change (y :: rev q) with (rev [y] ++ rev q).
  rewrite <- rev_app_distr. rewrite contains_rev. rewrite rev_involutive.
  reflexivity.
Qed.

Lemma contains_longer (p q s : str) :
  contains (p ++ q) s = true -> contains p s = true.
Proof.
  rewrite !contains_iff. intros (a & b & ->). exists a, (q ++ b).
  rewrite <- app_assoc. reflexivity.
Qed.

Section Types.
Context {U : UnicodeDB}.

Ltac strip_out k t :=
  let H := fresh in
  assert (H : contains (s2l k) (strip t) = contains (s2l k) t)
    by exact (@contains_strip (hd 0%N (s2l k)) (last (s2l k) 0%N)
                (tl (s2l k)) (removelast (s2l k)) t
                eq_refl eq_refl eq_refl);
  rewrite H; clear H.

(** X18. Both tools always answer with one of ten C type names, and
    they give the same answer for every type text that contains neither
    i64 nor i1. *)
Theorem type_lowering (t : str) :
  In (CDecompiler._convert_type t) c_types /\
  In (IRToCConverter._llvm_to_c_type t) c_types /\
  (contains (s2l "i64") t = false -> contains (s2l "i1") t = false ->
   CDecompiler._convert_type t = IRToCConverter._llvm_to_c_type t).
Proof.
  unfold CDecompiler._convert_type, IRToCConverter._llvm_to_c_type.
  cbn [CDecompiler.first_type CDecompiler.type_map IRToCConverter.type_map].
  strip_out "i32"%string t. strip_out "i64"%string t. strip_out "i8"%string t.
  strip_out "i16"%string t. strip_out "void"%string t. strip_out "float"%string t.
  strip_out "double"%string t. strip_out "i1"%string t. strip_out "ptr"%string t.
  strip_out "*"%string t.
  assert (H16 : contains (s2l "i1") t = false ->
                contains (s2l "i16") t = false).
  { intros H. destruct (contains (s2l "i16") t) eqn:E; [|reflexivity].
    apply (@contains_longer (s2l "i1") (s2l "6")) in E. congruence. }
  split; [|split].
  - repeat match goal with
           | |- context [if ?b then _ else _] => destruct b
           end; vm_compute; tauto.
  - repeat match goal with
           | |- context [if ?b then _ else _] => destruct b
           end; vm_compute; tauto.
  - intros H64 H1. rewrite (H16 H1), H64, H1.
    repeat match goal with
           | |- context [if ?b then _ else _] => destruct b
           end; reflexivity.
Qed.
End Types.

Lemma type_lowering_witness :
  CDecompiler._convert_type (s2l "i32*") = s2l "int" /\
  IRToCConverter._llvm_to_c_type (s2l "i32*") = s2l "int".
Proof.
  destruct (@type_lowering (s2l "i32*")) as (_ & _ & H).
  split; [reflexivity|]. rewrite <- H; reflexivity.
Defined.

Lemma split_ws_from_pending (s cur : str) :
  cur <> [] -> split_ws_from cur s <> [].
Proof.
  revert cur. induction s as [|c s IH]; intros cur H; cbn [split_ws_from].
  - destruct cur; [destruct H; reflexivity | discriminate].
  - destruct (is_space c).
    + destruct cur; [destruct H; reflexivity | discriminate].
    + apply IH. discriminate.
Qed.

Lemma strip_head (s : str) :
  match strip s with [] => True | c :: _ => is_space c = false end.
Proof.
  unfold strip. pose proof (lstrip_head s) as H.
  destruct (lstrip s) as [|c y]; [exact I|].
  destruct (@rstrip_nonspace_head c y H) as [t ->]. exact H.
Qed.

Section Indexing.
Context {U : UnicodeDB}.

(** X17. Every parameter the converter keeps is non-empty, trimmed and
    has a first word, so taking its first and its last word for the
    signature line cannot fail. *)
Theorem parameters_have_a_first_word (params_str p : str) :
  In p (IRToCConverter._parse_params params_str) ->
  p <> [] /\ strip p = p /\ split_ws p <> [].
Proof.
  unfold IRToCConverter._parse_params.
  destruct (negb _); [intros []|]. intros H.
  apply in_map_iff in H as (x & <- & Hx). apply filter_In in Hx as [_ Hne].
  pose proof (strip_head x) as Hh.
  destruct (strip x) as [|c t] eqn:E; [discriminate Hne|].
  split; [discriminate|]. split; [rewrite <- E; apply strip_idem|].
  unfold split_ws. cbn [split_ws_from]. rewrite Hh.
  apply split_ws_from_pending. discriminate.
Qed.

(** X21. When the arithmetic pattern matches, the operator it captured
    is add, sub or mul, so looking up its symbol cannot miss. *)
Theorem operator_lookup_never_misses (instr : str) (m : rmatched) :
  re_search CDecompiler.arith_pattern instr = Some m ->
  In (group 1 m) [s2l "add"; s2l "sub"; s2l "mul"].
Proof.
  intros H. apply search_matched_text in H as (w & c & L & _ & Hc).
  unfold group. rewrite Hc. clear Hc.
  unfold CDecompiler.arith_pattern in L. cbn in L. inv_lang; eqb_subst;
    simpl; auto.
Qed.
End Indexing.

Lemma parameters_have_a_first_word_witness :
  s2l "i32 %a" <> [] /\ strip (s2l "i32 %a") = s2l "i32 %a"
  /\ split_ws (s2l "i32 %a") <> [].
Proof.
  apply (@parameters_have_a_first_word (s2l " i32 %a , ptr %b")).
  vm_compute. left. reflexivity.
Defined.

Lemma operator_lookup_never_misses_witness :
  In (s2l "sub") [s2l "add"; s2l "sub"; s2l "mul"].
Proof.
  apply (@operator_lookup_never_misses (s2l "%3 = sub i32 %1, %2")
           (RMatched 5 19 [(3, s2l "%2"); (2, s2l "i32 %1"); (1, s2l "sub")])).
  vm_compute. reflexivity.
Defined.

(* ================================================================== *)
(** ** Lowered lines *)

Lemma truthy_app_r (a b : str) : b <> [] -> truthy (Some (a ++ b)) = true.
Proof.
  intros Hb. destruct a; [|reflexivity].
  destruct b; [destruct Hb|]; reflexivity.
Qed.

Section Calls.
Context {U : UnicodeDB}.

Lemma call_name_word (instr : str) (m : rmatched) :
  re_search call_pattern instr = Some m ->
  forallb is_word (group 1 m) = true.
Proof.
  intros H. apply search_matched_text in H as (w & c & L & _ & Hc).
  unfold group. rewrite Hc. clear Hc.
  unfold call_pattern in L. cbn in L. inv_lang. simpl.
  match goal with
  | H1 : is_word _ = true, H2 : forallb is_word _ = true |- _ =>
      rewrite H1, H2; reflexivity
  end.
Qed.

(** X20. The test for intrinsic names in the call rule never fires, in
    either tool: the captured name is a run of word characters, so the
    rule never elides a call. *)
Theorem calls_are_never_elided (instr : str) :
  CDecompiler.call_rule instr <> Some None /\
  IRToCConverter.call_rule instr <> Some None.
Proof.
  unfold CDecompiler.call_rule, IRToCConverter.call_rule.
  destruct (contains (s2l "call") instr); [|split; discriminate].
  destruct (re_search call_pattern instr) as [m|] eqn:E;
    [|split; discriminate].
  rewrite (word_not_intrinsic _ (call_name_word _ E)).
  split; [discriminate|].
  destruct (re_search IRToCConverter.args_pattern instr); discriminate.
Qed.

Lemma binop_rule_truthy (table : list (string * string)) (instr : str) :
  match IRToCConverter.binop_rule table instr with
  | Some r => truthy r = true
  | None => True
  end.
Proof.
  induction table as [|[op symbol] table IH]; [exact I|].
  cbn [IRToCConverter.binop_rule].
  destruct (contains (s2l op) instr); [|exact IH].
  destruct (re_search (IRToCConverter.binop_pattern (s2l op)) instr);
    [reflexivity | exact IH].
Qed.

(** X19. No lowering rule of either tool produces the empty string, so
    the truth test applied to a lowered line drops an instruction only
    when no rule gave a line. *)
Theorem lowering_never_gives_an_empty_line (instr : str) :
  truthy (CDecompiler._convert_instruction instr)
    = lowered (CDecompiler._convert_instruction instr) /\
  truthy (IRToCConverter._convert_instruction instr)
    = lowered (IRToCConverter._convert_instruction instr).
Proof.
  split.
  - unfold CDecompiler._convert_instruction.
    set (i := re_sub_empty assign_pattern instr).
    destruct (CDecompiler.call_rule i) as [[r|]|] eqn:Ec.
    + revert Ec. unfold CDecompiler.call_rule.
      destruct (contains (s2l "call") i); [|discriminate].
      destruct (re_search call_pattern i); [|discriminate].
      destruct (startswith (s2l "llvm.") _); [discriminate|].
      intros H; injection H as <-. apply truthy_app_r. discriminate.
    + reflexivity.
    + unfold CDecompiler.ret_rule, CDecompiler.arith_rule.
      repeat match goal with
             | |- context [if ?b then _ else _] => destruct b
             | |- context [match re_search ?p ?s with _ => _ end] =>
                 destruct (re_search p s)
             end; reflexivity.
  - unfold IRToCConverter._convert_instruction.
    set (i := re_sub_empty assign_pattern instr).
    destruct (IRToCConverter.ret_rule i) as [r|] eqn:Er.
    { revert Er. unfold IRToCConverter.ret_rule.
      repeat match goal with
             | |- context [if ?b then _ else _] => destruct b
             | |- context [match re_search ?p ?s with _ => _ end] =>
                 destruct (re_search p s)
             end; intros H; try discriminate H; injection H as <-;
        reflexivity. }
    destruct (IRToCConverter.call_rule i) as [[r|]|] eqn:Ec.
    { revert Ec. unfold IRToCConverter.call_rule.
      destruct (contains (s2l "call") i); [|discriminate].
      destruct (re_search call_pattern i); [|discriminate].
      destruct (startswith (s2l "llvm.") _); [discriminate|].
      destruct (re_search IRToCConverter.args_pattern i);
        intros H; injection H as <-.
      - apply truthy_app_r. simpl. discriminate.
      - apply truthy_app_r. discriminate. }
    { reflexivity. }
    pose proof (binop_rule_truthy IRToCConverter.arith_table i) as Ha.
    destruct (IRToCConverter.binop_rule IRToCConverter.arith_table i)
      as [r|].
    { rewrite Ha. destruct r; [reflexivity | discriminate Ha]. }
    pose proof (binop_rule_truthy IRToCConverter.cmp_table i) as Hb.
    destruct (IRToCConverter.binop_rule IRToCConverter.cmp_table i)
      as [r|].
    { rewrite Hb. destruct r; [reflexivity | discriminate Hb]. }
    repeat match goal with
           | |- context [if ?b then _ else _] => destruct b
           end; reflexivity.
Qed.
End Calls.

(* ================================================================== *)
(** ** Escapes in string payloads *)

Section Octal.
Context {U : UnicodeDB}.



End Octal.


(* ================================================================== *)
(** ** A listing with one function *)

(** The matcher, step by step, on a text of known shape. *)

Lemma run_state (w : str) :
  forall pos bol rest caps,
    run w (MState pos bol (w ++ rest) caps)
    = MState (pos + length w) (bol_after bol w) rest caps.
Proof.
  induction w as [|c w IH]; intros pos bol rest caps.
  - cbn [run app length bol_after]. rewrite Nat.add_0_r. reflexivity.
  - change (run (c :: w) (MState pos bol ((c :: w) ++ rest) caps))
      with (run w (MState (S pos) (c =? 10)%N (w ++ rest) caps)).
    rewrite IH. cbn [length bol_after]. f_equal. lia.
Qed.

Lemma step_lit {R} (s rest : str) (pos : nat) (bol : bool)
    (caps : list (nat * str)) (k : mstate -> option R) :
  rmatch (Lit s) (MState pos bol (s ++ rest) caps) k
  = k (MState (pos + length s) (bol_after bol s) rest caps).
Proof.
  rewrite rmatch_Lit. cbn [m_rest]. rewrite startswith_app_self, run_state.
  reflexivity.
Qed.

Lemma step_star {R} (p : char -> bool) (w rest : str) (pos : nat)
    (bol : bool) (caps : list (nat * str)) (k : mstate -> option R) (x : R) :
  forallb p w = true ->
  match rest with [] => true | c :: _ => negb (p c) end = true ->
  k (MState (pos + length w) (bol_after bol w) rest caps) = Some x ->
  rmatch (Star p) (MState pos bol (w ++ rest) caps) k = Some x.
Proof.
  intros Hw Hstop Hk. cbn [rmatch m_rest].
  apply star_greedy_stop; try assumption; try reflexivity.
  rewrite run_state. exact Hk.
Qed.

Lemma step_plus {R} (p : char -> bool) (w rest : str) (pos : nat)
    (bol : bool) (caps : list (nat * str)) (k : mstate -> option R) (x : R) :
  w <> [] -> forallb p w = true ->
  match rest with [] => true | c :: _ => negb (p c) end = true ->
  k (MState (pos + length w) (bol_after bol w) rest caps) = Some x ->
  rmatch (Plus p) (MState pos bol (w ++ rest) caps) k = Some x.
Proof.
  intros Hne Hw Hstop Hk. destruct w as [|c w]; [congruence|].
  cbn [forallb] in Hw. apply andb_true_iff in Hw as [Hc Hw].
  unfold Plus. cbn [rmatch m_rest app]. rewrite Hc.
  unfold advance. cbn [m_pos m_caps].
  apply (@step_star R p w rest (S pos) (c =? 10)%N caps k x Hw Hstop).
  cbn [length bol_after] in Hk. rewrite <- Hk. f_equal. f_equal. lia.
Qed.

Lemma star_lazy_through {R} (p : char -> bool) (k : mstate -> option R)
    (x : R) (w : str) :
  forall rest pos bol caps,
    forallb p w = true ->
    (forall u v, w = u ++ v -> v <> [] ->
       k (MState (pos + length u) (bol_after bol u) (v ++ rest) caps) = None) ->
    k (MState (pos + length w) (bol_after bol w) rest caps) = Some x ->
    star_lazy p (w ++ rest) (MState pos bol (w ++ rest) caps) k = Some x.
Proof.
  induction w as [|c w IH]; intros rest pos bol caps Hw Hfail Hk.
  - cbn [app length bol_after] in *. rewrite Nat.add_0_r in Hk.
    destruct rest; cbn [star_lazy]; rewrite Hk; reflexivity.
  - cbn [forallb] in Hw. apply andb_true_iff in Hw as [Hc Hw].
    cbn [app star_lazy].
    pose proof (Hfail [] (c :: w) eq_refl) as H0.
    cbn [length bol_after app] in H0. rewrite Nat.add_0_r in H0.
    rewrite H0 by discriminate. cbn [orelse]. rewrite Hc.
    cbn [advance m_pos m_caps].
    unfold advance. cbn [m_pos m_caps].
    apply IH; [exact Hw | |].
    + intros u v E Hv. specialize (Hfail (c :: u) v).
      cbn [length bol_after app] in Hfail.
      replace (S pos + length u) with (pos + S (length u)) by lia.
      apply Hfail; [rewrite E; reflexivity | exact Hv].
    + cbn [length bol_after] in Hk. rewrite <- Hk. f_equal. f_equal. lia.
Qed.

Lemma step_plus_lazy {R} (p : char -> bool) (w rest : str) (pos : nat)
    (bol : bool) (caps : list (nat * str)) (k : mstate -> option R) (x : R) :
  w <> [] -> forallb p w = true ->
  (forall u v, w = u ++ v -> u <> [] -> v <> [] ->
     k (MState (pos + length u) (bol_after bol u) (v ++ rest) caps) = None) ->
  k (MState (pos + length w) (bol_after bol w) rest caps) = Some x ->
  rmatch (PlusLazy p) (MState pos bol (w ++ rest) caps) k = Some x.
Proof.
  intros Hne Hw Hfail Hk. destruct w as [|c w]; [congruence|].
  cbn [forallb] in Hw. apply andb_true_iff in Hw as [Hc Hw].
  unfold PlusLazy. cbn [rmatch m_rest app]. rewrite Hc.
  unfold advance. cbn [m_pos m_caps].
  apply star_lazy_through; [exact Hw | |].
  - intros u v E Hv. specialize (Hfail (c :: u) v).
    cbn [length bol_after app] in Hfail.
    replace (S pos + length u) with (pos + S (length u)) by lia.
    apply Hfail; [rewrite E; reflexivity | discriminate | exact Hv].
  - cbn [length bol_after] in Hk. rewrite <- Hk. f_equal. f_equal. lia.
Qed.

Lemma startswith_before (p w rest : str) (x : char) :
  ~ In x p -> startswith p (w ++ [x] ++ rest) = startswith p w.
Proof.
  revert w. induction p as [|a p IH]; intros w Hx; [reflexivity|].
  destruct w as [|b w]; cbn [app startswith].
  - destruct (N.eqb_spec a x); [|reflexivity].
    subst x. destruct Hx. left. reflexivity.
  - rewrite IH; [reflexivity|]. intros H. apply Hx. right. exact H.
Qed.

Section Header.
Context {U : UnicodeDB}.

Lemma match_here_header (pos : nat) (bol : bool)
    (ty fname ps tail : str) :
  plain_word ty = true ->
  startswith (s2l "dso_local") ty = false ->
  startswith (s2l "internal") ty = false ->
  fname <> [] -> forallb is_word fname = true ->
  forallb (is_not ")") ps = true ->
  match_here func_pattern pos bol
    (s2l "define " ++ ty ++ s2l " @" ++ fname ++ s2l "(" ++ ps
     ++ s2l ") {" ++ tail)
  = Some (RMatched pos
            (pos + (length ty + length fname + length ps + 13))
            [(3, ps); (2, fname); (1, ty)]).
Proof.
  intros Hty Hd Hi Hf Hw Hps.
  assert (Hne : ty <> []) by (destruct ty; [discriminate | discriminate]).
  assert (Hall : forallb (fun c => negb (is_space c) && is_not "@" c) ty
                 = true) by (destruct ty; [discriminate | exact Hty]).
  assert (Hns : forallb (fun c => negb (is_space c)) ty = true).
  { rewrite forallb_forall in *. intros c Hc.
    apply Hall in Hc. apply andb_true_iff in Hc. tauto. }
  assert (Hna : forallb (is_not "@") ty = true).
  { rewrite forallb_forall in *. intros c Hc.
    apply Hall in Hc. apply andb_true_iff in Hc. tauto. }
  unfold match_here, func_pattern. cbn [seqs rmatch].
  change (s2l "define " ++ ty ++ s2l " @" ++ fname ++ s2l "(" ++ ps
          ++ s2l ") {" ++ tail)
    with (s2l "define" ++ [32%N] ++ ty ++ [32%N] ++ s2l "@" ++ fname
          ++ s2l "(" ++ ps ++ s2l ")" ++ [32%N] ++ s2l "{" ++ tail).
  rewrite step_lit.
  apply step_plus; [discriminate | reflexivity | |].
  { destruct ty as [|c ty]; [congruence|]. cbn [app].
    cbn [forallb] in Hns. apply andb_true_iff in Hns as [Hc _].
    exact Hc. }
  unfold Opt at 1. cbn [rmatch]. rewrite rmatch_Lit. cbn [m_rest].
  rewrite (@startswith_before (s2l "dso_local") ty _ 32%N)
    by (vm_compute; intuition discriminate).
  rewrite Hd. cbn [orelse].
  unfold Opt at 1. cbn [rmatch]. rewrite rmatch_Lit. cbn [m_rest].
  rewrite (@startswith_before (s2l "internal") ty _ 32%N)
    by (vm_compute; intuition discriminate).
  rewrite Hi. cbn [orelse].
  apply step_plus_lazy; [exact Hne | exact Hna | |].
  { intros u v E Hu Hv. destruct v as [|c v]; [congruence|].
    assert (Hc : is_space c = false).
    { rewrite forallb_forall in Hns. apply negb_true_iff, Hns.
      rewrite E. apply in_or_app. right. left. reflexivity. }
    unfold Plus. cbn [rmatch m_rest app]. rewrite Hc. reflexivity. }
  cbn [m_pos m_bol m_rest m_caps].
  apply step_plus; [discriminate | reflexivity | reflexivity |].
  rewrite step_lit.
  apply step_plus; [exact Hf | exact Hw | reflexivity |].
  cbn [m_pos m_bol m_rest m_caps].
  apply (@step_star _ is_space []
           (s2l "(" ++ ps ++ s2l ")" ++ [32%N] ++ s2l "{" ++ tail));
    [reflexivity | reflexivity |].
  rewrite step_lit.
  apply step_star; [exact Hps | reflexivity |].
  cbn [m_pos m_bol m_rest m_caps].
  rewrite step_lit.
  apply (@step_star _ is_space [32%N] _); [reflexivity | reflexivity |].
  rewrite step_lit.
  cbn [m_pos m_caps length app].
  change (length (s2l "define")) with 6. change (length (s2l "@")) with 1.
  change (length (s2l "(")) with 1. change (length (s2l ")")) with 1.
  change (length (s2l "{")) with 1.
  f_equal. f_equal; [lia|].
  repeat f_equal.
  - replace (_ - _) with (length ps) by lia.
    rewrite firstn_app, Nat.sub_diag, firstn_all. apply app_nil_r.
  - replace (_ - _) with (length fname) by lia.
    rewrite firstn_app, Nat.sub_diag, firstn_all. apply app_nil_r.
  - replace (_ - _) with (length ty) by lia.
    rewrite firstn_app, Nat.sub_diag, firstn_all. apply app_nil_r.
Qed.
End Header.

Lemma header_text_app (ty fname ps tail : str) :
  header_text ty fname ps ++ tail
  = s2l "define " ++ ty ++ s2l " @" ++ fname ++ s2l "(" ++ ps
    ++ s2l ") {" ++ tail.
Proof. unfold header_text. rewrite <- !app_assoc. reflexivity. Qed.

Lemma header_text_length (ty fname ps : str) :
  length (header_text ty fname ps)
  = length ty + length fname + length ps + 13.
Proof.
  unfold header_text. rewrite !length_app.
  change (length (s2l "define ")) with 7. change (length (s2l " @")) with 2.
  change (length (s2l "(")) with 1. change (length (s2l ") {")) with 3. lia.
Qed.

Lemma strip_plain (s : str) :
  forallb (fun c => negb (is_space c)) s = true -> strip s = s.
Proof.
  intros H.
  assert (L : forall t, forallb (fun c => negb (is_space c)) t = true ->
                        lstrip t = t).
  { intros [|c t] Ht; [reflexivity|]. cbn [forallb] in Ht.
    apply andb_true_iff in Ht as [Hc _]. apply negb_true_iff in Hc.
    apply lstrip_nonspace. exact Hc. }
  unfold strip, rstrip. rewrite (L s H).
  rewrite L; [apply rev_involutive|].
  rewrite forallb_forall in *. intros x Hx. apply H. apply in_rev. exact Hx.
Qed.

Section Pipeline.
Context {U : UnicodeDB}.

Lemma no_define_from (rest : str) (skip pos : nat) (bol : bool) :
  contains (s2l "define") rest = false ->
  finditer_from func_pattern skip pos bol rest = [].
Proof.
  intros H.
  destruct (finditer_from func_pattern skip pos bol rest) as [|m l] eqn:E;
    [reflexivity|].
  assert (Hm : In m (finditer_from func_pattern skip pos bol rest))
    by (rewrite E; left; reflexivity).
  apply finditer_from_at in Hm as (a & post & bol' & -> & Hm).
  apply header_needs_define in Hm as [t ->].
  rewrite contains_app in H. discriminate.
Qed.

Lemma single_header (ty fname ps tail : str) :
  plain_word ty = true ->
  startswith (s2l "dso_local") ty = false ->
  startswith (s2l "internal") ty = false ->
  fname <> [] -> forallb is_word fname = true ->
  forallb (is_not ")") ps = true ->
  contains (s2l "define") tail = false ->
  finditer func_pattern (header_text ty fname ps ++ tail)
  = [RMatched 0 (length (header_text ty fname ps))
       [(3, ps); (2, fname); (1, ty)]].
Proof.
  intros Hty Hd Hi Hf Hw Hps Hno.
  pose proof (@match_here_header U 0 true ty fname ps tail
                Hty Hd Hi Hf Hw Hps) as M.
  rewrite <- header_text_app, <- header_text_length in M. cbn [Nat.add] in M.
  unfold finditer.
  assert (E : exists h, header_text ty fname ps = ch "d" :: h)
    by (eexists; reflexivity).
  destruct E as [h E]. rewrite E in *. cbn [app] in *.
  cbn [finditer_from]. rewrite M. cbn [r_end length].
  replace (S (length h) - 0 - 1) with (length h) by lia.
  rewrite finditer_from_skip, no_define_from by exact Hno. reflexivity.
Qed.

(** X24. A listing made of one function in the plain form (the word
    define, a one-word return type that is not a linkage keyword, the
    name, the parameter text in parentheses, an opening brace, a body
    whose braces are balanced, a closing brace, and no further define) is
    read as intended: the report tool's collection is the one entry with
    that name, type, parsed parameters and the instruction entries and
    block count of the body, and the converter's collection is the one
    entry with that type, parameter text and body, unless the converter
    skips the name. *)
Theorem single_function_listing (ty fname ps body post : str) :
  plain_word ty = true ->
  startswith (s2l "dso_local") ty = false ->
  startswith (s2l "internal") ty = false ->
  fname <> [] -> forallb is_word fname = true ->
  forallb (is_not ")") ps = true ->
  depth_after 0 body = Some 0 ->
  contains (s2l "define") (body ++ s2l "}" ++ post) = false ->
  let content := header_text ty fname ps ++ body ++ s2l "}" ++ post in
  LLVMIRParser._extract_functions content
    = [(fname,
        {| name := fname;
           params := LLVMIRParser._parse_params (strip ps);
           return_type := ty;
           instructions := LLVMIRParser.extract_instructions body;
           basic_blocks := LLVMIRParser.count_basic_blocks body;
           complexity := length (LLVMIRParser.extract_instructions body)
                         + LLVMIRParser.count_basic_blocks body * 2 |})] /\
  IRToCConverter._extract_functions content
    = if IRToCConverter.skipped fname then []
      else [(fname,
             {| IRToCConverter.fe_return_type := ty;
                IRToCConverter.fe_params := strip ps;
                IRToCConverter.fe_body := body;
                IRToCConverter.fe_name := fname |})].
Proof.
  intros Hty Hd Hi Hf Hw Hps Hb Hno content.
  assert (Hs : strip ty = ty).
  { apply strip_plain. destruct ty; [discriminate|].
    unfold plain_word in Hty. rewrite forallb_forall in *.
    intros x Hx. apply Hty in Hx. apply andb_true_iff in Hx. tauto. }
  assert (Hbody : function_body content
                    (length (header_text ty fname ps)) = body).
  { apply (@function_body_closed (header_text ty fname ps) body post Hb). }
  pose proof (@single_header ty fname ps (body ++ s2l "}" ++ post)
                Hty Hd Hi Hf Hw Hps Hno) as F.
  fold content in F.
  split.
  - unfold LLVMIRParser._extract_functions. rewrite F.
    cbn [fold_left dict_set]. unfold LLVMIRParser.function_info.
    cbn [r_end]. rewrite Hbody.
    unfold group. cbn [r_caps cap_lookup Nat.eqb]. rewrite Hs. reflexivity.
  - unfold IRToCConverter._extract_functions. rewrite F.
    cbn [fold_left]. unfold group at 1. cbn [r_caps cap_lookup Nat.eqb].
    destruct (IRToCConverter.skipped fname); [reflexivity|].
    cbn [dict_set]. unfold IRToCConverter.function_entry.
    cbn [r_end]. rewrite Hbody.
    unfold group. cbn [r_caps cap_lookup Nat.eqb]. rewrite Hs. reflexivity.
Qed.
End Pipeline.

Lemma single_function_listing_witness :
  LLVMIRParser._extract_functions
    (unlines ["define i32 @twice(i32 %x) {"; "  %2 = add i32 %x, %x ; sum";
              "  ret i32 %2 ; leave"; "}"; ""]%string)
  = [(s2l "twice",
      {| name := s2l "twice"; params := [s2l "%x"];
         return_type := s2l "i32";
         instructions := [s2l "%2 = add i32 %x, %x"; s2l "ret i32 %2"];
         basic_blocks := 0; complexity := 2 |})].
Proof.
  exact (proj1 (@single_function_listing ascii_only (s2l "i32") (s2l "twice")
                  (s2l "i32 %x")
                  (unlines [""; "  %2 = add i32 %x, %x ; sum";
                            "  ret i32 %2 ; leave"; ""]%string)
                  [10%N]
                  eq_refl eq_refl eq_refl ltac:(discriminate) eq_refl eq_refl
                  eq_refl eq_refl)).
Defined.

(* ================================================================== *)
(** ** Headers that are not recognised *)



Lemma brace_after_blanks_intro (ws b : str) :
  forallb is_space ws = true -> brace_after_blanks (ws ++ ch "{" :: b) = true.
Proof.
  intros H. unfold brace_after_blanks.
  induction ws as [|c ws IH]; [reflexivity|].
  cbn [forallb] in H. apply andb_true_iff in H as [Hc Hw].
  cbn [app lstrip]. rewrite Hc. apply IH. exact Hw.
Qed.

Lemma has_header_end_app (a b : str) :
  has_header_end b = true -> has_header_end (a ++ b) = true.
Proof.
  intros H. induction a as [|c a IH]; [exact H|].
  cbn [app has_header_end]. rewrite IH. apply orb_true_r.
Qed.

Lemma has_header_end_cons (c : char) (b : str) :
  has_header_end b = true -> has_header_end (c :: b) = true.
Proof. apply (has_header_end_app [c]). Qed.

Lemma has_header_end_here (ws b : str) :
  forallb is_space ws = true ->
  has_header_end (ch ")" :: ws ++ ch "{" :: b) = true.
Proof.
  intros H. cbn [has_header_end].
  rewrite (@brace_after_blanks_intro ws b H). reflexivity.
Qed.

Section Unrecognised.
Context {U : UnicodeDB}.

Lemma header_ends_with_brace (pos : nat) (bol : bool) (rest : str)
    (m : rmatched) :
  match_here func_pattern pos bol rest = Some m ->
  has_header_end rest = true.
Proof.
  intros H. apply match_here_sound in H as (w & c & post & L & -> & _).
  cbn in L. inv_lang; eqb_subst; repeat rewrite <- app_assoc; cbn [app];
    repeat first [ apply has_header_end_here; assumption
                 | apply has_header_end_cons
                 | apply has_header_end_app ].
Qed.

Lemma no_header_end_no_match (content : str) :
  has_header_end content = false -> finditer func_pattern content = [].
Proof.
  intros H. apply finditer_none. intros m Hm.
  apply finditer_from_at in Hm as (a & post & bol & -> & Hm).
  apply header_ends_with_brace in Hm.
  rewrite (@has_header_end_app a post Hm) in H. discriminate.
Qed.

(** X25. A header is recognised only where a closing parenthesis is
    followed, after optional whitespace, by an opening brace.  A listing
    with no such place has no function in either tool; this is so when
    every header carries an attribute group between its parameter list
    and its brace. *)
Theorem header_needs_brace_after_parameters (content : str) :
  has_header_end content = false ->
  LLVMIRParser._extract_functions content = [] /\
  IRToCConverter._extract_functions content = [] /\
  total_functions (LLVMIRParser.get_metrics (LLVMIRParser.parse content))
    = 0 /\
  ReportGenerator.shown (LLVMIRParser._extract_functions content) = [].
Proof.
  intros H. apply no_header_end_no_match in H.
  assert (R : LLVMIRParser._extract_functions content = []).
  { unfold LLVMIRParser._extract_functions. rewrite H. reflexivity. }
  assert (C : IRToCConverter._extract_functions content = []).
  { unfold IRToCConverter._extract_functions. rewrite H. reflexivity. }
  split; [exact R|]. split; [exact C|].
  cbn [total_functions LLVMIRParser.get_metrics LLVMIRParser.parse
       LLVMIRParser.functions].
  rewrite R. split; reflexivity.
Qed.
End Unrecognised.

Lemma header_needs_brace_after_parameters_witness :
  LLVMIRParser._extract_functions
    (unlines ["define dso_local i32 @main() #0 {"; "  ret i32 0"; "}"]%string)
  = [] /\
  IRToCConverter._extract_functions
    (unlines ["define dso_local i32 @main() #0 {"; "  ret i32 0"; "}"]%string)
  = [].
Proof.
  destruct (@header_needs_brace_after_parameters ascii_only
              (unlines ["define dso_local i32 @main() #0 {"; "  ret i32 0";
                        "}"]%string) eq_refl) as (H1 & H2 & _).
  split; assumption.
Defined.

(* ================================================================== *)
(** ** Label lines and instruction entries, counted *)

(** ** Cutting a text at the first character outside a class *)

Lemma prefix_cut (p : char -> bool) (s : str) :
  exists w tail,
    s = w ++ tail /\ forallb p w = true /\ prefix_len p s = length w /\
    match tail with [] => True | c :: _ => p c = false end.
Proof.
  induction s as [|c s (w & tail & Hs & Hw & Hl & Ht)].
  - exists [], []. auto.
  - cbn [prefix_len]. destruct (p c) eqn:E.
    + exists (c :: w), tail. cbn [app length forallb].
      rewrite <- Hs, Hl, E, Hw. auto.
    + exists [], (c :: s). auto.
Qed.

Lemma prefix_len_stop (p : char -> bool) (w tail : str) :
  forallb p w = true ->
  match tail with [] => True | c :: _ => p c = false end ->
  prefix_len p (w ++ tail) = length w.
Proof.
  intros Hw Ht. induction w as [|c w IH].
  - destruct tail as [|c tail]; [reflexivity|]. cbn. rewrite Ht. reflexivity.
  - cbn [forallb] in Hw. apply andb_true_iff in Hw as [Hc Hw].
    cbn [app prefix_len length]. rewrite Hc, (IH Hw). reflexivity.
Qed.

Lemma lstrip_skipn (s : str) : lstrip s = skipn (prefix_len is_space s) s.
Proof.
  induction s as [|c s IH]; [reflexivity|].
  cbn [lstrip prefix_len]. destruct (is_space c); [exact IH | reflexivity].
Qed.

Lemma lstrip_blank_app (ws x : str) :
  forallb is_space ws = true -> lstrip (ws ++ x) = lstrip x.
Proof.
  intros H. induction ws as [|c ws IH]; [reflexivity|].
  cbn [forallb] in H. apply andb_true_iff in H as [Hc Hw].
  cbn [app lstrip]. rewrite Hc. apply IH. exact Hw.
Qed.

Lemma bol_after_last (b : bool) (w : str) (c : char) :
  bol_after b (w ++ [c]) = (c =? 10)%N.
Proof. rewrite bol_after_app. reflexivity. Qed.

Lemma bol_after_inline (b : bool) (w : str) :
  w <> [] -> forallb is_dot w = true -> bol_after b w = false.
Proof.
  revert b. induction w as [|c w IH]; intros b Hne Hw; [congruence|].
  cbn [forallb] in Hw. apply andb_true_iff in Hw as [Hc Hw].
  cbn [bol_after]. destruct w as [|c' w'].
  - cbn. unfold is_dot in Hc. apply negb_true_iff in Hc. exact Hc.
  - apply IH; [discriminate | exact Hw].
Qed.

Lemma forallb_skipn (p : char -> bool) (n : nat) (s : str) :
  forallb p s = true -> forallb p (skipn n s) = true.
Proof.
  rewrite !forallb_forall. intros H x Hx. apply H.
  rewrite <- (firstn_skipn n s). apply in_or_app. right. exact Hx.
Qed.

Lemma forallb_firstn (p : char -> bool) (n : nat) (s : str) :
  forallb p s = true -> forallb p (firstn n s) = true.
Proof.
  rewrite !forallb_forall. intros H x Hx. apply H.
  rewrite <- (firstn_skipn n s). apply in_or_app. left. exact Hx.
Qed.

Lemma split_on_line (line rest : str) :
  forallb is_dot line = true ->
  split_on 10%N (line ++ 10%N :: rest) = line :: split_on 10%N rest.
Proof.
  intros H. induction line as [|c line IH].
  - cbn [app split_on]. rewrite N.eqb_refl. reflexivity.
  - cbn [forallb] in H. apply andb_true_iff in H as [Hc Hl].
    cbn [app split_on]. unfold is_dot in Hc. apply negb_true_iff in Hc.
    rewrite Hc, (IH Hl). reflexivity.
Qed.

Lemma split_on_last_line (line : str) :
  forallb is_dot line = true -> split_on 10%N line = [line].
Proof. intros H. apply split_on_absent. exact H. Qed.

(** A text is its first line, alone or followed by a line end and the
    rest. *)
Lemma first_line (T : str) :
  exists line,
    forallb is_dot line = true /\
    (T = line \/ exists rest, T = line ++ 10%N :: rest).
Proof.
  destruct (prefix_cut is_dot T) as (line & tail & -> & Hl & _ & Ht).
  exists line. split; [exact Hl|].
  destruct tail as [|c rest].
  - left. apply app_nil_r.
  - right. exists rest. unfold is_dot in Ht. apply negb_false_iff in Ht.
    apply N.eqb_eq in Ht. subst c. reflexivity.
Qed.

(** ** After a match *)

Lemma finditer_after (r : re) (T : str) (pos : nat) (bol : bool)
    (m : rmatched) (L : nat) :
  match_here r pos bol T = Some m -> r_end m = pos + L ->
  1 <= L -> L <= length T ->
  finditer_from r 0 pos bol T
  = m :: finditer_from r 0 (pos + L) (bol_after bol (firstn L T))
           (skipn L T).
Proof.
  intros Hm He H1 H2. destruct T as [|c T]; [cbn in H2; lia|].
  cbn [finditer_from]. rewrite Hm, He. f_equal.
  destruct L as [|L]; [lia|]. cbn [length] in H2.
  replace (pos + S L - pos - 1) with (length (firstn L T))
    by (rewrite length_firstn; lia).
  rewrite <- (firstn_skipn L T) at 2.
  rewrite finditer_from_skip. cbn [firstn skipn bol_after].
  rewrite length_firstn. f_equal. lia.
Qed.

Lemma finditer_step (r : re) (c : char) (T : str) (pos : nat) (bol : bool) :
  match_here r pos bol (c :: T) = None ->
  finditer_from r 0 pos bol (c :: T)
  = finditer_from r 0 (S pos) (c =? 10)%N T.
Proof. intros H. cbn [finditer_from]. rewrite H. reflexivity. Qed.

Lemma orelse_none {R} (a : option R) : orelse a None = a.
Proof. destruct a; reflexivity. Qed.

(** A greedy repetition takes the longest run when the rest of the
    pattern cannot start with a character of the class. *)
Lemma star_greedy_max {R} (p : char -> bool) (k : mstate -> option R)
    (caps : list (nat * str)) (T : str) :
  forall pos bol,
    (forall u c v, T = u ++ c :: v -> p c = true ->
       k (MState (pos + length u) (bol_after bol u) (c :: v) caps) = None) ->
    star_greedy p T (MState pos bol T caps) k
    = k (MState (pos + prefix_len p T)
           (bol_after bol (firstn (prefix_len p T) T))
           (skipn (prefix_len p T) T) caps).
Proof.
  induction T as [|c T IH]; intros pos bol Hfail.
  - cbn. rewrite Nat.add_0_r. reflexivity.
  - cbn [star_greedy prefix_len]. destruct (p c) eqn:Hc.
    + pose proof (Hfail [] c T eq_refl Hc) as H0.
      cbn [length bol_after] in H0. rewrite Nat.add_0_r in H0.
      rewrite H0, orelse_none. unfold advance. cbn [m_pos m_caps].
      rewrite IH.
      * cbn [firstn skipn bol_after]. f_equal. f_equal. lia.
      * intros u c' v E Hc'. specialize (Hfail (c :: u) c' v).
        cbn [length bol_after app] in Hfail.
        replace (S pos + length u) with (pos + S (length u)) by lia.
        apply Hfail; [rewrite E; reflexivity | exact Hc'].
    + cbn. rewrite Nat.add_0_r. reflexivity.
Qed.

Section LabelMatch.
Context {U : UnicodeDB}.

Lemma digit_not_colon (c : char) : is_digit c = true -> (58 =? c)%N = false.
Proof.
  intros H. destruct (N.eqb_spec 58%N c) as [E|E]; [|reflexivity].
  subst c. vm_compute in H. discriminate.
Qed.

Lemma colon_step (pos0 pos : nat) (bol : bool) (T : str) :
  rmatch (Lit (s2l ":")) (MState pos bol T []) (finish pos0)
  = if startswith (s2l ":") T then Some (RMatched pos0 (pos + 1) [])
    else None.
Proof.
  rewrite rmatch_Lit. cbn [m_rest].
  destruct (startswith (s2l ":") T) eqn:E; [|reflexivity].
  unfold finish. rewrite run_pos, run_caps. reflexivity.
Qed.

Lemma match_here_label_exact (pos : nat) (bol : bool) (T : str) :
  digits_apart T = true ->
  match_here LLVMIRParser.label_pattern pos bol T
  = if bol && is_label_line T
    then Some (RMatched pos (pos + label_len T) [])
    else None.
Proof.
  intros Hda. unfold match_here, LLVMIRParser.label_pattern.
  cbn [seqs rmatch m_bol]. destruct bol; [|reflexivity]. cbn [andb m_rest].
  fold (finish pos).
  rewrite star_greedy_max.
  2:{ intros u c v E Hc. unfold Plus. cbn [rmatch m_rest].
      assert (Hd : is_digit c = false).
      { unfold digits_apart in Hda. rewrite forallb_forall in Hda.
        assert (Hin : In c T)
          by (rewrite E; apply in_or_app; right; left; reflexivity).
        apply Hda in Hin. rewrite Hc, andb_true_r in Hin.
        apply negb_true_iff in Hin. exact Hin. }
      rewrite Hd. reflexivity. }
  rewrite <- lstrip_skipn. unfold is_label_line, label_len.
  set (t := lstrip T). unfold Plus. cbn [rmatch m_rest].
  destruct t as [|c t']; [reflexivity|].
  cbn [prefix_len]. destruct (is_digit c) eqn:Hc; [|reflexivity].
  unfold advance. cbn [m_pos m_caps].
  rewrite star_greedy_max.
  2:{ intros u c' v E Hc'. rewrite colon_step. cbn [startswith s2l
        list_ascii_of_string map]. change (N_of_ascii ":") with 58%N.
      rewrite (digit_not_colon _ Hc'). reflexivity. }
  rewrite colon_step. cbn [skipn Nat.ltb Nat.leb andb].
  destruct (startswith (s2l ":") (skipn (prefix_len is_digit t') t'));
    [|reflexivity].
  f_equal. f_equal. lia.
Qed.

Lemma match_here_label_line (pos : nat) (T : str) :
  match_here LLVMIRParser.label_pattern pos false T = None.
Proof.
  unfold match_here, LLVMIRParser.label_pattern. reflexivity.
Qed.
End LabelMatch.

(** ** The block count *)

Lemma firstn_length_app {A} (a b : list A) : firstn (length a) (a ++ b) = a.
Proof.
  induction a as [|x a IH]; cbn; [reflexivity | rewrite IH; reflexivity].
Qed.

Lemma skipn_length_app {A} (a b : list A) : skipn (length a) (a ++ b) = b.
Proof. induction a as [|x a IH]; cbn; [reflexivity | exact IH]. Qed.

Lemma skipn_past {A} (n : nat) (a b : list A) :
  skipn (length a + n) (a ++ b) = skipn n b.
Proof. induction a as [|x a IH]; cbn; [reflexivity | exact IH]. Qed.

Lemma skipn_within {A} (n : nat) (a b : list A) :
  n <= length a -> skipn n (a ++ b) = skipn n a ++ b.
Proof.
  intros H. rewrite skipn_app. replace (n - length a) with 0 by lia.
  reflexivity.
Qed.

Lemma prefix_len_app_all (p : char -> bool) (w x : str) :
  forallb p w = true -> prefix_len p (w ++ x) = length w + prefix_len p x.
Proof.
  intros H. induction w as [|c w IH]; [reflexivity|].
  cbn [forallb] in H. apply andb_true_iff in H as [Hc Hw].
  cbn [app prefix_len length]. rewrite Hc, (IH Hw). reflexivity.
Qed.

Lemma startswith_colon (T : str) :
  startswith (s2l ":") T = true -> exists t, T = 58%N :: t.
Proof.
  destruct T as [|c t]; [discriminate|].
  change (startswith (s2l ":") (c :: t)) with ((58 =? c)%N && true).
  rewrite andb_true_r. intros H. apply N.eqb_eq in H. subst c.
  exists t. reflexivity.
Qed.

Section LabelCount.
Context {U : UnicodeDB}.

(** A label at the head of a text: whitespace, digits and a colon. *)
Lemma label_shape (T : str) :
  is_label_line T = true ->
  exists ws ds t,
    T = ws ++ ds ++ 58%N :: t /\ forallb is_space ws = true /\
    forallb is_digit ds = true /\ ds <> [] /\
    label_len T = length ws + length ds + 1.
Proof.
  unfold is_label_line, label_len. rewrite lstrip_skipn.
  destruct (prefix_cut is_space T) as (ws & x & -> & Hws & -> & _).
  rewrite skipn_length_app.
  destruct (prefix_cut is_digit x) as (ds & y & -> & Hds & -> & _).
  rewrite skipn_length_app. intros H. apply andb_true_iff in H as [Hn Hc].
  apply Nat.ltb_lt in Hn. apply startswith_colon in Hc as (t & ->).
  exists ws, ds, t. repeat split; try assumption.
  intros ->. cbn in Hn. lia.
Qed.

Lemma label_found (pos : nat) (T : str) :
  digits_apart T = true -> is_label_line T = true ->
  finditer_from LLVMIRParser.label_pattern 0 pos true T
  = RMatched pos (pos + label_len T) []
    :: finditer_from LLVMIRParser.label_pattern 0 (pos + label_len T) false
         (skipn (label_len T) T).
Proof.
  intros Hda Hl.
  pose proof (@match_here_label_exact _ pos true T Hda) as Hm.
  rewrite Hl in Hm. cbn [andb] in Hm.
  destruct (@label_shape T Hl) as (ws & ds & t & E & _ & _ & _ & HL).
  assert (ET : T = (ws ++ ds ++ [58%N]) ++ t)
    by (rewrite E, <- !app_assoc; reflexivity).
  assert (EL : label_len T = length (ws ++ ds ++ [58%N]))
    by (rewrite HL, !length_app; cbn [length]; lia).
  rewrite (@finditer_after LLVMIRParser.label_pattern T pos true _
             (label_len T) Hm eq_refl).
  - f_equal. f_equal. rewrite EL. rewrite ET at 1.
    rewrite firstn_length_app, app_assoc. apply bol_after_last.
  - lia.
  - rewrite EL. rewrite ET at 1. rewrite (length_app _ t). lia.
Qed.

Lemma label_not_found (pos : nat) (c : char) (T : str) :
  digits_apart (c :: T) = true -> is_label_line (c :: T) = false ->
  finditer_from LLVMIRParser.label_pattern 0 pos true (c :: T)
  = finditer_from LLVMIRParser.label_pattern 0 (S pos) (c =? 10)%N T.
Proof.
  intros Hda Hl. apply finditer_step.
  rewrite (@match_here_label_exact _ pos true (c :: T) Hda), Hl. reflexivity.
Qed.

(** Inside a line the label pattern finds nothing. *)
Lemma label_skip_line (w : str) :
  forallb is_dot w = true ->
  forall pos,
    finditer_from LLVMIRParser.label_pattern 0 pos false w = [] /\
    forall rest,
      finditer_from LLVMIRParser.label_pattern 0 pos false (w ++ 10%N :: rest)
      = finditer_from LLVMIRParser.label_pattern 0 (pos + length w + 1) true
          rest.
Proof.
  induction w as [|c w IH]; intros Hw pos.
  - split; [reflexivity|]. intros rest. cbn [app length].
    rewrite finditer_step by apply match_here_label_line.
    rewrite N.eqb_refl. f_equal. lia.
  - cbn [forallb] in Hw. apply andb_true_iff in Hw as [Hc Hw].
    unfold is_dot in Hc. apply negb_true_iff in Hc.
    destruct (IH Hw (S pos)) as [H1 H2]. split.
    + rewrite finditer_step by apply match_here_label_line.
      rewrite Hc. exact H1.
    + intros rest. cbn [app length].
      rewrite finditer_step by apply match_here_label_line.
      rewrite Hc, H2. f_equal. lia.
Qed.

(** A line with something other than whitespace decides by itself
    whether it is a label line. *)
Lemma label_line_alone (line tail : str) :
  lstrip line <> [] -> forallb is_dot line = true ->
  match tail with [] => True | c :: _ => c = 10%N end ->
  is_label_line (line ++ tail) = is_label_line line /\
  label_len (line ++ tail) = label_len line.
Proof.
  intros Hne Hl Ht. unfold is_label_line, label_len.
  rewrite !lstrip_skipn in *.
  destruct (prefix_cut is_space line) as (ws & u & -> & Hws & E & Hu).
  rewrite E in *. rewrite skipn_length_app in Hne.
  destruct u as [|c u]; [congruence|].
  rewrite <- app_assoc.
  rewrite (@prefix_len_stop is_space ws ((c :: u) ++ tail) Hws Hu).
  rewrite !skipn_length_app.
  destruct (prefix_cut is_digit (c :: u)) as (ds & y & Ey & Hds & E' & Hy).
  rewrite E', Ey. rewrite <- app_assoc.
  assert (Hstop : match y ++ tail with
                  | [] => True | c :: _ => is_digit c = false end).
  { destruct y as [|c' y]; [|exact Hy]. cbn [app].
    destruct tail as [|c' tail]; [exact I|]. subst c'. reflexivity. }
  rewrite (@prefix_len_stop is_digit ds (y ++ tail) Hds Hstop).
  rewrite !skipn_length_app. split; [|reflexivity]. f_equal.
  destruct y as [|c' y]; [|reflexivity]. cbn [app].
  destruct tail as [|c' tail]; [reflexivity|]. subst c'. reflexivity.
Qed.

(** A blank line before a label is covered by the label's match. *)
Lemma label_line_blank (line rest : str) :
  forallb is_space line = true ->
  is_label_line (line ++ 10%N :: rest) = is_label_line rest /\
  label_len (line ++ 10%N :: rest) = length line + 1 + label_len rest.
Proof.
  intros Hl.
  assert (Hb : forallb is_space (line ++ [10%N]) = true)
    by (rewrite forallb_app, Hl; reflexivity).
  replace (line ++ 10%N :: rest) with ((line ++ [10%N]) ++ rest)
    by (rewrite <- app_assoc; reflexivity).
  unfold is_label_line, label_len.
  rewrite (@lstrip_blank_app (line ++ [10%N]) rest Hb).
  rewrite (@prefix_len_app_all is_space (line ++ [10%N]) rest Hb).
  rewrite length_app. cbn [length]. split; [reflexivity | lia].
Qed.

Lemma digits_apart_app (a b : str) :
  digits_apart (a ++ b) = digits_apart a && digits_apart b.
Proof. apply forallb_app. Qed.

Lemma label_lines_cons (line rest : str) :
  forallb is_dot line = true ->
  label_lines (line ++ 10%N :: rest)
  = (if is_label_line line then 1 else 0) + label_lines rest.
Proof.
  intros Hl. unfold label_lines. rewrite (@split_on_line line rest Hl).
  cbn [filter]. destruct (is_label_line line); reflexivity.
Qed.

Lemma label_count (n : nat) :
  forall T pos,
    length T <= n -> digits_apart T = true ->
    length (finditer_from LLVMIRParser.label_pattern 0 pos true T)
    = label_lines T.
Proof.
  induction n as [|n IH]; intros T pos Hn Hda.
  { destruct T; [reflexivity | cbn in Hn; lia]. }
  destruct (first_line T) as (line & Hl & [-> | (rest & ->)]).
  - (* the last line *)
    unfold label_lines. rewrite (@split_on_last_line line Hl). cbn [filter].
    destruct (is_label_line line) eqn:E.
    + rewrite (@label_found pos _ Hda E). cbn [length]. f_equal.
      destruct (@label_skip_line (skipn (label_len line) line)
                  (@forallb_skipn is_dot _ line Hl) (pos + label_len line))
        as [-> _].
      reflexivity.
    + destruct line as [|c l]; [reflexivity|].
      rewrite (@label_not_found pos _ _ Hda E).
      cbn [forallb] in Hl. apply andb_true_iff in Hl as [Hc Hl].
      unfold is_dot in Hc. apply negb_true_iff in Hc. rewrite Hc.
      destruct (@label_skip_line l Hl (S pos)) as [-> _]. reflexivity.
  - (* a line and more *)
    assert (Hrest : forall pos',
              length (finditer_from LLVMIRParser.label_pattern 0 pos' true
                        rest)
              = label_lines rest).
    { intros pos'. apply IH.
      - rewrite length_app in Hn. cbn [length] in Hn. lia.
      - rewrite digits_apart_app in Hda. apply andb_true_iff in Hda as [_ H].
        cbn [digits_apart forallb] in H. apply andb_true_iff in H as [_ H].
        exact H. }
    assert (Hdr : digits_apart rest = true).
    { rewrite digits_apart_app in Hda. apply andb_true_iff in Hda as [_ H].
      cbn [digits_apart forallb] in H. apply andb_true_iff in H as [_ H].
      exact H. }
    rewrite (@label_lines_cons line rest Hl).
    destruct (lstrip line) as [|h t] eqn:Hls.
    + (* a blank line *)
      pose proof (@lstrip_nil line Hls) as Hblank.
      assert (El : is_label_line line = false)
        by (unfold is_label_line; rewrite Hls; reflexivity).
      rewrite El.
      destruct (@label_line_blank line rest Hblank) as [E1 E2].
      destruct (is_label_line rest) eqn:Er.
      * rewrite (@label_found pos _ Hda E1).
        rewrite <- (Hrest (pos + length line + 1)).
        rewrite (@label_found _ _ Hdr Er). cbn [length Nat.add].
        rewrite E2.
        replace (line ++ 10%N :: rest) with ((line ++ [10%N]) ++ rest)
          by (rewrite <- app_assoc; reflexivity).
        replace (length line + 1 + label_len rest)
          with (length (line ++ [10%N]) + label_len rest)
          by (rewrite length_app; cbn [length]; lia).
        rewrite skipn_past.
        replace (pos + (length (line ++ [10%N]) + label_len rest))
          with (pos + length line + 1 + label_len rest)
          by (rewrite length_app; cbn [length]; lia).
        reflexivity.
      * destruct line as [|c l].
        -- cbn [app] in *.
           pose proof (@label_not_found pos _ _ Hda E1) as Hnf.
           unfold str, char in *. rewrite Hnf, N.eqb_refl. apply Hrest.
        -- cbn [app] in *. rewrite (@label_not_found pos _ _ Hda E1).
           cbn [forallb] in Hl. apply andb_true_iff in Hl as [Hc Hl].
           unfold is_dot in Hc. apply negb_true_iff in Hc. rewrite Hc.
           destruct (@label_skip_line l Hl (S pos)) as [_ ->]. apply Hrest.
    + (* a line with text *)
      assert (Hne : lstrip line <> []) by (rewrite Hls; discriminate).
      destruct (@label_line_alone line (10%N :: rest) Hne Hl eq_refl)
        as [E1 E2].
      destruct (is_label_line line) eqn:E.
      * rewrite (@label_found pos _ Hda E1). cbn [length Nat.add]. f_equal.
        rewrite E2.
        destruct (@label_shape line E)
          as (ws & ds & t' & Eline & _ & _ & _ & HL).
        rewrite skipn_within
          by (rewrite HL, Eline, !length_app; cbn [length]; lia).
        destruct (@label_skip_line (skipn (label_len line) line)
                    (@forallb_skipn is_dot _ line Hl) (pos + label_len line))
          as [_ ->].
        apply Hrest.
      * destruct line as [|c l]; [cbn in Hne; congruence|].
        cbn [app] in *. rewrite (@label_not_found pos _ _ Hda E1).
        cbn [forallb] in Hl. apply andb_true_iff in Hl as [Hc Hl].
        unfold is_dot in Hc. apply negb_true_iff in Hc. rewrite Hc.
        destruct (@label_skip_line l Hl (S pos)) as [_ ->]. apply Hrest.
Qed.

(** The block count is the number of label lines. *)
Lemma count_basic_blocks_lines (body : str) :
  digits_apart body = true ->
  LLVMIRParser.count_basic_blocks body = label_lines body.
Proof.
  intros H. unfold LLVMIRParser.count_basic_blocks, findall0, finditer.
  rewrite length_map. apply (@label_count (length body)); [lia | exact H].
Qed.
End LabelCount.

(** ** The instruction entries of a commented body *)

Lemma prefix_len_le (p : char -> bool) (s : str) :
  prefix_len p s <= length s.
Proof.
  induction s as [|c s IH]; cbn [prefix_len length]; [lia|].
  destruct (p c); lia.
Qed.

Lemma strip_blank (s : str) : forallb is_space s = true -> strip s = [].
Proof.
  intros H. unfold strip.
  rewrite <- (app_nil_r s), (@lstrip_blank_app s [] H). reflexivity.
Qed.

Lemma strip_blank_prefix (ws x : str) :
  forallb is_space ws = true -> strip (ws ++ x) = strip x.
Proof.
  intros H. unfold strip. rewrite (@lstrip_blank_app ws x H). reflexivity.
Qed.

Lemma blank_no_semi (s : str) :
  forallb is_space s = true -> forallb (is_not ";") s = true.
Proof.
  rewrite !forallb_forall. intros H x Hx. apply space_not_semi, H, Hx.
Qed.

Lemma keep_clean (w : str) :
  forallb (is_not ";") w = true ->
  LLVMIRParser.nonempty (strip w) && negb (startswith (s2l ";") (strip w))
  = LLVMIRParser.nonempty (strip w).
Proof.
  intros H. apply (@forallb_strip (is_not ";") w) in H.
  destruct (strip w) as [|h t]; [reflexivity|].
  cbn [forallb] in H. apply andb_true_iff in H as [Hh _].
  rewrite (@head_kept h t Hh). reflexivity.
Qed.

Lemma filter_split_length {A} (f g : A -> bool) (l : list A) :
  (forall x, g x = true -> f x = true) ->
  length (filter f l)
  = length (filter (fun x => f x && negb (g x)) l) + length (filter g l).
Proof.
  intros H. induction l as [|x l IH]; [reflexivity|].
  cbn [filter]. destruct (g x) eqn:G.
  - rewrite (H x G). cbn [andb negb length]. lia.
  - destruct (f x); cbn [andb negb length]; lia.
Qed.

Section InstructionCount.
Context {U : UnicodeDB}.

Lemma kept_nil (pre : str) (bol : bool) : kept_from pre bol [] = 0.
Proof.
  unfold kept_from. cbn [finditer_from].
  rewrite match_here_instruction. cbn [prefix_len Nat.ltb Nat.leb].
  rewrite andb_false_r. reflexivity.
Qed.

Lemma kept_step (pre : str) (bol : bool) (c : char) (T : str) :
  match_here LLVMIRParser.instruction_pattern (length pre) bol (c :: T)
  = None ->
  kept_from pre bol (c :: T) = kept_from (pre ++ [c]) (c =? 10)%N T.
Proof.
  intros H. unfold kept_from. rewrite (@finditer_step _ c T _ bol H).
  rewrite <- app_assoc, length_app. cbn [app length].
  rewrite Nat.add_1_r. reflexivity.
Qed.

Lemma kept_found (pre T : str) :
  0 < prefix_len (is_not ";") T ->
  kept_from pre true T
  = (if LLVMIRParser.nonempty (strip (code_part T)) then 1 else 0)
    + kept_from (pre ++ code_part T) (bol_after true (code_part T))
        (skipn (prefix_len (is_not ";") T) T).
Proof.
  intros HL. unfold code_part. set (L := prefix_len (is_not ";") T) in *.
  assert (HLT : L <= length T) by apply prefix_len_le.
  pose proof (match_here_instruction (length pre) true T) as Hm.
  fold L in Hm. apply Nat.ltb_lt in HL. rewrite HL in Hm. cbn [andb] in Hm.
  apply Nat.ltb_lt in HL. unfold kept_from.
  rewrite (@finditer_after _ T (length pre) true _ L Hm eq_refl) by lia.
  cbn [map filter].
  assert (Et : matched_text (pre ++ T)
                 (RMatched (length pre) (length pre + L) []) = firstn L T).
  { unfold matched_text, slice. cbn [r_start r_end].
    rewrite skipn_length_app. f_equal. lia. }
  rewrite Et, (@keep_clean (firstn L T)) by apply prefix_len_all.
  rewrite <- app_assoc, firstn_skipn, length_app, length_firstn.
  replace (Nat.min L (length T)) with L by lia.
  destruct (LLVMIRParser.nonempty (strip (firstn L T))); reflexivity.
Qed.

(** Inside a line the instruction pattern finds nothing. *)
Lemma kept_skip_line (w : str) :
  forallb is_dot w = true ->
  forall pre,
    kept_from pre false w = 0 /\
    forall rest,
      kept_from pre false (w ++ 10%N :: rest)
      = kept_from (pre ++ w ++ [10%N]) true rest.
Proof.
  induction w as [|c w IH]; intros Hw pre.
  - split; [apply kept_nil|]. intros rest. cbn [app].
    rewrite kept_step by apply match_here_instruction.
    rewrite N.eqb_refl. reflexivity.
  - cbn [forallb] in Hw. apply andb_true_iff in Hw as [Hc Hw].
    unfold is_dot in Hc. apply negb_true_iff in Hc.
    destruct (IH Hw (pre ++ [c])) as [H1 H2]. split.
    + rewrite kept_step by apply match_here_instruction.
      rewrite Hc. exact H1.
    + intros rest. cbn [app].
      rewrite kept_step by apply match_here_instruction.
      rewrite Hc, H2, <- app_assoc. reflexivity.
Qed.

(** What one line gives to the instruction list, when the line is blank
    or holds a semicolon. *)
Lemma kept_line (line : str) :
  forallb is_dot line = true ->
  forallb is_space line || negb (forallb (is_not ";") line) = true ->
  forall pre,
    kept_from pre true line = (if is_code_line line then 1 else 0) /\
    forall rest, exists pre',
      kept_from pre true (line ++ 10%N :: rest)
      = (if is_code_line line then 1 else 0) + kept_from pre' true rest.
Proof.
  intros Hl Ht pre. destruct (forallb (is_not ";") line) eqn:Hsemi.
  - (* a blank line *)
    rewrite orb_false_r in Ht.
    assert (Ec : is_code_line line = false).
    { unfold is_code_line, code_part.
      rewrite strip_blank; [reflexivity|].
      apply forallb_firstn. exact Ht. }
    rewrite Ec. split.
    + destruct line as [|c l]; [apply kept_nil|].
      assert (EP : prefix_len (is_not ";") (c :: l) = length (c :: l)).
      { rewrite <- (app_nil_r (c :: l)) at 1.
        apply prefix_len_stop; [exact Hsemi | exact I]. }
      rewrite kept_found by (rewrite EP; cbn [length]; lia).
      unfold code_part. rewrite EP, firstn_all, skipn_all, kept_nil.
      rewrite (@strip_blank (c :: l) Ht). reflexivity.
    + intros rest. exists (pre ++ line ++ [10%N]).
      assert (Hb : forallb is_space (line ++ [10%N]) = true)
        by (rewrite forallb_app, Ht; reflexivity).
      assert (EP : prefix_len (is_not ";") ((line ++ [10%N]) ++ rest)
                   = length (line ++ [10%N])
                     + prefix_len (is_not ";") rest).
      { apply prefix_len_app_all. apply blank_no_semi. exact Hb. }
      replace (line ++ 10%N :: rest) with ((line ++ [10%N]) ++ rest)
        by (rewrite <- app_assoc; reflexivity).
      rewrite kept_found by (rewrite EP, length_app; cbn [length]; lia).
      unfold code_part at 1 2 3. rewrite EP.
      rewrite firstn_app_2, skipn_past, (@strip_blank_prefix _ _ Hb).
      rewrite bol_after_app, bol_after_last, N.eqb_refl.
      cbn [Nat.add].
      destruct (prefix_len (is_not ";") rest) as [|p] eqn:Er.
      * cbn [firstn skipn bol_after]. rewrite app_nil_r.
        change (strip []) with (@nil char). cbn [LLVMIRParser.nonempty].
        rewrite <- ?app_assoc. reflexivity.
      * rewrite (@kept_found (pre ++ line ++ [10%N]) rest)
          by (rewrite Er; lia).
        unfold code_part. rewrite Er, <- !app_assoc. reflexivity.
  - (* a line with a semicolon *)
    clear Ht.
    destruct (prefix_cut (is_not ";") line)
      as (code & tail & -> & Hcode & EP & Htail).
    destruct tail as [|s comment];
      [rewrite app_nil_r in Hsemi; congruence|].
    assert (Es : s = 59%N).
    { unfold is_not in Htail. apply negb_false_iff, N.eqb_eq in Htail.
      exact Htail. }
    subst s.
    rewrite forallb_app in Hl. apply andb_true_iff in Hl as [Hlc Hl].
    cbn [forallb] in Hl. apply andb_true_iff in Hl as [_ Hlm].
    unfold str, char in *.
    assert (Ec : is_code_line (code ++ 59%N :: comment)
                 = LLVMIRParser.nonempty (strip code)).
    { unfold is_code_line, code_part.
      rewrite EP, firstn_length_app. reflexivity. }
    rewrite Ec.
    assert (Hhead : forall X,
              exists pre',
                kept_from pre true (code ++ 59%N :: comment ++ X)
                = (if LLVMIRParser.nonempty (strip code) then 1 else 0)
                  + kept_from pre' false (comment ++ X)).
    { intros X.
      assert (EPX : prefix_len (is_not ";") (code ++ 59%N :: comment ++ X)
                    = length code)
        by (apply prefix_len_stop; [exact Hcode | reflexivity]).
      destruct code as [|c0 code'].
      - exists (pre ++ [59%N]). cbn [app].
        rewrite kept_step.
        + change (strip []) with (@nil char). reflexivity.
        + rewrite match_here_instruction. reflexivity.
      - exists ((pre ++ c0 :: code') ++ [59%N]).
        rewrite kept_found by (rewrite EPX; cbn [length]; lia).
        unfold code_part. rewrite EPX, firstn_length_app, skipn_length_app.
        rewrite (@bol_after_inline true (c0 :: code'))
          by (try discriminate; exact Hlc).
        rewrite kept_step by apply match_here_instruction.
        reflexivity. }
    split.
    + destruct (Hhead []) as (pre' & E). rewrite app_nil_r in E.
      rewrite E. destruct (@kept_skip_line comment Hlm pre') as [-> _].
      lia.
    + intros rest. destruct (Hhead (10%N :: rest)) as (pre' & E).
      exists (pre' ++ comment ++ [10%N]).
      rewrite <- app_assoc. cbn [app]. rewrite E.
      destruct (@kept_skip_line comment Hlm pre') as [_ ->]. reflexivity.
Qed.

Lemma kept_count (n : nat) :
  forall T pre,
    length T <= n -> every_line_commented T = true ->
    kept_from pre true T
    = length (filter is_code_line (split_on 10%N T)).
Proof.
  induction n as [|n IH]; intros T pre Hn Hc.
  { destruct T; [apply kept_nil | cbn in Hn; lia]. }
  destruct (first_line T) as (line & Hl & [-> | (rest & ->)]).
  - unfold every_line_commented in Hc.
    rewrite (@split_on_last_line line Hl) in *. cbn [forallb filter] in *.
    rewrite andb_true_r in Hc.
    destruct (@kept_line line Hl Hc pre) as [-> _].
    destruct (is_code_line line); reflexivity.
  - unfold every_line_commented in Hc.
    rewrite (@split_on_line line rest Hl) in *. cbn [forallb filter] in *.
    apply andb_true_iff in Hc as [Hc Hr].
    destruct (@kept_line line Hl Hc pre) as [_ H].
    destruct (H rest) as (pre' & ->).
    rewrite (IH rest pre').
    + destruct (is_code_line line); reflexivity.
    + rewrite length_app in Hn. cbn [length] in Hn. lia.
    + exact Hr.
Qed.

Lemma is_digit_not_semi (c : char) : is_digit c = true -> is_not ";" c = true.
Proof.
  intros H. unfold is_not. apply negb_true_iff, N.eqb_neq.
  intros ->. vm_compute in H. discriminate.
Qed.

(** A label line has text before its first semicolon. *)
Lemma label_line_is_code (line : str) :
  is_label_line line = true -> is_code_line line = true.
Proof.
  intros H.
  destruct (@label_shape _ line H) as (ws & ds & t & -> & Hws & Hds & _ & _).
  unfold is_code_line, code_part.
  assert (Hw : forallb (is_not ";") (ws ++ ds ++ [58%N]) = true).
  { rewrite forallb_forall in *. intros x Hx.
    apply in_app_or in Hx as [Hx|Hx]; [apply space_not_semi, Hws, Hx|].
    apply in_app_or in Hx as [Hx|Hx]; [apply is_digit_not_semi, Hds, Hx|].
    destruct Hx as [<-|[]]. reflexivity. }
  unfold str, char in *.
  replace (ws ++ ds ++ 58%N :: t) with ((ws ++ ds ++ [58%N]) ++ t)
    by (rewrite <- !app_assoc; reflexivity).
  pose proof (@prefix_len_app_all _ _ t Hw) as EP.
  unfold str, char in *. rewrite EP, firstn_app_2.
  destruct (strip _) as [|h r] eqn:E; [|reflexivity].
  apply strip_nil in E. rewrite !forallb_app in E.
  apply andb_true_iff in E as [E _]. apply andb_true_iff in E as [_ E].
  apply andb_true_iff in E as [_ E]. cbn in E. discriminate E.
Qed.

(** On a body whose lines are blank or hold a semicolon, the instruction
    list has one entry for each line with text before its semicolon. *)
Lemma instructions_count_lines (body : str) :
  every_line_commented body = true ->
  length (LLVMIRParser.extract_instructions body)
  = instruction_lines body + label_lines body.
Proof.
  intros H. unfold LLVMIRParser.extract_instructions. rewrite length_map.
  pose proof (@kept_count (length body) body [] (le_n _) H) as K.
  unfold kept_from in K. cbn [app length] in K.
  unfold findall0, finditer. rewrite K.
  apply filter_split_length. intros x. apply label_line_is_code.
Qed.
End InstructionCount.

(** ** The complexity score *)

Section Complexity.
Context {U : UnicodeDB}.

(** C1, as amended. For every extracted function the complexity score is
    the number of instruction entries plus twice the block count, and the
    block count is exactly B, the number of lines of the body that begin,
    after optional whitespace, with an integer and a colon (provided no
    character of the body is at once a decimal digit and whitespace).  A
    block label standing at a line start is counted and is not left out
    of the instruction list: its text is part of one of the entries.  On
    a body whose every line is blank or holds a semicolon the instruction
    list has N + B entries, N the number of lines that are neither blank,
    nor comment, nor label lines, and the score is N + 3 * B. *)
Theorem labels_counted_and_kept (content : str) (m : rmatched) :
  let f := LLVMIRParser.function_info content m in
  let body := function_body content (r_end m) in
  complexity f = length (instructions f) + 2 * basic_blocks f /\
  (digits_apart body = true -> basic_blocks f = label_lines body) /\
  (forall pre indent d post,
     body = pre ++ indent ++ d ++ s2l ":" ++ post ->
     bol_after true pre = true -> forallb is_space indent = true ->
     d <> [] -> forallb ascii_digit d = true ->
     1 <= basic_blocks f /\
     exists a b, In (a ++ d ++ s2l ":" ++ b) (instructions f)) /\
  (digits_apart body = true -> every_line_commented body = true ->
     length (instructions f) = instruction_lines body + label_lines body /\
     complexity f = instruction_lines body + 3 * label_lines body).
Proof.
  intros f body. subst f.
  cbn [complexity instructions basic_blocks LLVMIRParser.function_info].
  fold body. split; [lia|]. split; [apply count_basic_blocks_lines|]. split.
  - intros pre indent d post -> Hbol Hind Hd Hdig. split.
    + apply label_counted; assumption.
    + apply label_in_instructions; assumption.
  - intros Hda Hc.
    rewrite (@count_basic_blocks_lines _ body Hda).
    rewrite (@instructions_count_lines _ body Hc). split; lia.
Qed.
End Complexity.

(** A body of three instruction lines and two label lines, every line
    closed by a comment, through the theorem: two blocks, five entries
    and the score 3 + 3 * 2. *)
Lemma labels_counted_and_kept_witness :
  exists f,
    dict_get (s2l "f")
      (LLVMIRParser._extract_functions
         (unlines ["define i32 @f(i32 %x) {"; "  br label %1 ; jump";
                   "1: ; preds = %0"; "  br label %2 ; next";
                   "2: ; preds = %1"; "  ret i32 %x ; leave";
                   "}"]%string)) = Some f /\
    label_lines
      (unlines [""; "  br label %1 ; jump"; "1: ; preds = %0";
                "  br label %2 ; next"; "2: ; preds = %1";
                "  ret i32 %x ; leave"; ""]%string) = 2 /\
    instruction_lines
      (unlines [""; "  br label %1 ; jump"; "1: ; preds = %0";
                "  br label %2 ; next"; "2: ; preds = %1";
                "  ret i32 %x ; leave"; ""]%string) = 3 /\
    basic_blocks f = 2 /\
    length (instructions f) = 3 + 2 /\
    complexity f = 3 + 3 * 2 /\
    exists a b, In (a ++ s2l "2" ++ s2l ":" ++ b) (instructions f).
Proof.
  match eval vm_compute in
    (finditer func_pattern
       (unlines ["define i32 @f(i32 %x) {"; "  br label %1 ; jump";
                 "1: ; preds = %0"; "  br label %2 ; next";
                 "2: ; preds = %1"; "  ret i32 %x ; leave"; "}"]%string))
  with
  | [?m] =>
      exists (LLVMIRParser.function_info
                (unlines ["define i32 @f(i32 %x) {"; "  br label %1 ; jump";
                          "1: ; preds = %0"; "  br label %2 ; next";
                          "2: ; preds = %1"; "  ret i32 %x ; leave";
                          "}"]%string) m);
      destruct (@labels_counted_and_kept ascii_only
                  (unlines ["define i32 @f(i32 %x) {";
                            "  br label %1 ; jump"; "1: ; preds = %0";
                            "  br label %2 ; next"; "2: ; preds = %1";
                            "  ret i32 %x ; leave"; "}"]%string) m)
        as (_ & HB & HK & HN)
  end.
  split; [vm_compute; reflexivity|].
  split; [vm_compute; reflexivity|].
  split; [vm_compute; reflexivity|].
  specialize (HB ltac:(vm_compute; reflexivity)).
  destruct (HN ltac:(vm_compute; reflexivity) ltac:(vm_compute; reflexivity))
    as [HL HS].
  split; [etransitivity; [exact HB | vm_compute; reflexivity]|].
  split; [etransitivity; [exact HL | vm_compute; reflexivity]|].
  split; [etransitivity; [exact HS | vm_compute; reflexivity]|].
  apply (HK ([10%N] ++ s2l "  br label %1 ; jump" ++ [10%N]
             ++ s2l "1: ; preds = %0" ++ [10%N]
             ++ s2l "  br label %2 ; next" ++ [10%N]) []
           (s2l "2")
           (s2l " ; preds = %1" ++ [10%N] ++ s2l "  ret i32 %x ; leave"
            ++ [10%N])).
  - vm_compute. reflexivity.
  - vm_compute. reflexivity.
  - reflexivity.
  - discriminate.
  - vm_compute. reflexivity.
Defined.
